(** * Skinie Buddy: routine synthesis and catalog reconciliation

    A shallow embedding of [Backend/services/geminiService.js]
    ([getGeminiResponse], [generateSkincareRoutine]), of the product
    controller ([autoRegenerateRoutines], [getProduct], [createProduct],
    [updateProduct], [deleteProduct]) and of the streak controller
    ([getStreak], [updateStreak]), together with the properties the
    specification states about them and further properties of the code. *)

From Stdlib Require Import Ascii ZArith QArith Qcanon.
From stdpp Require Import gmap strings list fin_maps.

Set Default Proof Using "Type".
Local Open Scope N_scope.

(** ** JavaScript strings

    A JavaScript string is a sequence of UTF-16 code units; a code unit is
    kept as its number. *)

Abbreviation text := (list N).

(** A literal of the source, written as a Rocq string. *)
Definition str (s : string) : text :=
  N_of_ascii <$> String.list_ascii_of_string s.

(** [WhiteSpace] and [LineTerminator] of ECMAScript: what [\s] matches in a
    regular expression and what [String.prototype.trim] removes. *)
Definition is_js_space (c : N) : bool :=
  match c with
  | 9 | 10 | 11 | 12 | 13 | 32 | 160 | 5760
  | 8192 | 8193 | 8194 | 8195 | 8196 | 8197 | 8198 | 8199 | 8200 | 8201 | 8202
  | 8232 | 8233 | 8239 | 8287 | 12288 | 65279 => true
  | _ => false
  end.

Fixpoint trimStart (s : text) : text :=
  match s with
  | c :: s' => if is_js_space c then trimStart s' else s
  | [] => []
  end.

Definition trimEnd (s : text) : text := reverse (trimStart (reverse s)).

Definition trim (s : text) : text := trimEnd (trimStart s).

Fixpoint startsWith (s p : text) {struct p} : bool :=
  match p, s with
  | [], _ => true
  | c :: p', d :: s' => if decide (c = d) then startsWith s' p' else false
  | _ :: _, [] => false
  end.

Definition endsWith (s p : text) : bool := startsWith (reverse s) (reverse p).

(** [s.includes(p)]: [p] occurs in [s] as a contiguous run. *)
Fixpoint includes (s p : text) : bool :=
  startsWith s p ||
  match s with
  | [] => false
  | _ :: s' => includes s' p
  end.

Definition text_eqb (s p : text) : bool := bool_decide (s = p).

(** ** The regular expressions of [generateSkincareRoutine]

    Code units used below: 96 is the backtick, 123 and 125 are the braces. *)

Definition is_letter (lower upper c : N) : bool :=
  bool_decide (c = lower) || bool_decide (c = upper).

Definition fence : text := [96; 96; 96].

(** [/json/i] at the start of [s]: under the [i] flag each of the letters
    j, s, o, n matches its two ASCII cases and nothing else. *)
Definition jsonTag (s : text) : bool :=
  match s with
  | j :: s' :: o :: n :: _ =>
      is_letter 106 74 j && is_letter 115 83 s' &&
      is_letter 111 79 o && is_letter 110 78 n
  | _ => false
  end.

(** [s.replace(/^```json\s*/i, '')] *)
Definition stripFenceJson (s : text) : text :=
  if startsWith s fence && jsonTag (drop 3 s)
  then trimStart (drop 7 s) else s.

(** [s.replace(/^```\s*/i, '')] *)
Definition stripFenceOpen (s : text) : text :=
  if startsWith s fence then trimStart (drop 3 s) else s.

(** [s.replace(/\s*```$/i, '')]: the leftmost match starts at the run of
    white space that precedes the three closing backticks. *)
Definition stripFenceClose (s : text) : text :=
  if endsWith s fence then trimEnd (take (length s - 3) s) else s.

(** Lines 163-168: [trim] and the three replacements. *)
Definition cleanResponse (aiResponse : text) : text :=
  stripFenceClose (stripFenceOpen (stripFenceJson (trim aiResponse))).

Fixpoint dropUntil (c : N) (s : text) : text :=
  match s with
  | d :: s' => if decide (d = c) then s else dropUntil c s'
  | [] => []
  end.

(** [s.match(/\{[\s\S]*\}/)]: from the first opening brace to the last
    closing brace after it; [None] is the [null] of a failed match. *)
Definition matchBraces (s : text) : option text :=
  match dropUntil 123 s with
  | [] => None
  | open :: rest =>
      match dropUntil 125 (reverse rest) with
      | [] => None
      | back => Some (open :: reverse back)
      end
  end.

(** ** JSON values

    A number is kept as the exact rational its literal denotes; an object as
    a finite map from property names to values. *)

Local Unset Elimination Schemes.

Inductive JSON : Type :=
  | JNull
  | JBool (b : bool)
  | JNum (q : Qc)
  | JStr (s : text)
  | JArr (l : list JSON)
  | JObj (o : gmap text JSON).

Local Set Elimination Schemes.

(** A JavaScript value read from a property: [None] is [undefined]. *)
Abbreviation JSValue := (option JSON).

Definition num (z : Z) : JSON := JNum (Q2Qc (inject_Z z)).

(** A literal that is not zero still gives the number 0 when it is at most
    2^-1075 in magnitude: the nearest binary64 value is then 0. *)
Definition rounds_to_zero (q : Qc) : bool :=
  (Z.abs (Qnum q) * 2 ^ 1075 <=? Z.pos (Qden q))%Z.

(** [ToBoolean] on parsed JSON. *)
Definition truthy (v : JSON) : bool :=
  match v with
  | JNull => false
  | JBool b => b
  | JNum q => negb (rounds_to_zero q)
  | JStr s => negb (bool_decide (s = []))
  | JArr _ | JObj _ => true
  end.

Definition truthy_value (v : JSValue) : bool :=
  match v with
  | Some j => truthy j
  | None => false
  end.

(** ** [JSON.parse]

    The grammar of ECMA-404 as [JSON.parse] reads it. [None] stands for the
    [SyntaxError] it throws. When a property name occurs twice the later
    value wins. *)

Module Json.

Definition is_ws (c : N) : bool :=
  (c =? 9) || (c =? 10) || (c =? 13) || (c =? 32).

Fixpoint skip_ws (s : text) : text :=
  match s with
  | c :: s' => if is_ws c then skip_ws s' else s
  | [] => []
  end.

Definition digit (c : N) : option Z :=
  if (48 <=? c) && (c <=? 57) then Some (Z.of_N (c - 48)) else None.

Definition hex (c : N) : option N :=
  if (48 <=? c) && (c <=? 57) then Some (c - 48)
  else if (97 <=? c) && (c <=? 102) then Some (c - 87)
  else if (65 <=? c) && (c <=? 70) then Some (c - 55)
  else None.

Fixpoint span_digits (s : text) : list Z * text :=
  match s with
  | c :: s' =>
      match digit c with
      | Some d => let '(ds, r) := span_digits s' in (d :: ds, r)
      | None => ([], s)
      end
  | [] => ([], [])
  end.

Definition digits_to_Z (ds : list Z) : Z :=
  foldl (λ a d, 10 * a + d)%Z 0%Z ds.

(** The value of [-? int frac? exp?] as a rational. *)
Definition decimal (neg : bool) (ip fp : list Z) (eneg : bool) (ed : list Z) : Qc :=
  let m := digits_to_Z (ip ++ fp) in
  let m := if neg then (- m)%Z else m in
  let e := ((if eneg then - digits_to_Z ed else digits_to_Z ed)
            - Z.of_nat (length fp))%Z in
  if (0 <=? e)%Z then Q2Qc (inject_Z (m * 10 ^ e))
  else Q2Qc (Qmake m (Z.to_pos (10 ^ (- e)))).

Definition parse_sign (s : text) : bool * text :=
  match s with
  | c :: r => if c =? 45 then (true, r) else (false, s)
  | [] => (false, s)
  end.

(** [0] or a run of digits that does not start with 0. *)
Definition parse_int (s : text) : option (list Z * text) :=
  match s with
  | c :: r =>
      if c =? 48 then Some ([0%Z], r)
      else match span_digits s with
           | ([], _) => None
           | (ds, r') => Some (ds, r')
           end
  | [] => None
  end.

Definition parse_frac (s : text) : option (list Z * text) :=
  match s with
  | c :: r =>
      if c =? 46
      then match span_digits r with
           | ([], _) => None
           | (ds, r') => Some (ds, r')
           end
      else Some ([], s)
  | [] => Some ([], s)
  end.

Definition parse_exp_sign (s : text) : bool * text :=
  match s with
  | c :: r => if c =? 43 then (false, r)
              else if c =? 45 then (true, r) else (false, s)
  | [] => (false, s)
  end.

Definition parse_exp (s : text) : option (bool * list Z * text) :=
  match s with
  | c :: r =>
      if (c =? 101) || (c =? 69)
      then let '(eneg, r1) := parse_exp_sign r in
           match span_digits r1 with
           | ([], _) => None
           | (ds, r2) => Some (eneg, ds, r2)
           end
      else Some (false, [], s)
  | [] => Some (false, [], s)
  end.

Definition parse_number (s : text) : option (Qc * text) :=
  let '(neg, s1) := parse_sign s in
  '(ip, s2) ← parse_int s1;
  '(fp, s3) ← parse_frac s2;
  '(eneg, ed, s4) ← parse_exp s3;
  Some (decimal neg ip fp eneg ed, s4).

(** The character an escape with one letter stands for. *)
Definition escape (e : N) : option N :=
  match e with
  | 34 => Some 34
  | 92 => Some 92
  | 47 => Some 47
  | 98 => Some 8
  | 102 => Some 12
  | 110 => Some 10
  | 114 => Some 13
  | 116 => Some 9
  | _ => None
  end.

Definition hex4 (a b c d : N) : option N :=
  a ← hex a; b ← hex b; c ← hex c; d ← hex d;
  Some (a * 4096 + b * 256 + c * 16 + d).

(** The characters of a string after its opening quote, up to and
    including the closing quote; [acc] holds what was read, reversed. *)
Fixpoint parse_chars (s : text) (acc : text) : option (text * text) :=
  match s with
  | [] => None
  | c :: r =>
      if c =? 34 then Some (reverse acc, r)
      else if c =? 92 then
        match r with
        | [] => None
        | e :: r1 =>
            match escape e with
            | Some x => parse_chars r1 (x :: acc)
            | None =>
                if e =? 117 then
                  match r1 with
                  | a :: b :: c :: d :: r2 =>
                      match hex4 a b c d with
                      | Some x => parse_chars r2 (x :: acc)
                      | None => None
                      end
                  | _ => None
                  end
                else None
            end
        end
      else if c <? 32 then None
      else parse_chars r (c :: acc)
  end.

(** The next character after white space, when it is [c]. *)
Definition next_is (c : N) (s : text) : option text :=
  match skip_ws s with
  | d :: r => if d =? c then Some r else None
  | [] => None
  end.

Definition literal (word : text) (v : JSON) (s : text) : option (JSON * text) :=
  if startsWith s word then Some (v, drop (length word) s) else None.

Fixpoint parse_value (fuel : nat) (s : text) : option (JSON * text) :=
  match fuel with
  | O => None
  | S fuel =>
      match skip_ws s with
      | [] => None
      | c :: r =>
          if c =? 123 then
            match next_is 125 r with
            | Some r' => Some (JObj ∅, r')
            | None => parse_members fuel r ∅
            end
          else if c =? 91 then
            match next_is 93 r with
            | Some r' => Some (JArr [], r')
            | None => parse_elements fuel r []
            end
          else if c =? 34 then
            '(k, r') ← parse_chars r []; Some (JStr k, r')
          else if c =? 116 then literal (str "true") (JBool true) (c :: r)
          else if c =? 102 then literal (str "false") (JBool false) (c :: r)
          else if c =? 110 then literal (str "null") JNull (c :: r)
          else '(q, r') ← parse_number (c :: r); Some (JNum q, r')
      end
  end
with parse_members (fuel : nat) (s : text) (acc : gmap text JSON)
    : option (JSON * text) :=
  match fuel with
  | O => None
  | S fuel =>
      r ← next_is 34 s;
      '(k, r1) ← parse_chars r [];
      r2 ← next_is 58 r1;
      '(v, r3) ← parse_value fuel r2;
      match next_is 44 r3 with
      | Some r4 => parse_members fuel r4 (<[k:=v]> acc)
      | None => r4 ← next_is 125 r3; Some (JObj (<[k:=v]> acc), r4)
      end
  end
with parse_elements (fuel : nat) (s : text) (acc : list JSON)
    : option (JSON * text) :=
  match fuel with
  | O => None
  | S fuel =>
      '(v, r) ← parse_value fuel s;
      match next_is 44 r with
      | Some r' => parse_elements fuel r' (v :: acc)
      | None => r' ← next_is 93 r; Some (JArr (reverse (v :: acc)), r')
      end
  end.

(** One value, white space around it, and nothing else. Every call of the
    parser consumes a character, so the length of the text bounds the
    depth of the calls. *)
Definition parse (s : text) : option JSON :=
  '(v, r) ← parse_value (S (length s)) s;
  match skip_ws r with
  | [] => Some v
  | _ => None
  end.

End Json.

(** ** Exceptions

    One constructor for each [throw] of the two source files and for the
    errors the runtime raises; the message of the source is in the comment. *)

Inductive Exn : Type :=
  | SyntaxError                (* thrown by JSON.parse *)
  | TypeError                  (* a property of null or undefined, a call of a non-function *)
  | ApiKeyMissing              (* 'Gemini API key not configured' *)
  | ResponseTooLong            (* 'Response too long. Please try with fewer products.' *)
  | BlockedBySafety            (* 'Response blocked by safety filters' *)
  | UnexpectedFormat           (* 'Unexpected response format from Gemini API' *)
  | RateLimit                  (* 'Rate limit exceeded. Please try again later.' *)
  | InvalidApiKey              (* 'Invalid Gemini API key' *)
  | Forbidden                  (* 'Gemini API access forbidden. Check your API key permissions.' *)
  | AxiosError (status : option N)   (* the rejection of axios.post, thrown again *)
  | Truncated                  (* 'AI response was truncated. Please try again.' *)
  | InvalidStructure           (* 'Invalid response structure: missing or invalid steps array' *)
  | InvalidFormat (cause : Exn).     (* `AI generated invalid response format: ${cause.message}` *)

Inductive result (A : Type) : Type :=
  | Ok (a : A)
  | Throw (e : Exn).
Arguments Ok {A} a.
Arguments Throw {A} e.

Global Instance result_ret : MRet result := @Ok.
Global Instance result_bind : MBind result := λ A B f m,
  match m with
  | Ok a => f a
  | Throw e => Throw e
  end.

(** [try { m } catch (e) { h e }] for code without side effects. *)
Definition catch_result {A} (m : result A) (h : Exn → result A) : result A :=
  match m with
  | Ok a => Ok a
  | Throw e => h e
  end.

(** [JSON.parse] with its exception. *)
Definition JSON_parse (s : text) : result JSON :=
  match Json.parse s with
  | Some v => Ok v
  | None => Throw SyntaxError
  end.

(** [v.k] for the property names the source reads ([steps], [tips],
    [productName], ...): none of them is defined on the prototype of a
    string, number, boolean or array, so only an object can hold one. *)
Definition get (v : JSON) (k : text) : result JSValue :=
  match v with
  | JNull => Throw TypeError
  | JObj o => Ok (o !! k)
  | _ => Ok None
  end.

(** [v.k = x] on an object. *)
Definition set (v : JSON) (k : text) (x : JSON) : JSON :=
  match v with
  | JObj o => JObj (<[k:=x]> o)
  | _ => v
  end.

Definition isArray (v : JSValue) : bool :=
  match v with
  | Some (JArr _) => true
  | _ => false
  end.

(** ** Parsing the reply: [generateSkincareRoutine], lines 160-207 *)

(** Lines 163-185: from the reply to the decoded value. *)
Definition decode (aiResponse : text) : result JSON :=
  let cleanedResponse := cleanResponse aiResponse in
  match matchBraces cleanedResponse with
  | Some jsonString =>
      if negb (endsWith (trim jsonString) (str "}"))
      then Throw Truncated
      else JSON_parse jsonString
  | None => JSON_parse cleanedResponse
  end.

(** Lines 187-201: the check of [steps] and the defaults. *)
Definition validateAndFill (parsedResponse : JSON) : result JSON :=
  steps ← get parsedResponse (str "steps");
  if negb (truthy_value steps) || negb (isArray steps)
  then Throw InvalidStructure
  else
    warnings ← get parsedResponse (str "compatibilityWarnings");
    let parsedResponse :=
      if negb (truthy_value warnings)
      then set parsedResponse (str "compatibilityWarnings") (JArr [])
      else parsedResponse in
    duration ← get parsedResponse (str "estimatedDuration");
    let parsedResponse :=
      if negb (truthy_value duration)
      then set parsedResponse (str "estimatedDuration") (num 19)
      else parsedResponse in
    tips ← get parsedResponse (str "tips");
    let parsedResponse :=
      if negb (truthy_value tips)
      then set parsedResponse (str "tips") (JArr [])
      else parsedResponse in
    Ok parsedResponse.

(** The body of the inner [try]. *)
Definition parseBody (aiResponse : text) : result JSON :=
  parsedResponse ← decode aiResponse;
  validateAndFill parsedResponse.

(** The inner [try] with its [catch], which throws every failure again
    under the message 'AI generated invalid response format'. *)
Definition parseAIResponse (aiResponse : text) : result JSON :=
  catch_result (parseBody aiResponse) (λ parseError, Throw (InvalidFormat parseError)).

(** ** Documents *)

Inductive RoutineType : Type := morning | night.

Global Instance RoutineType_eq_dec : EqDecision RoutineType.
Proof. solve_decision. Defined.

Definition routineTypes : list RoutineType := [morning; night].

Definition typeName (t : RoutineType) : text :=
  match t with
  | morning => str "morning"
  | night => str "night"
  end.

Record Product : Type := {
  p_id : nat;
  p_user : nat;
  p_name : text;
  p_brand : text;
  p_type : text;
  p_keyIngredients : option (list text);
  p_usage : text;
  p_isActive : bool;
}.

Record User : Type := {
  skinType : option text;
  skinConcerns : option (list text);
}.

(** A step as [autoRegenerateRoutines] builds it: [stepNumber] and
    [instruction] are whatever the draft holds under these names. *)
Record Step : Type := {
  stepNumber : JSValue;
  product : nat;
  instruction : JSValue;
  waitTime : JSON;
}.

Record Routine : Type := {
  r_user : nat;
  r_name : text;
  r_type : RoutineType;
  steps : list Step;
  isAIGenerated : bool;
  compatibilityWarnings : JSON;
}.

Definition with_steps (r : Routine) (s : list Step) : Routine :=
  {| r_user := r_user r; r_name := r_name r; r_type := r_type r; steps := s;
     isAIGenerated := isAIGenerated r;
     compatibilityWarnings := compatibilityWarnings r |}.

Definition with_stepNumber (s : Step) (n : JSValue) : Step :=
  {| stepNumber := n; product := product s; instruction := instruction s;
     waitTime := waitTime s |}.

(** ** The prompt

    The template of lines 117-155 is a fixed text around these parts; the
    record keeps the parts. *)

Record ProductDetail : Type := {
  d_name : text;
  d_brand : text;
  d_type : text;
  d_ingredients : text;
  d_usage : text;
}.

Record Prompt : Type := {
  q_type : RoutineType;
  q_skinType : text;
  q_skinConcerns : text;
  q_products : list ProductDetail;
}.

(** [l.join(', ')] *)
Fixpoint join (l : list text) : text :=
  match l with
  | [] => []
  | [s] => s
  | s :: l' => s ++ str ", " ++ join l'
  end.

(** [s || 'Not specified'] on a string that may be [undefined]. *)
Definition orNotSpecified (s : option text) : text :=
  match s with
  | Some (c :: s') => c :: s'
  | _ => str "Not specified"
  end.

Definition productDetail (p : Product) : ProductDetail :=
  {| d_name := p_name p; d_brand := p_brand p; d_type := p_type p;
     d_ingredients := orNotSpecified (join <$> p_keyIngredients p);
     d_usage := p_usage p |}.

Definition buildPrompt (products : list Product) (type : RoutineType)
    (skinType : option text) (skinConcerns : option (list text)) : Prompt :=
  {| q_type := type;
     q_skinType := orNotSpecified skinType;
     q_skinConcerns := orNotSpecified (join <$> skinConcerns);
     q_products := productDetail <$> products |}.

(** ** The world: collections, and a log of what was done to them *)

(** What is written to the console, a constructor for each call of
    [console.log], [console.warn] and [console.error]: first those of
    [geminiService.js], then those of the product controller. Line 78 prints
    the data of the response of a rejected request, or the message of the
    error: the error it caught stands for both. *)
Inductive ConsoleLine : Type :=
  | KeyNotFound                                     (* geminiService.js, line 13 *)
  | TruncatedByTokenLimit                           (* line 63 *)
  | UnexpectedFinishReason (finishReason : text)    (* line 68 *)
  | GeminiApiError (e : Exn)                        (* line 78 *)
  | AppearsTruncated                                (* line 177 *)
  | TruncatedResponse (jsonString : text)           (* line 178 *)
  | FailedToParse (aiResponse : text)               (* line 204 *)
  | ParseErrorMessage (e : Exn)                     (* line 205 *)
  | ErrorGeneratingRoutine (e : Exn)                (* line 211 *)
  | NotEnoughProducts                               (* the controller, line 17 *)
  | CouldNotRegenerate (t : RoutineType) (e : Exn)  (* line 83 *)
  | ErrorAutoRegenerating (e : Exn)                 (* line 93 *)
  | AutoRegenerated (count : nat)                   (* lines 179, 232, 308 *)
  | BackgroundFailed (e : Exn).                     (* lines 182, 235, 311 *)

Inductive Event : Type :=
  | EvPost (prompt : Prompt)                        (* axios.post to the Gemini endpoint *)
  | EvRoutineDeleteMany (user : nat) (t : RoutineType)
  | EvRoutineCreate (id : nat)
  | EvRoutineDelete (id : nat)                      (* Routine.findByIdAndDelete *)
  | EvRoutineSave (id : nat)                        (* routine.save() *)
  | EvProductCreate (id : nat)
  | EvProductUpdate (id : nat)
  | EvProductDelete (id : nat)
  | EvConsole (line : ConsoleLine).

Record World : Type := {
  products : list Product;
  users : gmap nat User;
  routines : gmap nat Routine;
  log : list Event;
}.

Definition set_products (w : World) (ps : list Product) : World :=
  {| products := ps; users := users w; routines := routines w; log := log w |}.

Definition set_routines (w : World) (rs : gmap nat Routine) : World :=
  {| products := products w; users := users w; routines := rs; log := log w |}.

Definition add_log (w : World) (e : Event) : World :=
  {| products := products w; users := users w; routines := routines w;
     log := log w ++ [e] |}.

Definition add_logs (w : World) (es : list Event) : World :=
  {| products := products w; users := users w; routines := routines w;
     log := log w ++ es |}.

(** ** Effects: a state and exception monad over the world

    A [throw] keeps the writes made before it, as in JavaScript. *)

Definition M (A : Type) : Type := World → World * result A.

Global Instance M_ret : MRet M := λ A a w, (w, Ok a).
Global Instance M_bind : MBind M := λ A B f m w,
  match m w with
  | (w', Ok a) => f a w'
  | (w', Throw e) => (w', Throw e)
  end.

Definition throw {A} (e : Exn) : M A := λ w, (w, Throw e).

Definition lift {A} (r : result A) : M A := λ w, (w, r).

Definition try_catch {A} (m : M A) (h : Exn → M A) : M A := λ w,
  match m w with
  | (w', Ok a) => (w', Ok a)
  | (w', Throw e) => h e w'
  end.

Definition emit (e : Event) : M unit := λ w, (add_log w e, Ok tt).

Definition console (line : ConsoleLine) : M unit := emit (EvConsole line).

Fixpoint consoleAll (lines : list ConsoleLine) : M unit :=
  match lines with
  | [] => mret tt
  | line :: rest => _ ← console line; consoleAll rest
  end.

Definition read {A} (f : World → A) : M A := λ w, (w, Ok (f w)).

Definition write (f : World → World) : M unit := λ w, (f w, Ok tt).

(** ** Persistence *)

(** Modelled from the spec: the Mongoose models ([models/Product.js],
    [models/Routine.js], [models/User.js]) are not among the sources. Section
    6 of the specification asks of persistence find-by-owner-and-filter,
    find-by-id, create, update and delete on Product and Routine, and the
    query of the routines that reference a product in any step. Products are
    kept in the order [find] returns them, routines and users by [_id]; a
    write always succeeds and stores the document as it is given. *)
Module Db.

Definition Product_find_active (user : nat) : M (list Product) :=
  read (λ w, filter (λ p, p_user p = user ∧ p_isActive p = true) (products w)).

Definition Product_findById (id : nat) : M (option Product) :=
  read (λ w, List.find (λ p, bool_decide (p_id p = id)) (products w)).

Definition Product_insert (p : Product) : M unit :=
  _ ← write (λ w, set_products w (products w ++ [p]));
  emit (EvProductCreate (p_id p)).

Definition fresh_product_id : M nat :=
  read (λ w, fresh (list_to_set (p_id <$> products w) : gset nat)).

Definition Product_replace (id : nat) (p : Product) : M unit :=
  _ ← write (λ w, set_products w
         ((λ q, if decide (p_id q = id) then p else q) <$> products w));
  emit (EvProductUpdate id).

Definition Product_findByIdAndDelete (id : nat) : M unit :=
  _ ← write (λ w, set_products w (filter (λ p, p_id p ≠ id) (products w)));
  emit (EvProductDelete id).

Definition User_findById (id : nat) : M (option User) :=
  read (λ w, users w !! id).

Definition references (id : nat) (r : Routine) : Prop :=
  Exists (λ s, product s = id) (steps r).

Global Instance references_dec id r : Decision (references id r).
Proof. unfold references. apply _. Defined.

(** [Routine.find({ user, 'steps.product': id })] *)
Definition Routine_find_using (user id : nat) : M (list (nat * Routine)) :=
  read (λ w, map_to_list
    (filter (λ kr, r_user kr.2 = user ∧ references id kr.2) (routines w))).

(** [Routine.deleteMany({ user, type, isAIGenerated: true })] *)
Definition Routine_deleteMany_ai (user : nat) (type : RoutineType) : M unit :=
  _ ← write (λ w, set_routines w
         (filter (λ kr, ¬ (r_user kr.2 = user ∧ r_type kr.2 = type ∧
                            isAIGenerated kr.2 = true)) (routines w)));
  emit (EvRoutineDeleteMany user type).

Definition Routine_create (r : Routine) : M nat :=
  id ← read (λ w, fresh (dom (routines w)));
  _ ← write (λ w, set_routines w (<[id:=r]> (routines w)));
  _ ← emit (EvRoutineCreate id);
  mret id.

Definition Routine_findByIdAndDelete (id : nat) : M unit :=
  _ ← write (λ w, set_routines w (delete id (routines w)));
  emit (EvRoutineDelete id).

(** [routine.save()] for the document with this [_id]. *)
Definition Routine_save (id : nat) (r : Routine) : M unit :=
  _ ← write (λ w, set_routines w (<[id:=r]> (routines w)));
  emit (EvRoutineSave id).

End Db.

(** ** What the code is run against *)

(** The reply of the Gemini endpoint to one [axios.post]: the fields of
    [response.data.candidates[0]] the code reads, or the rejection with its
    HTTP status when there is one. *)
Inductive AxiosOutcome : Type :=
  | Responded (finishReason : option text) (content : option text)
  | Rejected (status : option N).

(** [toLowerCase] is [String.prototype.toLowerCase]. [axios_post n prompt]
    is the outcome of the request when [n] requests were made before it, so
    that the endpoint may answer the same prompt differently each time. *)
Class Env : Type := {
  toLowerCase : text → text;
  GEMINI_API_KEY : option text;
  axios_post : nat → Prompt → AxiosOutcome;
}.

Definition is_post (e : Event) : bool :=
  match e with
  | EvPost _ => true
  | _ => false
  end.

Definition posts (l : list Event) : nat := length (filter (λ e, is_post e = true) l).

Section Service.
Context `{Env}.

(** [await axios.post(url, body, ...)] *)
Definition post (prompt : Prompt) : M AxiosOutcome :=
  n ← read (λ w, posts (log w));
  _ ← emit (EvPost prompt);
  mret (axios_post n prompt).

(** The [catch] of lines 77-93: an HTTP status of 429, 401 or 403 is
    replaced by an error of its own, anything else is thrown as it came. *)
Definition relay (error : Exn) : Exn :=
  match error with
  | AxiosError (Some status) =>
      if status =? 429 then RateLimit
      else if status =? 401 then InvalidApiKey
      else if status =? 403 then Forbidden
      else error
  | _ => error
  end.

(** Lines 67-69: a finish reason that is truthy and not 'STOP' is worth a
    warning, and the reply is used all the same. *)
Definition warnFinishReason (finishReason : option text) : M unit :=
  match finishReason with
  | Some (c :: r) =>
      if bool_decide (c :: r ≠ str "STOP")
      then console (UnexpectedFinishReason (c :: r))
      else mret tt
  | _ => mret tt
  end.

(** [getGeminiResponse], lines 8-94. *)
Definition getGeminiResponse (prompt : Prompt) : M text :=
  try_catch
    (match GEMINI_API_KEY with
     | None | Some [] =>
         _ ← console KeyNotFound;
         throw ApiKeyMissing
     | Some _ =>
         response ← post prompt;
         match response with
         | Rejected status => throw (AxiosError status)
         | Responded finishReason content =>
             if bool_decide (finishReason = Some (str "MAX_TOKENS"))
             then _ ← console TruncatedByTokenLimit; throw ResponseTooLong
             else if bool_decide (finishReason = Some (str "SAFETY"))
             then throw BlockedBySafety
             else
               _ ← warnFinishReason finishReason;
               match content with
               | Some (c :: s) => mret (c :: s)
               | _ => throw UnexpectedFormat
               end
         end
     end)
    (λ error, _ ← console (GeminiApiError error); throw (relay error)).

(** What the inner [try] of [generateSkincareRoutine] writes to the console
    while [parseAIResponse] computes its result: lines 177-178 just before
    the throw of line 179, and lines 204-205 in the [catch], for whatever
    the body threw. *)
Definition parseLines (aiResponse : text) : list ConsoleLine :=
  match matchBraces (cleanResponse aiResponse) with
  | Some jsonString =>
      if negb (endsWith (trim jsonString) (str "}"))
      then [AppearsTruncated; TruncatedResponse (take 500 jsonString)]
      else []
  | None => []
  end ++
  match parseBody aiResponse with
  | Ok _ => []
  | Throw parseError =>
      [FailedToParse (take 1000 aiResponse); ParseErrorMessage parseError]
  end.

(** [generateSkincareRoutine], lines 105-214; the outer [catch] writes the
    error to the console and throws what it caught. *)
Definition generateSkincareRoutine (products : list Product)
    (type : RoutineType) (skinType : option text)
    (skinConcerns : option (list text)) : M JSON :=
  let prompt := buildPrompt products type skinType skinConcerns in
  try_catch
    (aiResponse ← getGeminiResponse prompt;
     _ ← consoleAll (parseLines aiResponse);
     lift (parseAIResponse aiResponse))
    (λ error, _ ← console (ErrorGeneratingRoutine error); throw error).

End Service.

(** ** The product controller *)

(** The three shapes of the value [autoRegenerateRoutines] returns. *)
Inductive RegenResult : Type :=
  | Insufficient                (* { regenerated: false, reason: 'insufficient_products' } *)
  | Regenerated (count : nat)   (* { regenerated: true, count, message } *)
  | RegenFailed (e : Exn).      (* { regenerated: false, error: error.message } *)

Definition regenerated (r : RegenResult) : bool :=
  match r with
  | Regenerated _ => true
  | _ => false
  end.

(** The fields of a product a request body may carry; [user] is one of
    them, since the handlers pass [req.body] on as it came. *)
Record ProductBody : Type := {
  b_user : option nat;
  b_name : option text;
  b_brand : option text;
  b_type : option text;
  b_keyIngredients : option (list text);
  b_usage : option text;
  b_isActive : option bool;
}.

Inductive Response : Type :=
  | Created (p : Product) (autoRegenerate : bool)            (* 201 *)
  | Updated (p : Product) (autoRegenerate : JSON)            (* 200 *)
  | Deleted (routinesAffected : nat) (autoRegenerate : bool) (* 200 *)
  | NotFound                                                 (* 404 *)
  | NotAuthorized                                            (* 403 *)
  | NextError (e : Exn).                                     (* next(error) *)

(** What a handler leaves behind: the response it sent, and the user for
    whom it started [autoRegenerateRoutines] without awaiting it. *)
Record Reply : Type := {
  response : Response;
  scheduled : option nat;
}.

Definition renumber (l : list Step) : list Step :=
  imap (λ index step, with_stepNumber step (Some (num (Z.of_nat index + 1)))) l.

Definition routineName (t : RoutineType) : text :=
  match t with
  | morning => str "AI Generated Morning Routine"
  | night => str "AI Generated Night Routine"
  end.

Section Controller.
Context `{Env}.

(** The callback of [products.find], lines 46-50. *)
Definition matches (productName : text) (p : Product) : bool :=
  text_eqb (toLowerCase (p_name p)) (toLowerCase productName)
  || includes (toLowerCase productName) (toLowerCase (p_name p))
  || includes (toLowerCase (p_name p)) (toLowerCase productName).

Definition findMatch (products : list Product) (productName : text)
    : option Product :=
  List.find (matches productName) products.

(** One turn of the loop of lines 45-60. The callback runs only when there
    is a product to try, and then [aiStep.productName.toLowerCase()] needs
    a string. *)
Definition bindStep (products : list Product) (aiStep : JSON)
    : result (option Step) :=
  matchingProduct ←
    match products with
    | [] => Ok None
    | _ =>
        productName ← get aiStep (str "productName");
        match productName with
        | Some (JStr productName) => Ok (findMatch products productName)
        | _ => Throw TypeError
        end
    end;
  match matchingProduct with
  | Some p =>
      number ← get aiStep (str "stepNumber");
      text ← get aiStep (str "instruction");
      wait ← get aiStep (str "waitTime");
      Ok (Some {| stepNumber := number;
                  product := p_id p;
                  instruction := text;
                  waitTime := match wait with
                              | Some v => if truthy v then v else num 0
                              | None => num 0
                              end |})
  | None => Ok None
  end.

Fixpoint bindSteps (products : list Product) (aiSteps : list JSON)
    : result (list Step) :=
  match aiSteps with
  | [] => Ok []
  | aiStep :: rest =>
      step ← bindStep products aiStep;
      more ← bindSteps products rest;
      Ok (option_list step ++ more)
  end.

(** [aiRoutineData.steps] as the sequence [for ... of] walks. *)
Definition stepsOf (aiRoutineData : JSON) : result (list JSON) :=
  v ← get aiRoutineData (str "steps");
  match v with
  | Some (JArr l) => Ok l
  | _ => Throw TypeError
  end.

(** The [try] block of the loop over the routine types, lines 35-81; the
    result tells whether [regeneratedCount] went up. *)
Definition synthesizeBody (userId : nat) (products : list Product)
    (user : option User) (type : RoutineType) : M bool :=
  u ← match user with
      | Some u => mret u
      | None => throw TypeError
      end;
  aiRoutineData ← generateSkincareRoutine products type (skinType u) (skinConcerns u);
  aiSteps ← lift (stepsOf aiRoutineData);
  steps ← lift (bindSteps products aiSteps);
  if decide (0 < length steps)%nat then
    _ ← Db.Routine_deleteMany_ai userId type;
    warnings ← lift (get aiRoutineData (str "compatibilityWarnings"));
    _ ← Db.Routine_create
          {| r_user := userId;
             r_name := routineName type;
             r_type := type;
             steps := steps;
             isAIGenerated := true;
             compatibilityWarnings :=
               match warnings with
               | Some v => if truthy v then v else JArr []
               | None => JArr []
               end |};
    mret true
  else mret false.

(** One turn of the loop, lines 34-84: the [try] block and its [catch],
    which writes the error to the console and goes on. *)
Definition synthesize (userId : nat) (products : list Product)
    (user : option User) (type : RoutineType) : M bool :=
  try_catch (synthesizeBody userId products user type)
    (λ aiError, _ ← console (CouldNotRegenerate type aiError); mret false).

Fixpoint regenerateTypes (userId : nat) (products : list Product)
    (user : option User) (types : list RoutineType) (regeneratedCount : nat)
    : M nat :=
  match types with
  | [] => mret regeneratedCount
  | type :: rest =>
      done ← synthesize userId products user type;
      regenerateTypes userId products user rest
        (if done : bool then S regeneratedCount else regeneratedCount)
  end.

(** [autoRegenerateRoutines], lines 7-96. *)
Definition autoRegenerateRoutines (userId : nat) : M RegenResult :=
  try_catch
    (products ← Db.Product_find_active userId;
     if decide (length products < 3)%nat then
       _ ← console NotEnoughProducts;
       mret Insufficient
     else
       user ← Db.User_findById userId;
       regeneratedCount ← regenerateTypes userId products user routineTypes 0;
       mret (Regenerated regeneratedCount))
    (λ error, _ ← console (ErrorAutoRegenerating error); mret (RegenFailed error)).

(** The promise a handler starts and does not await:
    [autoRegenerateRoutines(id).then(...).catch(...)]. *)
Definition background (userId : nat) : M unit :=
  try_catch
    (result ← autoRegenerateRoutines userId;
     match result with
     | Regenerated count => console (AutoRegenerated count)
     | _ => mret tt
     end)
    (λ err, console (BackgroundFailed err)).

(** Modelled from the spec: the schema of [models/Product.js] is not
    among the sources. [Product.create({ ...req.body, user: req.user._id })]
    stores the fields of section 3; a field the body does not carry is left
    empty, and a product is active unless the body says otherwise. The
    [user] of line 173 comes after the spread of the body and so replaces a
    [user] the body carries. *)
Definition newProduct (id user : nat) (body : ProductBody) : Product :=
  {| p_id := id; p_user := user;
     p_name := default [] (b_name body);
     p_brand := default [] (b_brand body);
     p_type := default [] (b_type body);
     p_keyIngredients := b_keyIngredients body;
     p_usage := default [] (b_usage body);
     p_isActive := default true (b_isActive body) |}.

(** Modelled from the spec: the schema of [models/Product.js] is not
    among the sources. [Product.findByIdAndUpdate(id, req.body, { new: true })]
    replaces the fields the body carries, [user] among them, and keeps the
    others. *)
Definition applyBody (p : Product) (body : ProductBody) : Product :=
  {| p_id := p_id p; p_user := default (p_user p) (b_user body);
     p_name := default (p_name p) (b_name body);
     p_brand := default (p_brand p) (b_brand body);
     p_type := default (p_type p) (b_type body);
     p_keyIngredients :=
       match b_keyIngredients body with
       | Some l => Some l
       | None => p_keyIngredients p
       end;
     p_usage := default (p_usage p) (b_usage body);
     p_isActive := default (p_isActive p) (b_isActive body) |}.

(** [createProduct], lines 169-196. *)
Definition createProduct (reqUser : nat) (body : ProductBody) : M Reply :=
  id ← Db.fresh_product_id;
  let product := newProduct id reqUser body in
  _ ← Db.Product_insert product;
  mret {| response := Created product true; scheduled := Some reqUser |}.

(** Line 227: the value of [req.body.type || req.body.usage !== undefined ||
    req.body.isActive !== undefined], which is the type when the body has
    one that is not empty and a boolean otherwise; the response carries it
    as [autoRegenerate]. *)
Definition significantChangeValue (body : ProductBody) : JSON :=
  match b_type body with
  | Some (c :: s) => JStr (c :: s)
  | _ => JBool (bool_decide (b_usage body ≠ None) || bool_decide (b_isActive body ≠ None))
  end.

(** The same as the truth value the [if] of line 229 sees. *)
Definition significantChange (body : ProductBody) : bool :=
  truthy (significantChangeValue body).

(** [updateProduct], lines 201-250. *)
Definition updateProduct (reqUser id : nat) (body : ProductBody) : M Reply :=
  found ← Db.Product_findById id;
  match found with
  | None => mret {| response := NotFound; scheduled := None |}
  | Some product =>
      if decide (p_user product ≠ reqUser)
      then mret {| response := NotAuthorized; scheduled := None |}
      else
        let product := applyBody product body in
        _ ← Db.Product_replace id product;
        mret {| response := Updated product (significantChangeValue body);
                scheduled := if significantChange body then Some reqUser else None |}
  end.

(** Lines 284-300: the loop over the routines that use the product. *)
Fixpoint repairRoutines (id : nat) (routinesWithProduct : list (nat * Routine))
    : M unit :=
  match routinesWithProduct with
  | [] => mret tt
  | (rid, routine) :: rest =>
      let kept := filter (λ step, product step ≠ id) (steps routine) in
      _ ← (if decide (length kept = 0)%nat
           then Db.Routine_findByIdAndDelete rid
           else Db.Routine_save rid (with_steps routine (renumber kept)));
      repairRoutines id rest
  end.

(** [deleteProduct], lines 255-325. *)
Definition deleteProduct (reqUser id : nat) : M Reply :=
  found ← Db.Product_findById id;
  match found with
  | None => mret {| response := NotFound; scheduled := None |}
  | Some product =>
      if decide (p_user product ≠ reqUser)
      then mret {| response := NotAuthorized; scheduled := None |}
      else
        routinesWithProduct ← Db.Routine_find_using reqUser id;
        _ ← repairRoutines id routinesWithProduct;
        _ ← Db.Product_findByIdAndDelete id;
        mret {| response := Deleted (length routinesWithProduct) true;
                scheduled := Some reqUser |}
  end.

(** A handler under its [try]/[catch] that hands the error to [next]. *)
Definition handle (h : M Reply) : M Reply :=
  try_catch h (λ error, mret {| response := NextError error; scheduled := None |}).

(** A request served to the end: the handler, then the promise it left. *)
Definition serve (h : M Reply) : M Reply :=
  reply ← handle h;
  _ ← match scheduled reply with
      | Some userId => background userId
      | None => mret tt
      end;
  mret reply.

End Controller.

(** ** Reading a product *)

(** What [getProduct] answers. *)
Inductive Fetched : Type :=
  | FetchedProduct (p : Product)   (* 200 *)
  | FetchedNotFound                (* 404 *)
  | FetchedNotAuthorized.          (* 403 *)

(** [getProduct], lines 138-164. *)
Definition getProduct (reqUser id : nat) : M Fetched :=
  found ← Db.Product_findById id;
  match found with
  | None => mret FetchedNotFound
  | Some product =>
      if decide (p_user product ≠ reqUser)
      then mret FetchedNotAuthorized
      else mret (FetchedProduct product)
  end.

Local Open Scope Z_scope.

(** ** The streak controller

    A date is kept as its time value, the milliseconds since the epoch, and
    is a valid date. The counters are integers: the handlers start them at 1
    and only add 1. *)

(** [1000 * 60 * 60 * 24] *)
Definition msPerDay : Z := 1000 * 60 * 60 * 24.

(** [date.setHours(0, 0, 0, 0)] followed by [date.getTime()]: the start of
    the day of [date] in the time zone of the server. *)
Class Clock : Type := {
  setHoursZero : Z → Z;
}.

Record LoginEntry : Type := {
  date : Z;
  routineCompleted : bool;
}.

(** A streak document; [achievements] stands for what the schema holds
    besides the fields the handlers name. *)
Record Streak (A : Type) : Type := {
  currentStreak : Z;
  longestStreak : Z;
  lastLoginDate : Z;
  totalLogins : Z;
  loginHistory : list LoginEntry;
  achievements : A;
}.
Arguments currentStreak {A} _.
Arguments longestStreak {A} _.
Arguments lastLoginDate {A} _.
Arguments totalLogins {A} _.
Arguments loginHistory {A} _.
Arguments achievements {A} _.

(** [models/Streak.js] is not among the sources: what a new document holds
    besides the fields [Streak.create] is given, and the method
    [checkAchievements], which may change the document or throw, are left
    open. *)
Class StreakModel : Type := {
  Achievements : Type;
  noAchievements : Achievements;
  checkAchievements : Streak Achievements → result (Streak Achievements);
}.

Inductive StreakReply (A : Type) : Type :=
  | StreakSent (streak : Streak A)    (* 200 *)
  | StreakNext (error : Exn).         (* next(error) *)
Arguments StreakSent {A} streak.
Arguments StreakNext {A} error.

Definition with_history {A} (s : Streak A) (h : list LoginEntry) : Streak A :=
  {| currentStreak := currentStreak s; longestStreak := longestStreak s;
     lastLoginDate := lastLoginDate s; totalLogins := totalLogins s;
     loginHistory := h; achievements := achievements s |}.

Definition completed (e : LoginEntry) : LoginEntry :=
  {| date := date e; routineCompleted := true |}.

(** [todayEntry.routineCompleted = true] for the entry [find] returned: the
    first one the test holds for. *)
Fixpoint completeFirst (test : LoginEntry → bool) (h : list LoginEntry)
    : list LoginEntry :=
  match h with
  | [] => []
  | e :: h' => if test e then completed e :: h' else e :: completeFirst test h'
  end.

(** [l.slice(-90)] *)
Definition lastNinety {A} (l : list A) : list A := drop (length l - 90) l.

(** Modelled from the spec: section 1 leaves the persistence of Streak
    records to a document store keyed by the owning user. The collection is
    a map from the user to the user's streak: [findOne] is a lookup, [create]
    and [save] store the document, and a write always succeeds. A handler
    takes the time of its [new Date()] and the collection, and gives the
    collection back with what it answers. *)

Section Streaks.
Context `{Clock} `{StreakModel}.

(** The callback of [loginHistory.find], lines 376-380. *)
Definition isToday (today : Z) (entry : LoginEntry) : bool :=
  setHoursZero (date entry) =? today.

(** Lines 387-412 of [updateStreak]: a login on a day without an entry.
    [Math.floor(diffTime / msPerDay)] is the quotient rounded down; for dates
    less than 2^27 days apart the division of doubles gives the same. *)
Definition advance {A} (today : Z) (streak : Streak A) : Streak A :=
  let lastLogin := setHoursZero (lastLoginDate streak) in
  let diffTime := today - lastLogin in
  let diffDays := diffTime / msPerDay in
  let current :=
    if diffDays =? 1 then currentStreak streak + 1
    else if diffDays >? 1 then 1
    else currentStreak streak in
  let longest :=
    if (diffDays =? 1) && (current >? longestStreak streak)
    then current else longestStreak streak in
  let history :=
    loginHistory streak ++ [{| date := today; routineCompleted := true |}] in
  {| currentStreak := current;
     longestStreak := longest;
     lastLoginDate := today;
     totalLogins := totalLogins streak + 1;
     loginHistory := if decide (90 < length history)%nat
                     then lastNinety history else history;
     achievements := achievements streak |}.

(** [getStreak], lines 331-354; [now] and [now'] are the two [new Date()]
    of the document it creates. *)
Definition getStreak (reqUser : nat) (now now' : Z)
    (db : gmap nat (Streak Achievements))
    : gmap nat (Streak Achievements) * StreakReply Achievements :=
  match db !! reqUser with
  | Some streak => (db, StreakSent streak)
  | None =>
      let streak :=
        {| currentStreak := 1; longestStreak := 1; lastLoginDate := now;
           totalLogins := 1;
           loginHistory := [{| date := now'; routineCompleted := false |}];
           achievements := noAchievements |} in
      (<[reqUser:=streak]> db, StreakSent streak)
  end.

(** [updateStreak], lines 359-429. *)
Definition updateStreak (reqUser : nat) (now : Z)
    (db : gmap nat (Streak Achievements))
    : gmap nat (Streak Achievements) * StreakReply Achievements :=
  let today := setHoursZero now in
  match db !! reqUser with
  | None =>
      let streak :=
        {| currentStreak := 1; longestStreak := 1; lastLoginDate := today;
           totalLogins := 1;
           loginHistory := [{| date := today; routineCompleted := true |}];
           achievements := noAchievements |} in
      (<[reqUser:=streak]> db, StreakSent streak)
  | Some streak =>
      match List.find (isToday today) (loginHistory streak) with
      | Some _ =>
          let streak :=
            with_history streak (completeFirst (isToday today) (loginHistory streak)) in
          (<[reqUser:=streak]> db, StreakSent streak)
      | None =>
          match checkAchievements (advance today streak) with
          | Ok streak => (<[reqUser:=streak]> db, StreakSent streak)
          | Throw error => (db, StreakNext error)
          end
      end
  end.

End Streaks.

Local Close Scope Z_scope.

(** * The vocabulary of the specification *)

(** ** The matcher, section 4.3 *)

Section Tiers.
Context `{Env}.

(** The three rules of section 4.3, one candidate at a time. *)
Definition tier1 (productName : text) (p : Product) : bool :=
  text_eqb (toLowerCase (p_name p)) (toLowerCase productName).

Definition tier2 (productName : text) (p : Product) : bool :=
  includes (toLowerCase productName) (toLowerCase (p_name p)).

Definition tier3 (productName : text) (p : Product) : bool :=
  includes (toLowerCase (p_name p)) (toLowerCase productName).

(** The matcher as section 4.3 words it: the first candidate of the
    highest rule that has one. *)
Definition matcher_by_tiers (products : list Product) (productName : text)
    : option Product :=
  match List.find (tier1 productName) products with
  | Some p => Some p
  | None =>
      match List.find (tier2 productName) products with
      | Some p => Some p
      | None => List.find (tier3 productName) products
      end
  end.

End Tiers.

(** ** The parser, section 4.2 *)

(** The shape of a text [JSON.parse] accepts is told with these: what is
    left of [s] after a part that ends with [c] was read; the characters a
    value can end with, none of them a space or a backtick; and those it can
    start with. *)
Definition ends_at (s r : text) (c : N) : Prop := ∃ u, s = u ++ c :: r.

Definition closing (c : N) : Prop := is_js_space c = false ∧ c ≠ 96.

(** A character that can open a value is, besides, not the letter j, with
    which the tag of a fence starts. *)
Definition opens (c : N) : Prop := closing c ∧ is_letter 106 74 c = false.

(** A part of a number that may be absent: nothing is consumed, or what is
    consumed ends with a digit. *)
Definition same_or_ends (s r : text) : Prop :=
  r = s ∨ ∃ c, closing c ∧ ends_at s r c.

Definition all_space (s : text) : Prop := Forall (λ c, is_js_space c = true) s.

(** A reply in a code fence: the fence with no tag or with the tag json in
    any case, white space, the JSON text, white space, the closing fence;
    white space may surround the whole. *)
Definition fenceTag (tag : text) : Prop :=
  tag = [] ∨ (length tag = 4%nat ∧ jsonTag tag = true).

Definition fenced (before tag gap json gap' after : text) : text :=
  before ++ fence ++ tag ++ gap ++ json ++ gap' ++ fence ++ after.

(** The filling of section 4.2, one optional field at a time: a value that
    is absent, or present and falsy, gives way to the default. *)
Definition backfill (k : text) (d : JSON) (o : gmap text JSON) : gmap text JSON :=
  if truthy_value (o !! k) then o else <[k:=d]> o.

Definition backfilled (o : gmap text JSON) : gmap text JSON :=
  backfill (str "tips") (JArr [])
    (backfill (str "estimatedDuration") (num 19)
       (backfill (str "compatibilityWarnings") (JArr []) o)).

(** ** The synthesizer, sections 3 and 4.4 *)

(** The active products of a user, as line 10 asks for them. *)
Definition activeProducts (userId : nat) (w : World) : list Product :=
  filter (λ p, p_user p = userId ∧ p_isActive p = true) (products w).

(** The invariant of section 3: the step numbers are 1, 2, ..., N in this
    order. *)
Definition dense (l : list Step) : Prop :=
  stepNumber <$> l = (λ i, Some (num (Z.of_nat i))) <$> seq 1 (length l).

(** The lines written to the console, in order. *)
Definition consoleLines (l : list Event) : list ConsoleLine :=
  omap (λ e, match e with EvConsole line => Some line | _ => None end) l.

(** What one turn of the loop of [autoRegenerateRoutines] computes before
    it writes: the outcome of [getGeminiResponse] for the n-th request, and
    the draft with its steps bound to products. *)

Section Plan.
Context `{Env}.

Definition geminiReply (n : nat) (prompt : Prompt) : result text :=
  match GEMINI_API_KEY with
  | None | Some [] => Throw ApiKeyMissing
  | Some _ =>
      match axios_post n prompt with
      | Rejected status => Throw (relay (AxiosError status))
      | Responded finishReason content =>
          if bool_decide (finishReason = Some (str "MAX_TOKENS"))
          then Throw ResponseTooLong
          else if bool_decide (finishReason = Some (str "SAFETY"))
          then Throw BlockedBySafety
          else match content with
               | Some (c :: s) => Ok (c :: s)
               | _ => Throw UnexpectedFormat
               end
      end
  end.

Definition draftFor (n : nat) (products : list Product) (user : option User)
    (type : RoutineType) : result (JSON * list Step) :=
  u ← match user with
      | Some u => Ok u
      | None => Throw TypeError
      end;
  aiResponse ← geminiReply n (buildPrompt products type (skinType u) (skinConcerns u));
  aiRoutineData ← parseAIResponse aiResponse;
  aiSteps ← stepsOf aiRoutineData;
  steps ← bindSteps products aiSteps;
  Ok (aiRoutineData, steps).

End Plan.

(** The document of lines 71-78. *)
Definition aiRoutine (userId : nat) (type : RoutineType) (aiRoutineData : JSON)
    (steps : list Step) : Routine :=
  {| r_user := userId;
     r_name := routineName type;
     r_type := type;
     steps := steps;
     isAIGenerated := true;
     compatibilityWarnings :=
       match get aiRoutineData (str "compatibilityWarnings") with
       | Ok (Some v) => if truthy v then v else JArr []
       | _ => JArr []
       end |}.

(** The routines an AI routine of a user and type replaces. *)
Definition ai_slot (userId : nat) (type : RoutineType) (r : Routine) : Prop :=
  r_user r = userId ∧ r_type r = type ∧ isAIGenerated r = true.

(** Lines 62-78 on the collection: [deleteMany], then [create]. *)
Definition replaced (userId : nat) (type : RoutineType) (r : Routine)
    (m : gmap nat Routine) : gmap nat Routine :=
  let others := filter (λ kr, ¬ ai_slot userId type kr.2) m in
  <[fresh (dom others):=r]> others.

(** [r] is the one AI-generated routine of this user and type. *)
Definition unique_ai (userId : nat) (type : RoutineType) (m : gmap nat Routine)
    (r : Routine) : Prop :=
  ai_slot userId type r ∧
  ∃ id, m !! id = Some r ∧
        ∀ id' r', m !! id' = Some r' → ai_slot userId type r' → id' = id.

(** An endpoint that answers a prompt the same way every time. *)
Definition deterministic (E : Env) : Prop :=
  ∀ n n' prompt, axios_post n prompt = axios_post n' prompt.

(** Two worlds with the same collections; their logs may differ. *)
Definition same_data (w' w : World) : Prop :=
  products w' = products w ∧ users w' = users w ∧ routines w' = routines w.

(** What the n-th turn of the loop does to the routines, as the draft
    decides it: the routine of this type is replaced when a step was bound,
    and nothing is written otherwise. *)
Definition turn `{Env} (n : nat) (userId : nat) (products : list Product)
    (user : option User) (type : RoutineType) (m : gmap nat Routine)
    : gmap nat Routine :=
  match draftFor n products user type with
  | Ok (aiRoutineData, steps) =>
      if decide (0 < length steps)%nat
      then replaced userId type (aiRoutine userId type aiRoutineData steps) m
      else m
  | Throw _ => m
  end.

Definition turnDone `{Env} (n : nat) (products : list Product)
    (user : option User) (type : RoutineType) : bool :=
  match draftFor n products user type with
  | Ok (_, steps) => bool_decide (0 < length steps)%nat
  | Throw _ => false
  end.

(** ** The reconciler, section 4.5 *)

(** The repair of section 4.5 on one routine: the steps that do not use the
    product are kept; with none left the routine goes, otherwise it stays
    with the kept steps numbered anew. *)
Definition kept (id : nat) (r : Routine) : list Step :=
  filter (λ step, product step ≠ id) (steps r).

Definition repaired (id : nat) (r : Routine) : option Routine :=
  if decide (length (kept id r) = 0)%nat then None
  else Some (with_steps r (renumber (kept id r))).

Definition applyRepair (id : nat) (m : gmap nat Routine) (kr : nat * Routine)
    : gmap nat Routine :=
  match repaired id kr.2 with
  | None => delete kr.1 m
  | Some r => <[kr.1:=r]> m
  end.

Definition repairEvent (id : nat) (kr : nat * Routine) : Event :=
  if decide (length (kept id kr.2) = 0)%nat
  then EvRoutineDelete kr.1 else EvRoutineSave kr.1.

Definition is_routine_write (e : Event) : Prop :=
  match e with
  | EvRoutineDelete _ | EvRoutineSave _ => True
  | _ => False
  end.

(** What of a step the renumbering leaves alone. *)
Definition content (s : Step) : nat * JSValue * JSON :=
  (product s, instruction s, waitTime s).

(** * The vocabulary of the further properties *)

(** ** The reply and the request *)

(** A text without the code unit [c]. *)
Definition lacks (c : N) (s : text) : Prop := Forall (λ d, d ≠ c) s.

(** Whether a key is configured: [!apiKey] of line 12 fails. *)
Definition keyConfigured `{Env} : bool :=
  match GEMINI_API_KEY with
  | Some (_ :: _) => true
  | _ => false
  end.

(** The warning of line 68, for a finish reason that is a text, not empty
    and not 'STOP'. *)
Definition finishWarning (finishReason : option text) : list ConsoleLine :=
  match finishReason with
  | Some (c :: r) =>
      if bool_decide (c :: r = str "STOP") then []
      else [UnexpectedFinishReason (c :: r)]
  | _ => []
  end.

(** The errors [getGeminiResponse] can end with. *)
Definition endpointError (e : Exn) : Prop :=
  match e with
  | ApiKeyMissing | ResponseTooLong | BlockedBySafety | UnexpectedFormat
  | RateLimit | InvalidApiKey | Forbidden => True
  | AxiosError status =>
      status ≠ Some 429 ∧ status ≠ Some 401 ∧ status ≠ Some 403
  | _ => False
  end.

(** The errors the parser wraps. *)
Definition parseError (e : Exn) : Prop :=
  e = SyntaxError ∨ e = TypeError ∨ e = InvalidStructure.

(** ** Binding and regeneration *)

(** A draft step whose [productName] is a string. *)
Definition hasName (aiStep : JSON) : bool :=
  match get aiStep (str "productName") with
  | Ok (Some (JStr _)) => true
  | _ => false
  end.

(** The number a draft step carries, as a bound step stores it. *)
Definition draftNumber (aiStep : JSON) : JSValue :=
  match get aiStep (str "stepNumber") with
  | Ok number => number
  | Throw _ => None
  end.

(** The routines created, as the log tells. *)
Definition is_create (e : Event) : bool :=
  match e with
  | EvRoutineCreate _ => true
  | _ => false
  end.

Definition creates (l : list Event) : nat :=
  length (filter (λ e, is_create e = true) l).

(** A step that uses an active product of the user. *)
Definition usesActiveProduct (userId : nat) (w : World) (step : Step) : Prop :=
  ∃ p, p ∈ products w ∧ p_user p = userId ∧ p_isActive p = true ∧
       product step = p_id p.

(** ** Invariants of the collections *)

(** No two AI-generated routines of one user have the same type. *)
Definition aiUnique (m : gmap nat Routine) : Prop :=
  ∀ id id' r r',
    m !! id = Some r → m !! id' = Some r' →
    isAIGenerated r = true → isAIGenerated r' = true →
    r_user r = r_user r' → r_type r = r_type r' → id = id'.

(** Every step of the routine uses a product of the routine's owner. *)
Definition ownsSteps (w : World) (r : Routine) : Prop :=
  Forall (λ step, ∃ p, p ∈ products w ∧ p_id p = product step ∧
                       p_user p = r_user r) (steps r).

(** Referential integrity: products have distinct ids, and routines use
    products their owners have. *)
Definition integrity (w : World) : Prop :=
  NoDup (p_id <$> products w) ∧
  ∀ rid r, routines w !! rid = Some r → ownsSteps w r.

(** * Inputs to run the code on *)

(** [toLowerCase] on the code units below U+0100, where it moves A-Z and the
    accented capitals (all of U+00C0-U+00DE but the multiplication sign) 32
    places up. *)
Definition lowerUnit (c : N) : N :=
  if ((65 <=? c) && (c <=? 90)) || ((192 <=? c) && (c <=? 222) && negb (c =? 215))
  then c + 32 else c.

(** An endpoint that answers the n-th request with the n-th entry of a
    script, and one that always gives the same answer. *)
Definition scripted (replies : list AxiosOutcome) : Env :=
  {| toLowerCase := map lowerUnit;
     GEMINI_API_KEY := Some (str "key");
     axios_post := λ n _, default (Rejected None) (replies !! n) |}.

Definition answering (reply : AxiosOutcome) : Env :=
  {| toLowerCase := map lowerUnit;
     GEMINI_API_KEY := Some (str "key");
     axios_post := λ _ _, reply |}.

(** A text of the source written with ' where it has the double quote, so
    that JSON can be read in a literal. *)
Definition js (s : string) : text :=
  (λ c, if c =? 39 then 34 else c) <$> str s.

Definition says (reply : string) : AxiosOutcome :=
  Responded (Some (str "STOP")) (Some (js reply)).

(** A user with three active products, and catalogs to go with it. *)
Definition sampleProduct (id user : nat) (name type : string) : Product :=
  {| p_id := id; p_user := user; p_name := str name; p_brand := str "Brand";
     p_type := str type; p_keyIngredients := None; p_usage := str "daily";
     p_isActive := true |}.

Definition sampleUser : User :=
  {| skinType := Some (str "oily"); skinConcerns := Some [str "acne"] |}.

Definition sampleCatalog : list Product :=
  [ sampleProduct 1 7 "CeraVe Foaming Cleanser" "cleanser";
    sampleProduct 2 7 "The Ordinary Niacinamide" "serum";
    sampleProduct 3 7 "Neutrogena Hydro Boost" "moisturizer" ].

Definition sampleWorld : World :=
  {| products := sampleCatalog; users := {[ 7%nat := sampleUser ]};
     routines := ∅; log := [] |}.

Definition tierCatalog : list Product :=
  [ sampleProduct 1 7 "CeraVe Foaming Cleanser" "cleanser";
    sampleProduct 2 7 "Foaming Cleanser" "cleanser" ].

(** A catalog with two active products and a retired one. *)
Definition retired (p : Product) : Product :=
  {| p_id := p_id p; p_user := p_user p; p_name := p_name p;
     p_brand := p_brand p; p_type := p_type p;
     p_keyIngredients := p_keyIngredients p; p_usage := p_usage p;
     p_isActive := false |}.

Definition smallWorld : World :=
  {| products :=
       [ sampleProduct 1 7 "CeraVe Foaming Cleanser" "cleanser";
         sampleProduct 2 7 "The Ordinary Niacinamide" "serum";
         retired (sampleProduct 3 7 "Neutrogena Hydro Boost" "moisturizer") ];
     users := {[ 7%nat := sampleUser ]};
     routines := ∅; log := [] |}.

(** A morning routine of user 7 over the given products, one step each. *)
Definition stepOn (n : Z) (id : nat) : Step :=
  {| stepNumber := Some (num n); product := id;
     instruction := Some (JStr (str "Apply")); waitTime := num 0 |}.

Definition routineOn (ids : list nat) : Routine :=
  {| r_user := 7; r_name := str "My routine"; r_type := morning;
     steps := imap (λ i id, stepOn (Z.of_nat i + 1) id) ids;
     isAIGenerated := false; compatibilityWarnings := JArr [] |}.

Definition routineWorld : World :=
  {| products := sampleCatalog; users := {[ 7%nat := sampleUser ]};
     routines := {[ 10%nat := routineOn [2%nat];
                    11%nat := routineOn [1%nat; 2%nat; 3%nat] ]};
     log := [] |}.



Definition stepsOnly : text :=
  js "{'steps': [{'stepNumber': 1, 'productName': 'Cleanser', 'instruction': 'Wash'}]}".

(** A draft that names the three products of [sampleCatalog], and one whose
    second step names a product the catalog does not have. *)
Definition fullDraft : string :=
  "{'steps': [{'stepNumber': 1, 'productName': 'CeraVe Foaming Cleanser', 'instruction': 'Wash', 'waitTime': 0}, {'stepNumber': 2, 'productName': 'The Ordinary Niacinamide', 'instruction': 'Apply', 'waitTime': 1}, {'stepNumber': 3, 'productName': 'Neutrogena Hydro Boost', 'instruction': 'Moisturize', 'waitTime': 0}], 'compatibilityWarnings': [], 'estimatedDuration': 10, 'tips': []}".

Definition gappyDraft : string :=
  "{'steps': [{'stepNumber': 1, 'productName': 'CeraVe Foaming Cleanser', 'instruction': 'Wash', 'waitTime': 0}, {'stepNumber': 2, 'productName': 'Vitamin C Serum', 'instruction': 'Apply', 'waitTime': 1}, {'stepNumber': 3, 'productName': 'Neutrogena Hydro Boost', 'instruction': 'Moisturize', 'waitTime': 0}]}".

Definition zeroDuration : gmap text JSON :=
  {[ str "steps" := JArr []; str "estimatedDuration" := num 0 ]}.

Definition stepWithoutWait : JSON :=
  JObj {[ str "productName" := JStr (str "CeraVe Foaming Cleanser");
          str "waitTime" := JNull ]}.

(** Request bodies: one with a name only, one with the active flag only. *)
Definition nameOnly (name : text) : ProductBody :=
  {| b_user := None; b_name := Some name; b_brand := None; b_type := None;
     b_keyIngredients := None; b_usage := None; b_isActive := None |}.

Definition activeOnly (active : bool) : ProductBody :=
  {| b_user := None; b_name := None; b_brand := None; b_type := None;
     b_keyIngredients := None; b_usage := None; b_isActive := Some active |}.

(** A body that only names another owner. *)
Definition handOver (user : nat) : ProductBody :=
  {| b_user := Some user; b_name := None; b_brand := None; b_type := None;
     b_keyIngredients := None; b_usage := None; b_isActive := None |}.

(** A draft step without [productName]. *)
Definition unnamedStep : JSON :=
  JObj {[ str "stepNumber" := num 2; str "instruction" := JStr (str "Apply") ]}.

(** An AI routine of user 7 over the given products, and the world of
    [sampleWorld] with a routine the user made and the AI routine of an
    earlier run. *)
Definition aiRoutineOn (type : RoutineType) (ids : list nat) : Routine :=
  {| r_user := 7; r_name := routineName type; r_type := type;
     steps := imap (λ i id, stepOn (Z.of_nat i + 1) id) ids;
     isAIGenerated := true; compatibilityWarnings := JArr [] |}.

Definition usedWorld : World :=
  {| products := sampleCatalog; users := {[ 7%nat := sampleUser ]};
     routines := {[ 10%nat := routineOn [1%nat; 2%nat];
                    11%nat := aiRoutineOn morning [3%nat] ]};
     log := [] |}.

(** What stands between the braces of a draft with one step. *)
Definition draftObject : text :=
  js "'steps': [{'stepNumber': 1, 'productName': 'Cleanser', 'instruction': 'Wash'}]".

(** An endpoint without a key. *)
Definition keyless : Env :=
  {| toLowerCase := map lowerUnit;
     GEMINI_API_KEY := None;
     axios_post := λ _ _, Rejected None |}.

(** Three active products of a user without a profile. *)
Definition orphanWorld : World :=
  {| products := sampleCatalog; users := ∅; routines := ∅; log := [] |}.

Local Open Scope Z_scope.

(** A server whose time zone has a fixed offset from UTC, in milliseconds,
    and the number of the local day a time falls on. *)
Definition fixedOffset (offset : Z) : Clock :=
  {| setHoursZero := λ t, t - (t + offset) `mod` msPerDay |}.

Definition localDay (offset t : Z) : Z := (t + offset) `div` msPerDay.

(** A model without achievements. *)
Definition plainModel : StreakModel :=
  {| Achievements := unit; noAchievements := tt; checkAchievements := Ok |}.

(** A streak with an entry for 1 January 2024, which starts at
    1704067200000 in UTC, and one for the day after, not yet completed. *)
Definition sampleStreak : Streak unit :=
  {| currentStreak := 3; longestStreak := 5; lastLoginDate := 1704153600000;
     totalLogins := 9;
     loginHistory := [{| date := 1704067200000; routineCompleted := true |};
                      {| date := 1704153600000; routineCompleted := false |}];
     achievements := tt |}.

Local Close Scope Z_scope.

(** * Properties *)

(** ** The matcher *)

Section Matcher.
Context `{Env}.

Lemma matches_tiers productName p :
  matches productName p
  = tier1 productName p || tier2 productName p || tier3 productName p.
Proof. reflexivity. Qed.

Lemma find_first {A} (f : A → bool) (l : list A) (x : A) :
  List.find f l = Some x ↔
  ∃ before after, l = before ++ x :: after ∧ f x = true ∧
                  Forall (λ y, f y = false) before.
Proof.
  induction l as [|y l IH]; simpl.
  - split; [done|]. intros ([|??] & ? & ? & _); done.
  - destruct (f y) eqn:Hy.
    + split.
      * intros [= ->]. exists [], l. by repeat split.
      * intros ([|z before] & after & Heq & Hx & Hall); simplify_eq/=; [done|].
        inversion Hall; congruence.
    + rewrite IH. split.
      * intros (before & after & -> & Hx & Hall).
        exists (y :: before), after. repeat split; [done|]. by constructor.
      * intros ([|z before] & after & Heq & Hx & Hall); simplify_eq/=.
        -- congruence.
        -- inversion Hall; subst. by exists before, after.
Qed.

Lemma find_none {A} (f : A → bool) (l : list A) :
  List.find f l = None ↔ Forall (λ y, f y = false) l.
Proof.
  induction l as [|y l IH]; simpl; [by split|].
  destruct (f y) eqn:Hy.
  - split; [done|]. inversion 1; congruence.
  - rewrite IH. split; [by constructor|]. by inversion 1.
Qed.

End Matcher.

(** C2, as amended. The matcher resolves a suggested name to at most one
    product: the first candidate, in the order of the catalog, that satisfies
    any of the three rules (equal names, candidate name inside the suggested
    name, suggested name inside the candidate name, all without regard to
    case), and to none exactly when no candidate satisfies any of them. The
    rules are not ranked across candidates. *)
Theorem matcher_first_of_any_tier `{Env} (products : list Product) (productName : text) :
  (∀ p, findMatch products productName = Some p ↔
        ∃ before after,
          products = before ++ p :: after ∧
          (tier1 productName p || tier2 productName p || tier3 productName p) = true ∧
          Forall (λ q, tier1 productName q = false ∧ tier2 productName q = false ∧
                       tier3 productName q = false) before) ∧
  (findMatch products productName = None ↔
     Forall (λ q, tier1 productName q = false ∧ tier2 productName q = false ∧
                  tier3 productName q = false) products).
Proof.
  assert (Hno : ∀ l, Forall (λ q, matches productName q = false) l ↔
    Forall (λ q, tier1 productName q = false ∧ tier2 productName q = false ∧
                 tier3 productName q = false) l).
  { intros l. apply Forall_proper; [|done]. intros q.
    rewrite matches_tiers, !orb_false_iff. tauto. }
  split.
  - intros p. unfold findMatch. rewrite find_first.
    setoid_rewrite Hno. by setoid_rewrite matches_tiers.
  - unfold findMatch. by rewrite find_none, Hno.
Qed.

(** C2, as stated, fails. With the catalog "CeraVe Foaming Cleanser",
    "Foaming Cleanser" and the suggested name "Foaming Cleanser", the second
    candidate is an exact match, the first one only contains the suggested
    name, and the code still selects the first one. *)
Lemma matcher_ignores_tier_priority :
  let E := scripted [] in
  let first := sampleProduct 1 7 "CeraVe Foaming Cleanser" "cleanser" in
  let second := sampleProduct 2 7 "Foaming Cleanser" "cleanser" in
  let productName := str "Foaming Cleanser" in
  tier1 productName second = true ∧
  tier1 productName first = false ∧
  tier2 productName first = false ∧
  tier3 productName first = true ∧
  matcher_by_tiers tierCatalog productName = Some second ∧
  findMatch tierCatalog productName = Some first ∧
  findMatch tierCatalog productName ≠ matcher_by_tiers tierCatalog productName.
Proof. vm_compute. repeat split; congruence. Qed.

(** The examples of section 8: a suggested name inside a candidate name, an
    exact match, and a name that matches nothing. *)
Example matcher_examples :
  let E := scripted [] in
  findMatch sampleCatalog (str "foaming cleanser")
    = Some (sampleProduct 1 7 "CeraVe Foaming Cleanser" "cleanser") ∧
  findMatch sampleCatalog (str "The Ordinary Niacinamide")
    = Some (sampleProduct 2 7 "The Ordinary Niacinamide" "serum") ∧
  tier1 (str "The Ordinary Niacinamide")
    (sampleProduct 2 7 "The Ordinary Niacinamide" "serum") = true ∧
  findMatch sampleCatalog (str "Retinol Night Cream") = None.
Proof. by vm_compute. Qed.

(** ** The parser of the reply *)

Lemma dropUntil_head c s d r : dropUntil c s = d :: r → d = c.
Proof.
  induction s as [|e s IH]; simpl; [done|].
  case_decide; [by intros [= -> _]|done].
Qed.

Lemma trimStart_nonspace c s : is_js_space c = false → trimStart (c :: s) = c :: s.
Proof. intros Hc. simpl. by rewrite Hc. Qed.

Lemma trimEnd_nonspace s c : is_js_space c = false → trimEnd (s ++ [c]) = s ++ [c].
Proof.
  intros Hc. unfold trimEnd. rewrite reverse_snoc, trimStart_nonspace by done.
  by rewrite reverse_cons, reverse_involutive.
Qed.

(** What [/\{[\s\S]*\}/] matches starts with an opening brace and ends with
    a closing one. *)
Lemma matchBraces_shape s span :
  matchBraces s = Some span → ∃ middle, span = 123 :: middle ++ [125].
Proof.
  unfold matchBraces.
  destruct (dropUntil 123 s) as [|open rest] eqn:Hopen; [done|].
  apply dropUntil_head in Hopen as ->.
  destruct (dropUntil 125 (reverse rest)) as [|close back] eqn:Hclose; [done|].
  apply dropUntil_head in Hclose as ->.
  intros [= <-]. exists (reverse back). by rewrite reverse_cons.
Qed.

Lemma matchBraces_ends_with_brace s span :
  matchBraces s = Some span → endsWith (trim span) (str "}") = true.
Proof.
  intros (middle & ->)%matchBraces_shape.
  unfold trim. rewrite trimStart_nonspace by done.
  rewrite (app_comm_cons middle [125] 123).
  rewrite trimEnd_nonspace; [|done].
  unfold endsWith. by rewrite reverse_snoc.
Qed.

Lemma JSON_parse_throws s e : JSON_parse s = Throw e → e = SyntaxError.
Proof. unfold JSON_parse. destruct (Json.parse s); congruence. Qed.

Lemma decode_throws aiResponse e : decode aiResponse = Throw e → e = SyntaxError.
Proof.
  unfold decode.
  destruct (matchBraces (cleanResponse aiResponse)) as [span|] eqn:Hspan.
  - rewrite (matchBraces_ends_with_brace _ _ Hspan). simpl. apply JSON_parse_throws.
  - apply JSON_parse_throws.
Qed.

Lemma get_throws v k e : get v k = Throw e → e = TypeError.
Proof. destruct v; simpl; congruence. Qed.

Lemma validateAndFill_throws v e :
  validateAndFill v = Throw e → e = TypeError ∨ e = InvalidStructure.
Proof.
  unfold validateAndFill.
  destruct v as [| | | | |o]; simpl; try (intros [= <-]; auto; fail).
  destruct (negb (truthy_value (o !! str "steps")) || negb (isArray (o !! str "steps")));
    simpl; [intros [= <-]; auto|].
  repeat (match goal with
          | |- context [if ?b then _ else _] => destruct b
          end; simpl); done.
Qed.


(** *** What [JSON.parse] accepts

    A text that parses starts, after white space, with a character that can
    open a value, and the last character of the value is a closing brace or
    bracket, a quote, a digit or a letter: never a backtick or a space. *)

Lemma ends_at_here c r : ends_at (c :: r) r c.
Proof. by exists []. Qed.

Lemma ends_at_cons d s r c : ends_at s r c → ends_at (d :: s) r c.
Proof. intros [u ->]. by exists (d :: u). Qed.

Lemma ends_at_app w s r c : ends_at s r c → ends_at (w ++ s) r c.
Proof. intros [u ->]. exists (w ++ u). by rewrite <-(assoc (++)). Qed.

Lemma ends_at_trans s m r c d : ends_at s m d → ends_at m r c → ends_at s r c.
Proof. intros [u ->] Hm. apply ends_at_app, ends_at_cons, Hm. Qed.

Lemma skip_ws_split s :
  ∃ w, s = w ++ Json.skip_ws s ∧ Forall (λ c, Json.is_ws c = true) w.
Proof.
  induction s as [|c s (w & Hs & Hw)]; simpl; [by exists []|].
  destruct (Json.is_ws c) eqn:Hc.
  - exists (c :: w). split; [by rewrite Hs at 1|by constructor].
  - by exists [].
Qed.

Lemma ends_at_skip_ws s r c : ends_at (Json.skip_ws s) r c → ends_at s r c.
Proof.
  destruct (skip_ws_split s) as (w & Hs & _). intros Hr.
  rewrite Hs. by apply ends_at_app.
Qed.

Lemma next_is_ends c s r : Json.next_is c s = Some r → ends_at s r c.
Proof.
  unfold Json.next_is. intros Hnext. apply ends_at_skip_ws.
  destruct (Json.skip_ws s) as [|d t]; [done|].
  destruct (N.eqb_spec d c) as [->|]; [|done].
  injection Hnext as ->. apply ends_at_here.
Qed.

Lemma digit_opens c d : Json.digit c = Some d → opens c.
Proof.
  unfold Json.digit.
  destruct (N.leb_spec 48 c), (N.leb_spec c 57); simpl; try done. intros _.
  assert (c = 48 ∨ c = 49 ∨ c = 50 ∨ c = 51 ∨ c = 52 ∨ c = 53 ∨ c = 54 ∨
          c = 55 ∨ c = 56 ∨ c = 57) as Hc by lia.
  repeat (destruct Hc as [->|Hc]; [done|]). by subst.
Qed.

Lemma digit_closing c d : Json.digit c = Some d → closing c.
Proof. intros Hc. by destruct (digit_opens c d Hc). Qed.

Lemma span_digits_nil s r : Json.span_digits s = ([], r) → r = s.
Proof.
  destruct s as [|c s]; simpl; [congruence|].
  destruct (Json.digit c); [|congruence].
  destruct (Json.span_digits s); congruence.
Qed.

Lemma span_digits_ends s d ds r :
  Json.span_digits s = (d :: ds, r) → ∃ c, closing c ∧ ends_at s r c.
Proof.
  revert d ds. induction s as [|c s IH]; intros d ds; simpl; [done|].
  destruct (Json.digit c) as [x|] eqn:Hc; [|done].
  destruct (Json.span_digits s) as [[|e es] t] eqn:Hspan; intros [= <- <- <-].
  - apply span_digits_nil in Hspan as ->.
    exists c. split; [by eapply digit_closing|apply ends_at_here].
  - destruct (IH e es eq_refl) as (z & Hz & Hend).
    exists z. split; [done|by apply ends_at_cons].
Qed.

Lemma ends_then_same_or_ends s m r c :
  closing c → ends_at s m c → same_or_ends m r →
  ∃ z, closing z ∧ ends_at s r z.
Proof.
  intros Hc Hs [->|(z & Hz & Hm)]; [by exists c|].
  exists z. split; [done|by eapply ends_at_trans].
Qed.

Lemma parse_int_ends s ip r :
  Json.parse_int s = Some (ip, r) → ∃ c, closing c ∧ ends_at s r c.
Proof.
  destruct s as [|c s]; [done|]. unfold Json.parse_int.
  destruct (N.eqb_spec c 48) as [->|_].
  - intros [= _ <-]. exists 48. split; [done|apply ends_at_here].
  - destruct (Json.span_digits (c :: s)) as [[|d ds] t] eqn:Hspan; [done|].
    intros [= _ <-]. by eapply span_digits_ends.
Qed.

Lemma parse_frac_ends s fp r :
  Json.parse_frac s = Some (fp, r) → same_or_ends s r.
Proof.
  destruct s as [|c s]; simpl; [intros [= _ <-]; by left|].
  destruct (c =? 46); [|intros [= _ <-]; by left].
  destruct (Json.span_digits s) as [[|d ds] t] eqn:Hspan; [done|].
  intros [= _ <-]. right.
  destruct (span_digits_ends _ _ _ _ Hspan) as (z & Hz & Hend).
  exists z. split; [done|by apply ends_at_cons].
Qed.

Lemma parse_exp_ends s eneg ed r :
  Json.parse_exp s = Some (eneg, ed, r) → same_or_ends s r.
Proof.
  destruct s as [|c s]; simpl; [intros [= _ _ <-]; by left|].
  destruct ((c =? 101) || (c =? 69)); [|intros [= _ _ <-]; by left].
  destruct (Json.parse_exp_sign s) as [sign s1] eqn:Hsign.
  destruct (Json.span_digits s1) as [[|d ds] t] eqn:Hspan; [done|].
  intros [= _ _ <-]. right.
  destruct (span_digits_ends _ _ _ _ Hspan) as (z & Hz & Hend).
  exists z. split; [done|]. apply ends_at_cons.
  destruct s as [|e s]; simpl in Hsign; [by injection Hsign as _ <-|].
  destruct (e =? 43); [injection Hsign as _ <-; by apply ends_at_cons|].
  destruct (e =? 45); injection Hsign as _ <-; [by apply ends_at_cons|done].
Qed.

Lemma parse_number_ends s q r :
  Json.parse_number s = Some (q, r) → ∃ c, closing c ∧ ends_at s r c.
Proof.
  unfold Json.parse_number.
  destruct (Json.parse_sign s) as [neg s1] eqn:Hsign.
  destruct (Json.parse_int s1) as [[ip s2]|] eqn:Hint; simpl; [|done].
  destruct (Json.parse_frac s2) as [[fp s3]|] eqn:Hfrac; simpl; [|done].
  destruct (Json.parse_exp s3) as [[[eneg ed] s4]|] eqn:Hexp; simpl; [|done].
  intros [= _ <-].
  apply parse_int_ends in Hint as (c & Hc & Hint).
  apply parse_frac_ends in Hfrac. apply parse_exp_ends in Hexp.
  destruct (ends_then_same_or_ends _ _ _ _ Hc Hint Hfrac) as (c3 & Hc3 & H3).
  destruct (ends_then_same_or_ends _ _ _ _ Hc3 H3 Hexp) as (c4 & Hc4 & H4).
  exists c4. split; [done|].
  destruct s as [|e s]; simpl in Hsign; [by injection Hsign as _ <-|].
  destruct (e =? 45); injection Hsign as _ <-; [by apply ends_at_cons|done].
Qed.

Lemma parse_chars_ends_within n s acc k r :
  (length s ≤ n)%nat → Json.parse_chars s acc = Some (k, r) → ends_at s r 34.
Proof.
  revert s acc. induction n as [|n IH]; intros [|c s] acc Hn; simpl in *;
    try done; try lia.
  destruct (N.eqb_spec c 34) as [->|_]; [intros [= _ <-]; apply ends_at_here|].
  destruct (c =? 92).
  - destruct s as [|e r1]; [done|].
    destruct (Json.escape e) as [x|].
    { intros Hrest. do 2 apply ends_at_cons.
      apply (IH r1 (x :: acc)); [simpl in Hn; lia|done]. }
    destruct (e =? 117); [|done].
    destruct r1 as [|a [|b [|c' [|d r2]]]]; try done.
    destruct (Json.hex4 a b c' d) as [x|]; [|done].
    intros Hrest. do 6 apply ends_at_cons.
    apply (IH r2 (x :: acc)); [simpl in Hn; lia|done].
  - destruct (c <? 32); [done|].
    intros Hrest. apply ends_at_cons. apply (IH s (c :: acc)); [lia|done].
Qed.

Lemma parse_chars_ends s acc k r :
  Json.parse_chars s acc = Some (k, r) → ends_at s r 34.
Proof. by apply (parse_chars_ends_within (length s)). Qed.

Lemma startsWith_split s p : startsWith s p = true → s = p ++ drop (length p) s.
Proof.
  revert s. induction p as [|c p IH]; intros s; simpl; [done|].
  destruct s as [|d s]; [done|].
  case_decide as Hcd; [|done]. subst d. intros Hp. f_equal. by apply IH.
Qed.

Lemma literal_ends word c v s x r :
  Json.literal (word ++ [c]) v s = Some (x, r) → ends_at s r c.
Proof.
  unfold Json.literal.
  destruct (startsWith s (word ++ [c])) eqn:Hstart; [|done].
  intros [= _ <-]. apply startsWith_split in Hstart.
  exists word. by rewrite <-(assoc (++)) in Hstart.
Qed.

Lemma parse_value_ends fuel :
  (∀ s v r, Json.parse_value fuel s = Some (v, r) →
            ∃ c, closing c ∧ ends_at s r c) ∧
  (∀ s acc v r, Json.parse_members fuel s acc = Some (v, r) → ends_at s r 125) ∧
  (∀ s acc v r, Json.parse_elements fuel s acc = Some (v, r) → ends_at s r 93).
Proof.
  induction fuel as [|fuel (IHv & IHm & IHe)]; [by repeat split|].
  split; [|split].
  - intros s v r. simpl.
    destruct (Json.skip_ws s) as [|c t] eqn:Hskip; [done|].
    intros Hparse.
    cut (∃ z, closing z ∧ ends_at (c :: t) r z).
    { intros (z & Hz & Hend). exists z. split; [done|].
      apply ends_at_skip_ws. by rewrite Hskip. }
    destruct (c =? 123).
    { exists 125. split; [done|]. apply ends_at_cons.
      destruct (Json.next_is 125 t) as [r'|] eqn:Hnext.
      - injection Hparse as _ <-. by apply next_is_ends.
      - by eapply IHm. }
    destruct (c =? 91).
    { exists 93. split; [done|]. apply ends_at_cons.
      destruct (Json.next_is 93 t) as [r'|] eqn:Hnext.
      - injection Hparse as _ <-. by apply next_is_ends.
      - by eapply IHe. }
    destruct (c =? 34).
    { destruct (Json.parse_chars t []) as [[k r']|] eqn:Hchars; [|done].
      injection Hparse as _ <-. exists 34. split; [done|].
      by eapply ends_at_cons, parse_chars_ends. }
    destruct (c =? 116).
    { exists 101. split; [done|].
      exact (literal_ends [116; 114; 117] 101 _ _ _ _ Hparse). }
    destruct (c =? 102).
    { exists 101. split; [done|].
      exact (literal_ends [102; 97; 108; 115] 101 _ _ _ _ Hparse). }
    destruct (c =? 110).
    { exists 108. split; [done|].
      exact (literal_ends [110; 117; 108] 108 _ _ _ _ Hparse). }
    destruct (Json.parse_number (c :: t)) as [[q r']|] eqn:Hnum; [|done].
    injection Hparse as _ <-. by eapply parse_number_ends.
  - intros s acc v r. simpl.
    destruct (Json.next_is 34 s) as [r0|] eqn:H0; simpl; [|done].
    destruct (Json.parse_chars r0 []) as [[k r1]|] eqn:H1; simpl; [|done].
    destruct (Json.next_is 58 r1) as [r2|] eqn:H2; simpl; [|done].
    destruct (Json.parse_value fuel r2) as [[x r3]|] eqn:H3; simpl; [|done].
    intros Hrest.
    apply next_is_ends in H0, H2. apply parse_chars_ends in H1.
    apply IHv in H3 as (z & _ & H3).
    eapply ends_at_trans; [exact H0|]. eapply ends_at_trans; [exact H1|].
    eapply ends_at_trans; [exact H2|]. eapply ends_at_trans; [exact H3|].
    destruct (Json.next_is 44 r3) as [r4|] eqn:H4.
    + apply next_is_ends in H4. apply IHm in Hrest.
      destruct H4 as [u ->]. destruct Hrest as [u' ->].
      exists (u ++ 44 :: u'). by rewrite <-(assoc (++)).
    + destruct (Json.next_is 125 r3) as [r4|] eqn:H5; simpl in Hrest; [|done].
      injection Hrest as _ <-. by apply next_is_ends.
  - intros s acc v r. simpl.
    destruct (Json.parse_value fuel s) as [[x r1]|] eqn:H1; simpl; [|done].
    intros Hrest. apply IHv in H1 as (z & _ & H1).
    eapply ends_at_trans; [exact H1|].
    destruct (Json.next_is 44 r1) as [r2|] eqn:H2.
    + apply next_is_ends in H2. apply IHe in Hrest.
      destruct H2 as [u ->]. destruct Hrest as [u' ->].
      exists (u ++ 44 :: u'). by rewrite <-(assoc (++)).
    + destruct (Json.next_is 93 r1) as [r2|] eqn:H3; simpl in Hrest; [|done].
      injection Hrest as _ <-. by apply next_is_ends.
Qed.

Lemma span_digits_head c s d ds r :
  Json.span_digits (c :: s) = (d :: ds, r) → opens c.
Proof.
  simpl. destruct (Json.digit c) as [x|] eqn:Hc; [|done].
  intros _. by eapply digit_opens.
Qed.

Lemma parse_number_opens c s q r :
  Json.parse_number (c :: s) = Some (q, r) → opens c.
Proof.
  unfold Json.parse_number, Json.parse_sign.
  destruct (N.eqb_spec c 45) as [->|_]; [done|].
  unfold Json.parse_int.
  destruct (N.eqb_spec c 48) as [->|_]; [done|].
  destruct (Json.span_digits (c :: s)) as [[|d ds] t] eqn:Hspan; [done|].
  intros _. by eapply span_digits_head.
Qed.

Lemma parse_value_opens fuel s v r :
  Json.parse_value fuel s = Some (v, r) →
  ∃ c t, Json.skip_ws s = c :: t ∧ opens c.
Proof.
  destruct fuel as [|fuel]; simpl; [done|].
  destruct (Json.skip_ws s) as [|c t]; [done|].
  intros Hparse. exists c, t. split; [done|].
  destruct (N.eqb_spec c 123) as [->|_]; [done|].
  destruct (N.eqb_spec c 91) as [->|_]; [done|].
  destruct (N.eqb_spec c 34) as [->|_]; [done|].
  destruct (N.eqb_spec c 116) as [->|_]; [done|].
  destruct (N.eqb_spec c 102) as [->|_]; [done|].
  destruct (N.eqb_spec c 110) as [->|_]; [done|].
  destruct (Json.parse_number (c :: t)) as [[q r']|] eqn:Hnum; [|done].
  by eapply parse_number_opens.
Qed.

(** *** The fuel of the parser

    A run of the parser that succeeds with some fuel succeeds, with the same
    result, with any fuel above the number of characters it reads; so the
    fuel [parse] gives, one more than the length of the text, never makes it
    reject a text. *)

Lemma ends_at_length s r c : ends_at s r c → (length r < length s)%nat.
Proof. intros [u ->]. rewrite length_app. simpl. lia. Qed.

Lemma skip_ws_length s : (length (Json.skip_ws s) ≤ length s)%nat.
Proof.
  destruct (skip_ws_split s) as (w & Hs & _). rewrite Hs at 2.
  rewrite length_app. lia.
Qed.

Lemma next_is_length c s r : Json.next_is c s = Some r → (length r < length s)%nat.
Proof. intros Hnext. eapply ends_at_length, next_is_ends, Hnext. Qed.

Lemma parse_chars_length s acc k r :
  Json.parse_chars s acc = Some (k, r) → (length r < length s)%nat.
Proof. intros Hchars. eapply ends_at_length, parse_chars_ends, Hchars. Qed.

Lemma parse_value_length fuel s v r :
  Json.parse_value fuel s = Some (v, r) → (length r < length s)%nat.
Proof.
  intros Hparse.
  destruct (proj1 (parse_value_ends fuel) s v r Hparse) as (c & _ & Hend).
  by eapply ends_at_length.
Qed.

Lemma parse_members_length fuel s acc v r :
  Json.parse_members fuel s acc = Some (v, r) → (length r < length s)%nat.
Proof.
  intros Hparse. eapply ends_at_length.
  exact (proj1 (proj2 (parse_value_ends fuel)) s acc v r Hparse).
Qed.

Lemma parse_elements_length fuel s acc v r :
  Json.parse_elements fuel s acc = Some (v, r) → (length r < length s)%nat.
Proof.
  intros Hparse. eapply ends_at_length.
  exact (proj2 (proj2 (parse_value_ends fuel)) s acc v r Hparse).
Qed.

Lemma parse_value_fuel n :
  (∀ s v r m, Json.parse_value n s = Some (v, r) →
              (length s - length r < m)%nat →
              Json.parse_value m s = Some (v, r)) ∧
  (∀ s acc v r m, Json.parse_members n s acc = Some (v, r) →
                  (length s - length r < m)%nat →
                  Json.parse_members m s acc = Some (v, r)) ∧
  (∀ s acc v r m, Json.parse_elements n s acc = Some (v, r) →
                  (length s - length r < m)%nat →
                  Json.parse_elements m s acc = Some (v, r)).
Proof.
  induction n as [|n (IHv & IHm & IHe)]; [by repeat split|].
  split; [|split].
  - intros s v r [|m] Hparse Hm; [lia|].
    pose proof (parse_value_length _ _ _ _ Hparse) as Hlen.
    pose proof (skip_ws_length s) as Hskip.
    simpl in Hparse |- *.
    destruct (Json.skip_ws s) as [|c t]; [done|]. simpl in Hskip.
    destruct (c =? 123).
    { destruct (Json.next_is 125 t) as [r'|]; [done|].
      pose proof (parse_members_length _ _ _ _ _ Hparse).
      apply (IHm _ _ _ _ m Hparse). lia. }
    destruct (c =? 91).
    { destruct (Json.next_is 93 t) as [r'|]; [done|].
      pose proof (parse_elements_length _ _ _ _ _ Hparse).
      apply (IHe _ _ _ _ m Hparse). lia. }
    done.
  - intros s acc v r [|m] Hparse Hm; [lia|].
    pose proof (parse_members_length _ _ _ _ _ Hparse) as Hlen.
    simpl in Hparse |- *.
    destruct (Json.next_is 34 s) as [r0|] eqn:H0; simpl in *; [|done].
    destruct (Json.parse_chars r0 []) as [[k r1]|] eqn:H1; simpl in *; [|done].
    destruct (Json.next_is 58 r1) as [r2|] eqn:H2; simpl in *; [|done].
    destruct (Json.parse_value n r2) as [[x r3]|] eqn:H3; simpl in *; [|done].
    apply next_is_length in H0, H2. apply parse_chars_length in H1.
    pose proof (parse_value_length _ _ _ _ H3) as Hval.
    destruct (Json.next_is 44 r3) as [r4|] eqn:H4.
    + pose proof (next_is_length _ _ _ H4).
      pose proof (parse_members_length _ _ _ _ _ Hparse).
      rewrite (IHv _ _ _ m H3) by lia. simpl. rewrite H4.
      apply (IHm _ _ _ _ m Hparse). lia.
    + destruct (Json.next_is 125 r3) as [r4|] eqn:H5; simpl in *; [|done].
      injection Hparse as <- <-. pose proof (next_is_length _ _ _ H5).
      rewrite (IHv _ _ _ m H3) by lia. simpl. by rewrite H4, H5.
  - intros s acc v r [|m] Hparse Hm; [lia|].
    pose proof (parse_elements_length _ _ _ _ _ Hparse) as Hlen.
    simpl in Hparse |- *.
    destruct (Json.parse_value n s) as [[x r1]|] eqn:H1; simpl in *; [|done].
    pose proof (parse_value_length _ _ _ _ H1) as Hval.
    destruct (Json.next_is 44 r1) as [r2|] eqn:H2.
    + pose proof (next_is_length _ _ _ H2).
      pose proof (parse_elements_length _ _ _ _ _ Hparse).
      rewrite (IHv _ _ _ m H1) by lia. simpl. rewrite H2.
      apply (IHe _ _ _ _ m Hparse). lia.
    + destruct (Json.next_is 93 r1) as [r2|] eqn:H3; simpl in *; [|done].
      injection Hparse as <- <-. pose proof (next_is_length _ _ _ H3).
      rewrite (IHv _ _ _ m H1) by lia. simpl. by rewrite H2, H3.
Qed.

(** [parse] accepts every text some run of the parser reads to its end. *)
Lemma parse_any_fuel n s v r :
  Json.parse_value n s = Some (v, r) → Json.skip_ws r = [] →
  Json.parse s = Some v.
Proof.
  intros Hparse Hrest. unfold Json.parse.
  rewrite (proj1 (parse_value_fuel n) s v r (S (length s)) Hparse) by lia.
  simpl. by rewrite Hrest.
Qed.

(** *** Trimming *)

Lemma json_ws_space c : Json.is_ws c = true → is_js_space c = true.
Proof.
  unfold Json.is_ws.
  destruct (N.eqb_spec c 9) as [->|_]; [done|].
  destruct (N.eqb_spec c 10) as [->|_]; [done|].
  destruct (N.eqb_spec c 13) as [->|_]; [done|].
  by destruct (N.eqb_spec c 32) as [->|_].
Qed.

Lemma space_not_j c : is_js_space c = true → is_letter 106 74 c = false.
Proof.
  unfold is_letter. intros Hc.
  destruct (decide (c = 106)) as [->|]; [done|].
  destruct (decide (c = 74)) as [->|]; [done|].
  by rewrite !bool_decide_eq_false_2.
Qed.

Lemma trimStart_space w s : all_space w → trimStart (w ++ s) = trimStart s.
Proof. induction 1 as [|c w Hc _ IH]; simpl; [done|]. by rewrite Hc. Qed.

Lemma trimStart_keeps u z r :
  is_js_space z = false → ∃ u', trimStart (u ++ z :: r) = u' ++ z :: r.
Proof.
  intros Hz. induction u as [|c u (u' & IH)]; simpl.
  - exists []. by rewrite Hz.
  - destruct (is_js_space c); [by exists u'|by exists (c :: u)].
Qed.

Lemma trimStart_app s a t x : trimStart s = a :: t → trimStart (s ++ x) = a :: t ++ x.
Proof.
  induction s as [|c s IH]; simpl; [done|].
  destruct (is_js_space c); [done|]. by intros [= -> ->].
Qed.

Lemma trimEnd_space s w : all_space w → trimEnd (s ++ w) = trimEnd s.
Proof.
  intros Hw. unfold trimEnd. rewrite reverse_app, trimStart_space; [done|].
  unfold all_space. by rewrite Forall_reverse.
Qed.

Lemma trimEnd_keeps a t :
  is_js_space a = false → ∃ t', trimEnd (a :: t) = a :: t'.
Proof.
  intros Ha. unfold trimEnd. rewrite reverse_cons.
  destruct (trimStart_keeps (reverse t) a [] Ha) as (u' & ->).
  exists (reverse u'). by rewrite reverse_snoc.
Qed.

(** A text [JSON.parse] accepts, trimmed: it starts with a character that
    opens a value and ends with one that closes it. *)
Lemma valid_json_shape j v :
  Json.parse j = Some v →
  ∃ a t m u z,
    trimStart j = a :: t ∧ trim j = a :: m ∧ trim j = u ++ [z] ∧
    opens a ∧ closing z ∧
    (∀ c j', j = c :: j' → is_letter 106 74 c = false).
Proof.
  unfold Json.parse.
  destruct (Json.parse_value (S (length j)) j) as [[x r]|] eqn:Hparse; simpl; [|done].
  destruct (Json.skip_ws r) as [|? ?] eqn:Hrest; [intros _|done].
  destruct (parse_value_opens _ _ _ _ Hparse) as (a & t & Hskip & Ha).
  destruct (proj1 (parse_value_ends _) _ _ _ Hparse) as (z & Hz & u & Hj).
  destruct (skip_ws_split j) as (lead & Hlead & Hws). rewrite Hskip in Hlead.
  destruct (skip_ws_split r) as (trail & Htrail & Hws'). rewrite Hrest, app_nil_r in Htrail.
  subst trail.
  assert (all_space lead) as Hlead_space.
  { eapply Forall_impl; [exact Hws|]. apply json_ws_space. }
  assert (all_space r) as Hr_space.
  { eapply Forall_impl; [exact Hws'|]. apply json_ws_space. }
  assert (trimStart j = a :: t) as Hstart.
  { rewrite Hlead, trimStart_space by done. apply trimStart_nonspace, Ha. }
  destruct (trimStart_keeps u z r (proj1 Hz)) as (u' & Hkeep).
  rewrite <-Hj, Hstart in Hkeep.
  assert (trim j = u' ++ [z]) as Htrim.
  { unfold trim. rewrite Hstart, Hkeep.
    rewrite (cons_middle z u' r), (assoc (++)), trimEnd_space by done.
    apply trimEnd_nonspace, Hz. }
  destruct (trimEnd_keeps a t (proj1 (proj1 Ha))) as (m & Hm).
  exists a, t, m, u', z. repeat split; try done; try apply Ha; try apply Hz.
  - unfold trim. by rewrite Hstart.
  - intros c j' ->. destruct lead as [|d lead]; simplify_eq/=; [apply Ha|].
    inversion Hlead_space; subst. by apply space_not_j.
Qed.

(** *** Cleaning a reply *)

Lemma startsWith_fence_other c s : c ≠ 96 → startsWith (c :: s) fence = false.
Proof. intros Hc. simpl. by rewrite decide_False. Qed.

Lemma endsWith_fence_other s c : c ≠ 96 → endsWith (s ++ [c]) fence = false.
Proof.
  intros Hc. unfold endsWith. rewrite reverse_snoc.
  by apply startsWith_fence_other.
Qed.

Lemma jsonTag_other c s : is_letter 106 74 c = false → jsonTag (c :: s) = false.
Proof. intros Hc. destruct s as [|? [|? [|? ?]]]; simpl; by rewrite ?Hc. Qed.

(** Without a fence around it, valid JSON is only trimmed. *)
Lemma clean_plain j v : Json.parse j = Some v → cleanResponse j = trim j.
Proof.
  intros (a & t & m & u & z & _ & Hhead & Hlast & Ha & Hz & _)%valid_json_shape.
  unfold cleanResponse, stripFenceJson, stripFenceOpen, stripFenceClose.
  rewrite Hhead, startsWith_fence_other by apply Ha. cbn [andb].
  rewrite startsWith_fence_other by apply Ha.
  rewrite <-Hhead, Hlast. by rewrite endsWith_fence_other by apply Hz.
Qed.

Lemma trim_fenced before inner after :
  all_space before → all_space after →
  trim (before ++ fence ++ inner ++ fence ++ after) = fence ++ inner ++ fence.
Proof.
  intros Hb Ha. unfold trim. rewrite trimStart_space by done.
  change (fence ++ inner ++ fence ++ after)
    with (96 :: 96 :: 96 :: inner ++ fence ++ after).
  rewrite trimStart_nonspace by done.
  change (96 :: 96 :: 96 :: inner ++ fence ++ after)
    with (fence ++ inner ++ fence ++ after).
  rewrite !(assoc (++) _ _ after), trimEnd_space by done.
  assert (fence ++ inner ++ fence = (fence ++ inner ++ [96; 96]) ++ [96]) as ->
    by (by rewrite <-!(assoc (++))).
  by apply trimEnd_nonspace.
Qed.

(** The two replacements at the start leave the JSON text, trimmed at its
    start, and what follows it. *)
Lemma strip_opening tag gap j v rest :
  Json.parse j = Some v → fenceTag tag → all_space gap →
  stripFenceOpen (stripFenceJson (fence ++ tag ++ gap ++ j ++ rest))
  = trimStart j ++ rest.
Proof.
  intros (a & t & _ & _ & _ & Hstart & _ & _ & Ha & _ & Hj)%valid_json_shape Htag Hgap.
  assert (trimStart (gap ++ j ++ rest) = trimStart j ++ rest) as Hinner.
  { rewrite trimStart_space, Hstart by done. by apply trimStart_app. }
  assert (startsWith (trimStart j ++ rest) fence = false) as Hdone.
  { rewrite Hstart. apply startsWith_fence_other, Ha. }
  unfold stripFenceJson.
  destruct Htag as [->|[Hlen Htag]].
  - change (fence ++ [] ++ gap ++ j ++ rest) with (96 :: 96 :: 96 :: gap ++ j ++ rest).
    change (drop 3 (96 :: 96 :: 96 :: gap ++ j ++ rest)) with (gap ++ j ++ rest).
    assert (jsonTag (gap ++ j ++ rest) = false) as ->.
    { destruct gap as [|c gap]; simpl.
      - destruct j as [|c j]; [done|]. apply jsonTag_other. by eapply Hj.
      - apply jsonTag_other, space_not_j. by inversion Hgap. }
    rewrite andb_false_r. unfold stripFenceOpen.
    change (startsWith (96 :: 96 :: 96 :: gap ++ j ++ rest) fence) with true. cbn iota.
    exact Hinner.
  - destruct tag as [|c1 [|c2 [|c3 [|c4 [|? ?]]]]]; try done.
    change (fence ++ [c1;c2;c3;c4] ++ gap ++ j ++ rest) with (96 :: 96 :: 96 :: c1 :: c2 :: c3 :: c4 :: gap ++ j ++ rest).
    change (drop 3 (96 :: 96 :: 96 :: c1 :: c2 :: c3 :: c4 :: gap ++ j ++ rest)) with (c1 :: c2 :: c3 :: c4 :: gap ++ j ++ rest).
    change (drop 7 (96 :: 96 :: 96 :: c1 :: c2 :: c3 :: c4 :: gap ++ j ++ rest)) with (gap ++ j ++ rest).
    change (jsonTag (c1 :: c2 :: c3 :: c4 :: gap ++ j ++ rest)) with (jsonTag [c1;c2;c3;c4]).
    rewrite Htag. 
    change (startsWith (96 :: 96 :: 96 :: c1 :: c2 :: c3 :: c4 :: gap ++ j ++ rest) fence) with true. cbn [andb].
    rewrite Hinner.
    unfold stripFenceOpen. by rewrite Hdone.
Qed.

Lemma strip_closing j gap :
  trimStart j ≠ [] → all_space gap →
  stripFenceClose (trimStart j ++ gap ++ fence) = trim j.
Proof.
  intros Hj Hgap. unfold stripFenceClose.
  assert (endsWith (trimStart j ++ gap ++ fence) fence = true) as ->.
  { unfold endsWith. by rewrite !reverse_app. }
  rewrite (assoc (++)), take_app_length' by (rewrite !length_app; simpl; lia).
  by rewrite trimEnd_space.
Qed.

(** The reply in a fence and the reply without it are cleaned to the same
    text. *)
Lemma clean_fenced before tag gap j gap' after v :
  Json.parse j = Some v → fenceTag tag →
  all_space before → all_space gap → all_space gap' → all_space after →
  cleanResponse (fenced before tag gap j gap' after) = cleanResponse j.
Proof.
  intros Hj Htag Hb Hg Hg' Ha. rewrite (clean_plain j v Hj).
  assert (fenced before tag gap j gap' after
          = before ++ fence ++ (tag ++ gap ++ j ++ gap') ++ fence ++ after) as ->
    by (unfold fenced; by rewrite <-!(assoc (++))).
  unfold cleanResponse.
  rewrite (trim_fenced before (tag ++ gap ++ j ++ gap') after Hb Ha).
  rewrite <-!(assoc (++)).
  rewrite (strip_opening tag gap j v (gap' ++ fence) Hj Htag Hg).
  apply strip_closing; [|done].
  by destruct (valid_json_shape j v Hj) as (a & t & _ & _ & _ & -> & _).
Qed.

(** *** The defaults *)

Lemma backfill_lookup (k : text) (d : JSON) (o : gmap text JSON) (k' : text) :
  backfill k d o !! k'
  = if decide (k' = k)
    then (if truthy_value (o !! k) then o !! k else Some d)
    else o !! k'.
Proof.
  unfold backfill. case_decide as Hk; [subst k'|].
  - destruct (truthy_value (o !! k)); [done|]. by rewrite lookup_insert_eq.
  - destruct (truthy_value (o !! k)); [done|]. by rewrite lookup_insert_ne.
Qed.

(** With an array under [steps], [validateAndFill] succeeds and fills the
    three optional fields in the order of the source. *)
Lemma validateAndFill_backfilled (o : gmap text JSON) (l : list JSON) :
  o !! str "steps" = Some (JArr l) →
  validateAndFill (JObj o) = Ok (JObj (backfilled o)).
Proof.
  intros Hsteps. unfold validateAndFill, backfilled, backfill.
  cbn [get mbind result_bind]. rewrite Hsteps.
  cbn [truthy_value truthy isArray negb orb].
  destruct (truthy_value (o !! str "compatibilityWarnings"));
    cbn [negb set get mbind result_bind];
    match goal with
    | |- context [truthy_value (?m !! str "estimatedDuration")] =>
        destruct (truthy_value (m !! str "estimatedDuration"))
    end;
    cbn [negb set get mbind result_bind];
    match goal with
    | |- context [truthy_value (?m !! str "tips")] =>
        destruct (truthy_value (m !! str "tips"))
    end;
    reflexivity.
Qed.

Lemma backfilled_lookup (o : gmap text JSON) :
  backfilled o !! str "compatibilityWarnings"
    = (if truthy_value (o !! str "compatibilityWarnings")
       then o !! str "compatibilityWarnings" else Some (JArr [])) ∧
  backfilled o !! str "estimatedDuration"
    = (if truthy_value (o !! str "estimatedDuration")
       then o !! str "estimatedDuration" else Some (num 19)) ∧
  backfilled o !! str "tips"
    = (if truthy_value (o !! str "tips") then o !! str "tips" else Some (JArr [])) ∧
  (∀ k, k ≠ str "compatibilityWarnings" → k ≠ str "estimatedDuration" →
        k ≠ str "tips" → backfilled o !! k = o !! k).
Proof.
  unfold backfilled. repeat split.
  - rewrite !backfill_lookup. by repeat (case_decide; [done|]).
  - rewrite !backfill_lookup. repeat (case_decide; try done).
  - rewrite !backfill_lookup. repeat (case_decide; try done).
  - intros k H1 H2 H3. rewrite !backfill_lookup. by repeat (case_decide; [done|]).
Qed.

(** C9. A reply that is valid JSON inside a code fence is parsed to the same
    result as the JSON without the fence; and a draft whose [steps] is an
    array gets an empty list for missing [compatibilityWarnings], 19 for a
    missing [estimatedDuration] and an empty list for missing [tips], while
    what it holds under other names, and truthy values under these, stay.
    The draft with [steps] alone ends with [tips = []]. *)
Theorem fenced_json_parses_alike_and_defaults_fill :
  (∀ before tag gap json gap' after,
     is_Some (Json.parse json) → fenceTag tag →
     all_space before → all_space gap → all_space gap' → all_space after →
     parseAIResponse (fenced before tag gap json gap' after)
     = parseAIResponse json) ∧
  (∀ (o : gmap text JSON) l,
     o !! str "steps" = Some (JArr l) →
     ∃ o' : gmap text JSON,
       validateAndFill (JObj o) = Ok (JObj o') ∧
       o' !! str "steps" = Some (JArr l) ∧
       (o !! str "compatibilityWarnings" = None →
        o' !! str "compatibilityWarnings" = Some (JArr [])) ∧
       (o !! str "estimatedDuration" = None →
        o' !! str "estimatedDuration" = Some (num 19)) ∧
       (o !! str "tips" = None → o' !! str "tips" = Some (JArr [])) ∧
       (∀ k v, o !! k = Some v → truthy v = true → o' !! k = Some v)) ∧
  (∃ o' : gmap text JSON,
     parseAIResponse stepsOnly = Ok (JObj o') ∧
     is_Some (o' !! str "steps") ∧
     o' !! str "compatibilityWarnings" = Some (JArr []) ∧
     o' !! str "estimatedDuration" = Some (num 19) ∧
     o' !! str "tips" = Some (JArr [])).
Proof.
  split; [|split].
  - intros before tag gap json gap' after [v Hv] Htag Hb Hg Hg' Ha.
    unfold parseAIResponse, parseBody, decode.
    by rewrite (clean_fenced before tag gap json gap' after v).
  - intros o l Hsteps. exists (backfilled o).
    destruct (backfilled_lookup o) as (Hw & Hd & Ht & Hother).
    split; [by eapply validateAndFill_backfilled|].
    split; [by rewrite Hother|].
    split; [intros Hnone; by rewrite Hw, Hnone|].
    split; [intros Hnone; by rewrite Hd, Hnone|].
    split; [intros Hnone; by rewrite Ht, Hnone|].
    intros k v Hk Hv.
    destruct (decide (k = str "compatibilityWarnings")) as [->|];
      [by rewrite Hw, Hk; simpl; rewrite Hv|].
    destruct (decide (k = str "estimatedDuration")) as [->|];
      [by rewrite Hd, Hk; simpl; rewrite Hv|].
    destruct (decide (k = str "tips")) as [->|];
      [by rewrite Ht, Hk; simpl; rewrite Hv|].
    by rewrite Hother.
  - vm_compute. eexists. split; [reflexivity|]. by repeat split; [eexists|..].
Qed.

Lemma fenced_json_parses_alike_and_defaults_fill_witness :
  parseAIResponse (fenced [32] (str "JSON") [10] stepsOnly [13; 10] [10])
  = parseAIResponse stepsOnly ∧
  ∃ o' : gmap text JSON,
    validateAndFill (JObj {[ str "steps" := JArr [] ]}) = Ok (JObj o') ∧
    o' !! str "tips" = Some (JArr []).
Proof.
  destruct fenced_json_parses_alike_and_defaults_fill as (Hfence & Hfill & _).
  split.
  - apply Hfence.
    + vm_compute. by eexists.
    + right. by split.
    + by repeat constructor.
    + by repeat constructor.
    + by repeat constructor.
    + by repeat constructor.
  - destruct (Hfill {[ str "steps" := JArr [] ]} []) as (o' & Ho' & _ & _ & _ & Htips & _).
    + reflexivity.
    + exists o'. split; [exact Ho'|]. apply Htips. reflexivity.
Defined.

(** C10. The defaults test for falsiness: an [estimatedDuration] that is
    present and falsy, 0 among such values, is replaced by 19; and a bound
    step whose draft has a falsy [waitTime] (missing, null or 0) is stored
    with [waitTime] 0. *)
Theorem falsy_values_are_defaulted `{Env} :
  (∀ (o : gmap text JSON) l v,
     o !! str "steps" = Some (JArr l) →
     o !! str "estimatedDuration" = Some v → truthy v = false →
     ∃ o' : gmap text JSON,
       validateAndFill (JObj o) = Ok (JObj o') ∧
       o' !! str "estimatedDuration" = Some (num 19)) ∧
  (∀ products aiStep wait step,
     bindStep products aiStep = Ok (Some step) →
     get aiStep (str "waitTime") = Ok wait → truthy_value wait = false →
     waitTime step = num 0) ∧
  truthy (num 0) = false ∧ truthy JNull = false ∧ truthy_value None = false.
Proof.
  split; [|split; [|done]].
  - intros o l v Hsteps Hduration Hv. exists (backfilled o).
    split; [by eapply validateAndFill_backfilled|].
    destruct (backfilled_lookup o) as (_ & -> & _).
    rewrite Hduration. simpl. by rewrite Hv.
  - intros products aiStep wait step Hbind Hget Hwait. unfold bindStep in Hbind.
    destruct products as [|p products], aiStep as [| | | | |o]; simplify_eq/=.
    destruct (o !! str "productName") as [[| | |productName| |]|]; simplify_eq/=.
    match type of Hbind with
    | match ?m with _ => _ end = _ => destruct m; simplify_eq/=
    end.
    destruct (o !! str "waitTime") as [w|]; simplify_eq/=; [|done].
    by rewrite Hwait.
Qed.

Lemma falsy_values_are_defaulted_witness :
  (∃ o' : gmap text JSON,
     validateAndFill (JObj zeroDuration) = Ok (JObj o') ∧
     o' !! str "estimatedDuration" = Some (num 19)) ∧
  ∃ step, @bindStep (scripted []) sampleCatalog stepWithoutWait = Ok (Some step) ∧
          waitTime step = num 0.
Proof.
  destruct (@falsy_values_are_defaulted (scripted [])) as (Hduration & Hwait & _).
  split.
  - apply (Hduration zeroDuration [] (num 0)); by vm_compute.
  - assert (∃ step, @bindStep (scripted []) sampleCatalog stepWithoutWait
                    = Ok (Some step)) as [step Hstep]
      by (vm_compute; by eexists).
    exists step. split; [exact Hstep|].
    apply (Hwait sampleCatalog stepWithoutWait (Some JNull) step Hstep); by vm_compute.
Defined.

(** ** Running the monad *)

Lemma bind_run {A B} (m : M A) (k : A → M B) (w : World) :
  (m ≫= k) w = match m w with
               | (w', Ok a) => k a w'
               | (w', Throw e) => (w', Throw e)
               end.
Proof. reflexivity. Qed.

Lemma bind_ok {A B} (m : M A) (k : A → M B) (w w' : World) (a : A) :
  m w = (w', Ok a) → (m ≫= k) w = k a w'.
Proof. intros Hm. by rewrite bind_run, Hm. Qed.

Lemma try_catch_run {A} (m : M A) (h : Exn → M A) (w : World) :
  try_catch m h w = match m w with
                    | (w', Ok a) => (w', Ok a)
                    | (w', Throw e) => h e w'
                    end.
Proof. reflexivity. Qed.

Lemma add_logs_nil (w : World) : add_logs w [] = w.
Proof. destruct w. unfold add_logs. simpl. by rewrite app_nil_r. Qed.

Lemma add_logs_app (w : World) (es es' : list Event) :
  add_logs (add_logs w es) es' = add_logs w (es ++ es').
Proof. unfold add_logs. simpl. by rewrite (assoc (++)). Qed.

Lemma add_logs_console (w : World) (es : list Event) (lines lines' : list ConsoleLine) :
  add_logs (add_logs w (es ++ (EvConsole <$> lines))) (EvConsole <$> lines')
  = add_logs w (es ++ (EvConsole <$> lines ++ lines')).
Proof. by rewrite add_logs_app, <-(assoc (++)), fmap_app. Qed.

Lemma add_logs_line (w : World) (es : list Event) (lines : list ConsoleLine) line :
  add_logs (add_logs w (es ++ (EvConsole <$> lines))) [EvConsole line]
  = add_logs w (es ++ (EvConsole <$> lines ++ [line])).
Proof. apply (add_logs_console w es lines [line]). Qed.

Lemma add_log_logs (w : World) (e : Event) : add_log w e = add_logs w [e].
Proof. reflexivity. Qed.

Lemma console_run (line : ConsoleLine) (w : World) :
  console line w = (add_logs w [EvConsole line], Ok tt).
Proof. reflexivity. Qed.

(** Brings the log of a run into the form [log w ++ events]. *)
Ltac logged :=
  unfold console, emit, throw, lift, add_log, add_logs, mbind, M_bind, mret, M_ret;
  simpl; rewrite <-?(assoc (++)); simpl.

(** Settles what a run that threw left in the log. *)
Ltac thrown :=
  let w' := fresh "w'" in
  let e := fresh "e" in
  intros w' e; logged; try done; intros [= <- <-]; simpl;
  by rewrite <-?(assoc (++)).

Lemma consoleAll_run (lines : list ConsoleLine) (w : World) :
  consoleAll lines w = (add_logs w (EvConsole <$> lines), Ok tt).
Proof.
  revert w. induction lines as [|line lines IH]; intros w; simpl.
  - by rewrite add_logs_nil.
  - rewrite bind_run, console_run, IH, add_logs_app. done.
Qed.

(** ** Synthesis *)

Lemma autoRegenerateRoutines_few `{Env} (userId : nat) (w : World) :
  (length (activeProducts userId w) < 3)%nat →
  autoRegenerateRoutines userId w
  = (add_log w (EvConsole NotEnoughProducts), Ok Insufficient).
Proof.
  intros Hfew.
  unfold autoRegenerateRoutines, try_catch, Db.Product_find_active, read.
  unfold mbind, M_bind. fold (activeProducts userId w).
  by rewrite decide_True.
Qed.

(** C6. With fewer than three active products [autoRegenerateRoutines]
    returns [insufficient_products]; it writes one line to the console, sends
    no request to the AI endpoint and leaves the collections as they were. *)
Theorem insufficient_products_skip_ai `{Env} (userId : nat) (w : World) :
  (length (activeProducts userId w) < 3)%nat →
  ∃ w', autoRegenerateRoutines userId w = (w', Ok Insufficient) ∧
        log w' = log w ++ [EvConsole NotEnoughProducts] ∧
        posts (log w') = posts (log w) ∧
        products w' = products w ∧ routines w' = routines w.
Proof.
  intros Hfew. exists (add_log w (EvConsole NotEnoughProducts)).
  split; [by apply autoRegenerateRoutines_few|].
  split; [done|split; [|done]].
  unfold posts. simpl. by rewrite filter_app, length_app.
Qed.

Lemma insufficient_products_skip_ai_witness :
  (length (activeProducts 7 smallWorld) < 3)%nat ∧
  ∃ w', @autoRegenerateRoutines (scripted []) 7 smallWorld = (w', Ok Insufficient) ∧
        posts (log w') = posts (log smallWorld).
Proof.
  assert (length (activeProducts 7 smallWorld) < 3)%nat as Hfew
    by (vm_compute; lia).
  split; [exact Hfew|].
  destruct (@insufficient_products_skip_ai (scripted []) 7 smallWorld Hfew)
    as (w' & Hrun & _ & Hposts & _).
  by exists w'.
Defined.

Lemma synthesize_returns `{Env} userId products user type (w : World) :
  ∃ w' done, synthesize userId products user type w = (w', Ok done).
Proof.
  unfold synthesize. rewrite try_catch_run.
  destruct (synthesizeBody userId products user type w) as [w' [done|e]]; eauto.
Qed.

Lemma synthesize_caught `{Env} userId products user type (w w' : World) e :
  synthesizeBody userId products user type w = (w', Throw e) →
  synthesize userId products user type w
  = (add_log w' (EvConsole (CouldNotRegenerate type e)), Ok false).
Proof. intros Hbody. unfold synthesize. by rewrite try_catch_run, Hbody. Qed.

Lemma autoRegenerateRoutines_enough `{Env} userId (w : World) :
  (3 ≤ length (activeProducts userId w))%nat →
  ∃ w1 w2 morningDone nightDone,
    synthesize userId (activeProducts userId w) (users w !! userId) morning w
      = (w1, Ok morningDone) ∧
    synthesize userId (activeProducts userId w) (users w !! userId) night w1
      = (w2, Ok nightDone) ∧
    autoRegenerateRoutines userId w
      = (w2, Ok (Regenerated (Nat.b2n morningDone + Nat.b2n nightDone))).
Proof.
  intros Henough.
  destruct (synthesize_returns userId (activeProducts userId w)
              (users w !! userId) morning w) as (w1 & b1 & H1).
  destruct (synthesize_returns userId (activeProducts userId w)
              (users w !! userId) night w1) as (w2 & b2 & H2).
  exists w1, w2, b1, b2. split; [done|split; [done|]].
  unfold autoRegenerateRoutines, Db.Product_find_active, Db.User_findById, read.
  rewrite try_catch_run. unfold mbind at 1, M_bind at 1.
  fold (activeProducts userId w). rewrite decide_False by lia.
  unfold mbind at 1, M_bind at 1. unfold mbind at 1, M_bind at 1.
  unfold routineTypes, regenerateTypes.
  rewrite (bind_ok _ _ _ _ _ H1), (bind_ok _ _ _ _ _ H2).
  by destruct b1, b2.
Qed.

(** C7, as amended. The synthesis of a routine type never raises: what its
    [try] block throws is written to the console and counts as "not
    regenerated". With three active products or more, [autoRegenerateRoutines]
    runs the synthesis of the morning type and then, whatever came of it,
    that of the night type, and returns [regenerated: true] with the number
    of types regenerated; it never raises either. *)
Theorem regenerateAll_isolates_failures `{Env} (userId : nat) (w : World) :
  (∀ products user type (w0 : World),
     ∃ w' done, synthesize userId products user type w0 = (w', Ok done)) ∧
  (∀ products user type (w0 w' : World) e,
     synthesizeBody userId products user type w0 = (w', Throw e) →
     synthesize userId products user type w0
     = (add_log w' (EvConsole (CouldNotRegenerate type e)), Ok false)) ∧
  ((3 ≤ length (activeProducts userId w))%nat →
   ∃ w1 w2 morningDone nightDone,
     synthesize userId (activeProducts userId w) (users w !! userId) morning w
       = (w1, Ok morningDone) ∧
     synthesize userId (activeProducts userId w) (users w !! userId) night w1
       = (w2, Ok nightDone) ∧
     autoRegenerateRoutines userId w
       = (w2, Ok (Regenerated (Nat.b2n morningDone + Nat.b2n nightDone)))) ∧
  (∃ w' r, autoRegenerateRoutines userId w = (w', Ok r)).
Proof.
  split; [intros; apply synthesize_returns|].
  split; [intros; by apply synthesize_caught|].
  split; [apply autoRegenerateRoutines_enough|].
  destruct (decide (length (activeProducts userId w) < 3)%nat) as [Hfew|Henough].
  - rewrite (autoRegenerateRoutines_few userId w Hfew). eauto.
  - destruct (autoRegenerateRoutines_enough userId w) as (w1 & w2 & b1 & b2 & _ & _ & Hrun);
      [lia|eauto].
Qed.

Lemma regenerateAll_isolates_failures_witness :
  (3 ≤ length (activeProducts 7 sampleWorld))%nat ∧
  ∃ w1 w2 morningDone nightDone,
    @synthesize (scripted [Rejected (Some 429); says fullDraft]) 7
       (activeProducts 7 sampleWorld) (users sampleWorld !! 7%nat) morning sampleWorld
      = (w1, Ok morningDone) ∧
    @synthesize (scripted [Rejected (Some 429); says fullDraft]) 7
       (activeProducts 7 sampleWorld) (users sampleWorld !! 7%nat) night w1
      = (w2, Ok nightDone) ∧
    @autoRegenerateRoutines (scripted [Rejected (Some 429); says fullDraft]) 7 sampleWorld
      = (w2, Ok (Regenerated (Nat.b2n morningDone + Nat.b2n nightDone))).
Proof.
  assert (3 ≤ length (activeProducts 7 sampleWorld))%nat as Henough
    by (vm_compute; lia).
  split; [exact Henough|].
  destruct (@regenerateAll_isolates_failures
              (scripted [Rejected (Some 429); says fullDraft]) 7 sampleWorld)
    as (_ & _ & Hrun & _).
  exact (Hrun Henough).
Defined.

(** C7, as stated, fails: the returned value does not tell the outcome of
    each type. When the endpoint answers the morning request and rejects the
    night request, and when it rejects the morning request and answers the
    night request, the same value comes back, a count of 1; which type failed,
    and with what error, is only on the console. *)
Lemma returned_count_hides_which_type_failed :
  let morningOnly := @autoRegenerateRoutines
    (scripted [says fullDraft; Rejected (Some 429)]) 7 sampleWorld in
  let nightOnly := @autoRegenerateRoutines
    (scripted [Rejected (Some 429); says fullDraft]) 7 sampleWorld in
  morningOnly.2 = Ok (Regenerated 1) ∧
  nightOnly.2 = Ok (Regenerated 1) ∧
  consoleLines (log morningOnly.1)
  = [GeminiApiError (AxiosError (Some 429)); ErrorGeneratingRoutine RateLimit;
     CouldNotRegenerate night RateLimit] ∧
  consoleLines (log nightOnly.1)
  = [GeminiApiError (AxiosError (Some 429)); ErrorGeneratingRoutine RateLimit;
     CouldNotRegenerate morning RateLimit] ∧
  r_type <$> (map_to_list (routines morningOnly.1)).*2 = [morning] ∧
  r_type <$> (map_to_list (routines nightOnly.1)).*2 = [night].
Proof. vm_compute. by repeat split. Qed.

Lemma dense_renumber_from (n : nat) (l : list Step) :
  stepNumber <$> imap (λ i step, with_stepNumber step (Some (num (Z.of_nat (n + i) + 1)))) l
  = (λ i, Some (num (Z.of_nat i))) <$> seq (S n) (length l).
Proof.
  revert n. induction l as [|step l IH]; intros n; [done|].
  rewrite imap_cons. cbn [fmap list_fmap length seq stepNumber with_stepNumber].
  f_equal.
  - do 2 f_equal. lia.
  - rewrite <-(IH (S n)). f_equal. apply imap_ext. intros i x _. simpl.
    do 3 f_equal. lia.
Qed.

(** The renumbering of [deleteProduct] gives the numbers 1, 2, ..., N. *)
Lemma dense_renumber (l : list Step) : dense (renumber l).
Proof.
  unfold dense, renumber. rewrite length_imap.
  apply (dense_renumber_from 0 l).
Qed.

(** C3 holds where [deleteProduct] repairs a routine, and fails where
    [autoRegenerateRoutines] builds one: the steps are stored under the
    numbers of the draft. For the catalog of three products and a draft whose
    second step names an unknown product, the stored routine has the steps
    numbered 1 and 3. *)
Theorem synthesis_keeps_draft_step_numbers :
  let run := @autoRegenerateRoutines
    (scripted [says gappyDraft; Rejected (Some 429)]) 7 sampleWorld in
  run.2 = Ok (Regenerated 1) ∧
  (∃ r, routines run.1 !! 0%nat = Some r ∧
        stepNumber <$> steps r = [Some (num 1); Some (num 3)] ∧
        product <$> steps r = [1; 3]%nat ∧
        ¬ dense (steps r)) ∧
  (∀ l, dense (renumber l)).
Proof.
  split; [by vm_compute|]. split; [|exact dense_renumber].
  vm_compute. eexists. split; [reflexivity|]. split; [reflexivity|].
  split; [reflexivity|]. intros Hdense. discriminate Hdense.
Qed.

(** ** Integrity repair *)

Lemma repairRoutines_run (id : nat) (l : list (nat * Routine)) (w : World) :
  repairRoutines id l w
  = ({| products := products w; users := users w;
        routines := foldl (applyRepair id) (routines w) l;
        log := log w ++ (repairEvent id <$> l) |}, Ok tt).
Proof.
  revert w. induction l as [|[rid r] l IH]; intros w.
  - destruct w. simpl. by rewrite app_nil_r.
  - cbn [repairRoutines foldl fmap list_fmap].
    unfold applyRepair at 2. unfold repairEvent at 1. unfold repaired, kept.
    cbn [fst snd].
    destruct (decide (length (filter (λ step, product step ≠ id) (steps r)) = 0)%nat).
    + erewrite bind_ok by reflexivity. rewrite IH. simpl.
      by rewrite <-(assoc (++)).
    + erewrite bind_ok by reflexivity. rewrite IH. simpl.
      by rewrite <-(assoc (++)).
Qed.

Lemma applyRepair_other (id : nat) (m : gmap nat Routine) (kr : nat * Routine) (rid : nat) :
  rid ≠ kr.1 → applyRepair id m kr !! rid = m !! rid.
Proof.
  intros Hne. unfold applyRepair.
  destruct (repaired id kr.2); [by rewrite lookup_insert_ne|by rewrite lookup_delete_ne].
Qed.

Lemma applyRepair_same (id : nat) (m : gmap nat Routine) (rid : nat) (r : Routine) :
  applyRepair id m (rid, r) !! rid = repaired id r.
Proof.
  unfold applyRepair. simpl.
  destruct (repaired id r); [by rewrite lookup_insert_eq|by rewrite lookup_delete_eq].
Qed.

Lemma foldl_repair_other (id : nat) (l : list (nat * Routine)) (m : gmap nat Routine) (rid : nat) :
  rid ∉ l.*1 → foldl (applyRepair id) m l !! rid = m !! rid.
Proof.
  revert m. induction l as [|kr l IH]; intros m Hnot; [done|].
  rewrite fmap_cons, not_elem_of_cons in Hnot. destruct Hnot as [Hne Hnot].
  simpl. rewrite IH by done. by apply applyRepair_other.
Qed.

Lemma foldl_repair_same (id : nat) (l : list (nat * Routine)) (m : gmap nat Routine)
    (rid : nat) (r : Routine) :
  NoDup l.*1 → (rid, r) ∈ l → foldl (applyRepair id) m l !! rid = repaired id r.
Proof.
  revert m. induction l as [|kr l IH]; intros m Hdup Hin; [by apply elem_of_nil in Hin|].
  rewrite fmap_cons in Hdup. apply NoDup_cons in Hdup as [Hfresh Hdup].
  apply elem_of_cons in Hin as [<-|Hin]; simpl.
  - rewrite foldl_repair_other by done. apply applyRepair_same.
  - by apply IH.
Qed.

(** The loop of [deleteProduct] over what [Routine.find] returned, told
    routine by routine. *)
Lemma repair_lookup (id user : nat) (m : gmap nat Routine) (rid : nat) :
  foldl (applyRepair id) m
    (map_to_list (filter (λ kr, r_user kr.2 = user ∧ Db.references id kr.2) m)) !! rid
  = match m !! rid with
    | Some r => if decide (r_user r = user ∧ Db.references id r)
                then repaired id r else Some r
    | None => None
    end.
Proof.
  set (found := filter (λ kr, r_user kr.2 = user ∧ Db.references id kr.2) m).
  assert (NoDup (map_to_list found).*1) as Hdup by apply NoDup_fst_map_to_list.
  destruct (found !! rid) as [r|] eqn:Hfound.
  - rewrite (foldl_repair_same id _ m rid r Hdup) by by apply elem_of_map_to_list.
    apply map_lookup_filter_Some in Hfound as [-> Hp]. simpl in Hp.
    by rewrite decide_True.
  - rewrite foldl_repair_other.
    + destruct (m !! rid) as [r|] eqn:Hm; [|done].
      case_decide as Hp; [|done].
      assert (found !! rid = Some r) as Hyes
        by (by apply map_lookup_filter_Some).
      congruence.
    + intros ((k & r) & -> & Hin%elem_of_map_to_list)%list_elem_of_fmap.
      simpl in Hfound. congruence.
Qed.

Lemma content_renumber (l : list Step) : content <$> renumber l = content <$> l.
Proof.
  unfold renumber. generalize 0%nat as n.
  assert (∀ (f : nat → Z) l, content <$> imap (λ i step, with_stepNumber step (Some (num (f i)))) l
                             = content <$> l) as Hgen.
  { intros f l'. revert f. induction l' as [|step l' IH]; intros f; [done|].
    rewrite imap_cons. cbn [fmap list_fmap]. f_equal. apply (IH (f ∘ S)). }
  intros _. apply (Hgen (λ i, Z.of_nat i + 1)%Z).
Qed.

Lemma repaired_none (id : nat) (r : Routine) :
  kept id r = [] → repaired id r = None.
Proof. intros Hkept. unfold repaired. by rewrite Hkept. Qed.

Lemma repaired_some (id : nat) (r : Routine) :
  kept id r ≠ [] →
  ∃ r', repaired id r = Some r' ∧
        dense (steps r') ∧
        content <$> steps r' = content <$> kept id r ∧
        with_steps r' (steps r) = r ∧
        ¬ Db.references id r'.
Proof.
  intros Hkept. exists (with_steps r (renumber (kept id r))).
  split; [|split; [|split; [|split]]].
  - unfold repaired. rewrite decide_False; [done|].
    by destruct (kept id r).
  - apply dense_renumber.
  - apply content_renumber.
  - by destruct r.
  - unfold Db.references. rewrite Exists_exists. intros (step & Hin & Hid).
    assert (id ∈ (λ c : nat * JSValue * JSON, c.1.1) <$> (content <$> kept id r)) as Hused.
    { rewrite <-content_renumber. apply list_elem_of_fmap.
      exists (content step). split; [done|].
      apply list_elem_of_fmap. by exists step. }
    apply list_elem_of_fmap in Hused as (c & -> & (step' & -> & Hkept')%list_elem_of_fmap).
    unfold kept in Hkept'. by apply list_elem_of_filter in Hkept' as [Hne _].
Qed.

(** C4. Deleting a product that exists and belongs to the caller: every
    routine of the caller that uses the product in a step loses these
    steps; a routine left without steps is deleted, any other is saved with
    the remaining steps in their order and numbered 1, 2, ..., N; the other
    routines are untouched; and the product is removed after the last of
    these writes. *)
Theorem deleteProduct_repairs_routines_first
    (reqUser id : nat) (w : World) (p : Product) :
  List.find (λ q, bool_decide (p_id q = id)) (products w) = Some p →
  p_user p = reqUser →
  ∃ w' affected,
    affected = map_to_list
      (filter (λ kr, r_user kr.2 = reqUser ∧ Db.references id kr.2) (routines w)) ∧
    deleteProduct reqUser id w
      = (w', Ok {| response := Deleted (length affected) true;
                   scheduled := Some reqUser |}) ∧
    (∀ rid, routines w' !! rid
            = match routines w !! rid with
              | Some r => if decide (r_user r = reqUser ∧ Db.references id r)
                          then repaired id r else Some r
              | None => None
              end) ∧
    (∀ r, kept id r = [] → repaired id r = None) ∧
    (∀ r, kept id r ≠ [] →
          ∃ r', repaired id r = Some r' ∧ dense (steps r') ∧
                content <$> steps r' = content <$> kept id r ∧
                with_steps r' (steps r) = r ∧ ¬ Db.references id r') ∧
    log w' = log w ++ (repairEvent id <$> affected) ++ [EvProductDelete id] ∧
    Forall is_routine_write (repairEvent id <$> affected) ∧
    products w' = filter (λ q, p_id q ≠ id) (products w).
Proof.
  intros Hfound Howner.
  set (affected := map_to_list
    (filter (λ kr, r_user kr.2 = reqUser ∧ Db.references id kr.2) (routines w))).
  eexists _, affected. split; [done|].
  split; [|split; [|split; [|split; [|split; [|split]]]]].
  - unfold deleteProduct, Db.Product_findById, Db.Routine_find_using,
      Db.Product_findByIdAndDelete, read, write, emit.
    rewrite bind_run, Hfound, decide_False by (intros Hne; by apply Hne).
    rewrite bind_run. fold affected.
    rewrite bind_run, repairRoutines_run. reflexivity.
  - intros rid. cbn [routines add_log set_products]. apply repair_lookup.
  - apply repaired_none.
  - apply repaired_some.
  - cbn [log add_log set_products]. by rewrite <-(assoc (++)).
  - apply Forall_fmap, Forall_true. intros [rid r].
    unfold compose, repairEvent. by destruct (decide _).
  - reflexivity.
Qed.

Lemma deleteProduct_repairs_routines_first_witness :
  ∃ w',
    (deleteProduct 7 2 routineWorld).1 = w' ∧
    (deleteProduct 7 2 routineWorld).2
      = Ok {| response := Deleted 2 true; scheduled := Some 7%nat |} ∧
    routines w' !! 10%nat = None ∧
    (∃ r, routines w' !! 11%nat = Some r ∧
          stepNumber <$> steps r = [Some (num 1); Some (num 2)] ∧
          product <$> steps r = [1; 3]%nat) ∧
    log w' = [EvRoutineDelete 10; EvRoutineSave 11; EvProductDelete 2] ∧
    p_id <$> products w' = [1; 3]%nat.
Proof.
  destruct (deleteProduct_repairs_routines_first 7 2 routineWorld
              (sampleProduct 2 7 "The Ordinary Niacinamide" "serum"))
    as (w' & affected & -> & Hrun & Hlookup & _ & _ & Hlog & _ & Hproducts).
  - reflexivity.
  - reflexivity.
  - exists w'. rewrite Hrun. split; [reflexivity|]. split; [by vm_compute|].
    rewrite !Hlookup, Hlog, Hproducts.
    split; [by vm_compute|]. split; [|by vm_compute].
    vm_compute. eexists. by repeat split.
Defined.

(** ** Replacing an AI routine *)

Lemma warnFinishReason_run (finishReason : option text) (w : World) :
  warnFinishReason finishReason w
  = (add_logs w (EvConsole <$> finishWarning finishReason), Ok tt).
Proof.
  unfold warnFinishReason, finishWarning.
  destruct finishReason as [[|c r]|]; [by rewrite add_logs_nil|..].
  - repeat case_bool_decide; try done. by rewrite add_logs_nil.
  - by rewrite add_logs_nil.
Qed.

(** What [getGeminiResponse] leaves in the log: the request, when a key is
    configured, and after it lines on the console. *)
Lemma getGeminiResponse_run `{Env} (prompt : Prompt) (w : World) :
  ∃ lines,
    getGeminiResponse prompt w
    = (add_logs w ((if keyConfigured then [EvPost prompt] else [])
                   ++ (EvConsole <$> lines)),
       geminiReply (posts (log w)) prompt).
Proof.
  unfold getGeminiResponse, geminiReply, keyConfigured, post, read.
  rewrite try_catch_run.
  destruct GEMINI_API_KEY as [[|c key]|];
    [exists [KeyNotFound; GeminiApiError ApiKeyMissing]; by logged|..
    |exists [KeyNotFound; GeminiApiError ApiKeyMissing]; by logged].
  rewrite !bind_run. unfold emit at 1. cbn [mret M_ret]. rewrite add_log_logs.
  destruct (axios_post (posts (log w)) prompt) as [finishReason content|status].
  - case_bool_decide.
    { exists [TruncatedByTokenLimit; GeminiApiError ResponseTooLong]. by logged. }
    case_bool_decide.
    { exists [GeminiApiError BlockedBySafety]. by logged. }
    rewrite bind_run, warnFinishReason_run.
    destruct content as [[|d content]|].
    + exists (finishWarning finishReason ++ [GeminiApiError UnexpectedFormat]).
      rewrite fmap_app. by logged.
    + exists (finishWarning finishReason). by logged.
    + exists (finishWarning finishReason ++ [GeminiApiError UnexpectedFormat]).
      rewrite fmap_app. by logged.
  - exists [GeminiApiError (AxiosError status)]. by logged.
Qed.

(** The same for [generateSkincareRoutine], whose result is the reply of
    the endpoint as the parser reads it. *)
Lemma generateSkincareRoutine_run `{Env} products type skinType skinConcerns (w : World) :
  let prompt := buildPrompt products type skinType skinConcerns in
  ∃ lines,
    generateSkincareRoutine products type skinType skinConcerns w
    = (add_logs w ((if keyConfigured then [EvPost prompt] else [])
                   ++ (EvConsole <$> lines)),
       geminiReply (posts (log w)) prompt ≫= parseAIResponse).
Proof.
  intros prompt. unfold generateSkincareRoutine. fold prompt.
  rewrite try_catch_run, bind_run.
  destruct (getGeminiResponse_run prompt w) as (lines & ->).
  destruct (geminiReply (posts (log w)) prompt) as [aiResponse|e];
    cbn [mbind result_bind].
  - rewrite bind_run, consoleAll_run, add_logs_console. unfold lift.
    destruct (parseAIResponse aiResponse) as [parsedResponse|e]; [by eexists|].
    exists ((lines ++ parseLines aiResponse) ++ [ErrorGeneratingRoutine e]).
    by rewrite bind_run, console_run, add_logs_line.
  - exists (lines ++ [ErrorGeneratingRoutine e]).
    by rewrite bind_run, console_run, add_logs_line.
Qed.

Lemma synthesizeBody_eq `{Env} userId products (u : User) type (w : World) :
  let w0 := (generateSkincareRoutine products type (skinType u) (skinConcerns u) w).1 in
  synthesizeBody userId products (Some u) type w
  = match draftFor (posts (log w)) products (Some u) type with
    | Ok (aiRoutineData, steps) =>
        if decide (0 < length steps)%nat
        then (_ ← Db.Routine_deleteMany_ai userId type;
              _ ← Db.Routine_create (aiRoutine userId type aiRoutineData steps);
              mret true) w0
        else (w0, Ok false)
    | Throw e => (w0, Throw e)
    end.
Proof.
  intros w0. subst w0.
  unfold draftFor, synthesizeBody.
  cbn [mbind result_bind]. rewrite bind_run. cbn [mret M_ret]. rewrite !bind_run.
  destruct (generateSkincareRoutine_run products type (skinType u) (skinConcerns u) w)
    as (lines & ->). cbn [fst].
  destruct (geminiReply _ _) as [aiResponse|e]; cbn [mbind result_bind]; [|done].
  destruct (parseAIResponse aiResponse) as [aiRoutineData|e];
    cbn [mbind result_bind]; [|done].
  unfold lift.
  destruct (stepsOf aiRoutineData) as [aiSteps|e] eqn:Hsteps;
    cbn [mbind result_bind]; [|done].
  rewrite bind_run.
  destruct (bindSteps products aiSteps) as [steps|e];
    cbn [mbind result_bind]; [|done].
  rewrite bind_run.
  destruct (decide (0 < length steps)%nat); [|done].
  by destruct aiRoutineData.
Qed.

(** One turn of the loop, as what it does to the routines. *)
Lemma synthesizeBody_run `{Env} userId catalog user type (w : World) :
  match draftFor (posts (log w)) catalog user type with
  | Ok (aiRoutineData, steps) =>
      if decide (0 < length steps)%nat
      then ∃ w', synthesizeBody userId catalog user type w = (w', Ok true) ∧
                 products w' = products w ∧ users w' = users w ∧
                 routines w' = replaced userId type
                   (aiRoutine userId type aiRoutineData steps) (routines w)
      else ∃ w', synthesizeBody userId catalog user type w = (w', Ok false) ∧
                 same_data w' w
  | Throw e =>
      ∃ w', synthesizeBody userId catalog user type w = (w', Throw e) ∧
            same_data w' w
  end.
Proof.
  destruct user as [u|]; [|by exists w].
  rewrite synthesizeBody_eq.
  destruct (generateSkincareRoutine_run catalog type (skinType u) (skinConcerns u) w)
    as (lines & ->). cbn [fst].
  destruct (draftFor _ _ _ _) as [[aiRoutineData steps]|e]; [|by eexists].
  destruct (decide (0 < length steps)%nat); [|by eexists].
  unfold Db.Routine_deleteMany_ai, Db.Routine_create, write, emit, read.
  rewrite !bind_run. eexists. split; [reflexivity|]. done.
Qed.

Lemma replaced_unique (userId : nat) (type : RoutineType) (r : Routine)
    (m : gmap nat Routine) :
  ai_slot userId type r → unique_ai userId type (replaced userId type r m) r.
Proof.
  intros Hslot. unfold unique_ai, replaced. split; [done|].
  set (others := filter (λ kr, ¬ ai_slot userId type kr.2) m).
  exists (fresh (dom others)). split; [apply lookup_insert_eq|].
  intros id' r' Hlookup Hslot'.
  destruct (decide (id' = fresh (dom others))) as [|Hne]; [done|].
  rewrite lookup_insert_ne in Hlookup by done.
  apply map_lookup_filter_Some in Hlookup as [_ Hnot]. by destruct Hnot.
Qed.

Lemma draftFor_deterministic `{E : Env} (n n' : nat) products user type :
  deterministic E → draftFor n products user type = draftFor n' products user type.
Proof.
  intros Hdet. unfold draftFor, geminiReply.
  destruct user as [u|]; [|done]. cbn [mbind result_bind].
  by rewrite (Hdet n n').
Qed.

Lemma synthesize_true `{Env} userId products user type (w w1 : World) :
  synthesize userId products user type w = (w1, Ok true) →
  ∃ aiRoutineData steps,
    draftFor (posts (log w)) products user type = Ok (aiRoutineData, steps) ∧
    (0 < length steps)%nat ∧
    routines w1 = replaced userId type
      (aiRoutine userId type aiRoutineData steps) (routines w).
Proof.
  unfold synthesize. rewrite try_catch_run.
  pose proof (synthesizeBody_run userId products user type w) as Hrun.
  destruct (draftFor (posts (log w)) products user type)
    as [[aiRoutineData steps]|e].
  - destruct (decide (0 < length steps)%nat) as [Hsome|Hnone].
    + destruct Hrun as (w' & -> & _ & _ & Hroutines). intros [= <-]. eauto.
    + destruct Hrun as (w' & -> & _). done.
  - destruct Hrun as (w' & -> & _). done.
Qed.

Lemma synthesize_once `{E : Env} userId catalog user type (w w1 : World) :
  deterministic E →
  synthesize userId catalog user type w = (w1, Ok true) →
  ∃ w2 r,
    synthesize userId catalog user type w1 = (w2, Ok true) ∧
    unique_ai userId type (routines w1) r ∧
    unique_ai userId type (routines w2) r.
Proof.
  intros Hdet (aiRoutineData & steps & Hdraft & Hsome & Hw1)%synthesize_true.
  pose proof (synthesizeBody_run userId catalog user type w1) as Hrun.
  rewrite (draftFor_deterministic _ (posts (log w)) _ _ _ Hdet), Hdraft in Hrun.
  rewrite decide_True in Hrun by done.
  destruct Hrun as (w2 & Hbody & _ & _ & Hw2).
  exists w2, (aiRoutine userId type aiRoutineData steps).
  split; [|split].
  - unfold synthesize. by rewrite try_catch_run, Hbody.
  - rewrite Hw1. by apply replaced_unique.
  - rewrite Hw2. by apply replaced_unique.
Qed.

(** With a deterministic endpoint a turn of the loop is a function of the
    catalog, the profile and the type. *)
Lemma synthesize_turn `{E : Env} userId catalog user type (w : World) :
  deterministic E →
  ∃ w', synthesize userId catalog user type w
        = (w', Ok (turnDone 0 catalog user type)) ∧
        products w' = products w ∧ users w' = users w ∧
        routines w' = turn 0 userId catalog user type (routines w).
Proof.
  intros Hdet. unfold synthesize, turn, turnDone. rewrite try_catch_run.
  pose proof (synthesizeBody_run userId catalog user type w) as Hrun.
  rewrite (draftFor_deterministic (posts (log w)) 0 _ _ _ Hdet) in Hrun.
  destruct (draftFor 0 catalog user type) as [[aiRoutineData steps]|e].
  - destruct (decide (0 < length steps)%nat) as [Hsome|Hnone].
    + destruct Hrun as (w' & -> & Hframe). exists w'.
      by rewrite bool_decide_eq_true_2.
    + destruct Hrun as (w' & -> & Hp & Hu & Hr). exists w'.
      by rewrite bool_decide_eq_false_2.
  - destruct Hrun as (w' & -> & Hp & Hu & Hr).
    by exists (add_log w' (EvConsole (CouldNotRegenerate type e))).
Qed.

Lemma autoRegenerateRoutines_turns `{E : Env} userId (w : World) :
  deterministic E →
  (3 ≤ length (activeProducts userId w))%nat →
  ∃ w',
    autoRegenerateRoutines userId w
    = (w', Ok (Regenerated
         (Nat.b2n (turnDone 0 (activeProducts userId w) (users w !! userId) morning)
          + Nat.b2n (turnDone 0 (activeProducts userId w) (users w !! userId) night)))) ∧
    products w' = products w ∧ users w' = users w ∧
    routines w'
    = turn 0 userId (activeProducts userId w) (users w !! userId) night
        (turn 0 userId (activeProducts userId w) (users w !! userId) morning
           (routines w)).
Proof.
  intros Hdet Henough.
  destruct (autoRegenerateRoutines_enough userId w Henough)
    as (w1 & w2 & b1 & b2 & H1 & H2 & ->).
  destruct (synthesize_turn userId (activeProducts userId w) (users w !! userId)
              morning w Hdet) as (w1' & H1' & Hp1 & Hu1 & Hr1).
  destruct (synthesize_turn userId (activeProducts userId w) (users w !! userId)
              night w1 Hdet) as (w2' & H2' & Hp2 & Hu2 & Hr2).
  rewrite H1 in H1'. injection H1' as <- ->.
  rewrite H2 in H2'. injection H2' as <- ->.
  exists w2. split; [done|]. split; [congruence|]. split; [congruence|].
  by rewrite Hr2, Hr1.
Qed.

Lemma replaced_other (userId : nat) (type type' : RoutineType) (r r' : Routine)
    (m : gmap nat Routine) :
  type' ≠ type → r_type r' = type' →
  unique_ai userId type m r →
  unique_ai userId type (replaced userId type' r' m) r.
Proof.
  intros Hne Htype' (Hslot & id & Hlookup & Hunique). unfold unique_ai, replaced.
  split; [done|].
  set (others := filter (λ kr, ¬ ai_slot userId type' kr.2) m).
  assert (others !! id = Some r) as Hkept.
  { apply map_lookup_filter_Some. split; [done|].
    intros (_ & Ht & _). destruct Hslot as (_ & Ht' & _). simpl in Ht. congruence. }
  assert (id ≠ fresh (dom others)) as Hfresh.
  { intros ->. apply (is_fresh (dom others)), elem_of_dom. by eexists. }
  exists id. split; [by rewrite lookup_insert_ne|].
  intros id' x Hx Hslot'.
  destruct (decide (id' = fresh (dom others))) as [->|Hother].
  - rewrite lookup_insert_eq in Hx. injection Hx as <-.
    destruct Hslot' as (_ & Ht' & _). congruence.
  - rewrite lookup_insert_ne in Hx by done.
    apply map_lookup_filter_Some in Hx as [Hx _]. by eapply Hunique.
Qed.

Lemma turn_same `{Env} (n userId : nat) catalog user type aiRoutineData steps
    (m : gmap nat Routine) :
  draftFor n catalog user type = Ok (aiRoutineData, steps) →
  (0 < length steps)%nat →
  unique_ai userId type (turn n userId catalog user type m)
    (aiRoutine userId type aiRoutineData steps).
Proof.
  intros Hdraft Hsome. unfold turn. rewrite Hdraft, decide_True by done.
  by apply replaced_unique.
Qed.

Lemma turn_other `{Env} (n userId : nat) catalog user type type' r
    (m : gmap nat Routine) :
  type' ≠ type → unique_ai userId type m r →
  unique_ai userId type (turn n userId catalog user type' m) r.
Proof.
  intros Hne Hunique. unfold turn.
  destruct (draftFor n catalog user type') as [[aiRoutineData steps]|e]; [|done].
  case_decide; [|done]. by apply replaced_other.
Qed.

Lemma turns_unique `{Env} (userId : nat) catalog user type aiRoutineData steps
    (m : gmap nat Routine) :
  draftFor 0 catalog user type = Ok (aiRoutineData, steps) →
  (0 < length steps)%nat →
  unique_ai userId type
    (turn 0 userId catalog user night (turn 0 userId catalog user morning m))
    (aiRoutine userId type aiRoutineData steps).
Proof.
  intros Hdraft Hsome. destruct type.
  - apply turn_other; [done|]. by apply turn_same.
  - by apply turn_same.
Qed.

(** C5. With an endpoint that answers a prompt the same way every time:
    when the synthesis of a routine type produced a routine, running it again
    on the same products and profile produces a routine again, and both times
    the collection holds exactly one AI-generated routine of this user and
    type, the same document, hence the same steps; and when the draft of a
    type binds at least one step, two runs of [autoRegenerateRoutines] in a
    row regenerate the same number of types and each leaves that document as
    the one AI-generated routine of the user and type. *)
Theorem synthesis_is_idempotent `{E : Env} (userId : nat) (type : RoutineType) :
  deterministic E →
  (∀ catalog user (w w1 : World),
     synthesize userId catalog user type w = (w1, Ok true) →
     ∃ w2 r,
       synthesize userId catalog user type w1 = (w2, Ok true) ∧
       unique_ai userId type (routines w1) r ∧
       unique_ai userId type (routines w2) r) ∧
  (∀ (w : World) aiRoutineData steps,
     (3 ≤ length (activeProducts userId w))%nat →
     draftFor 0 (activeProducts userId w) (users w !! userId) type
       = Ok (aiRoutineData, steps) →
     (0 < length steps)%nat →
     ∃ w1 w2 count,
       autoRegenerateRoutines userId w = (w1, Ok (Regenerated count)) ∧
       autoRegenerateRoutines userId w1 = (w2, Ok (Regenerated count)) ∧
       unique_ai userId type (routines w1)
         (aiRoutine userId type aiRoutineData steps) ∧
       unique_ai userId type (routines w2)
         (aiRoutine userId type aiRoutineData steps)).
Proof.
  intros Hdet. split.
  - intros catalog user w w1. by apply synthesize_once.
  - intros w aiRoutineData steps Henough Hdraft Hsome.
    destruct (autoRegenerateRoutines_turns userId w Hdet Henough)
      as (w1 & Hrun1 & Hp1 & Hu1 & Hr1).
    assert (activeProducts userId w1 = activeProducts userId w) as Hactive
      by (unfold activeProducts; by rewrite Hp1).
    destruct (autoRegenerateRoutines_turns userId w1 Hdet) as (w2 & Hrun2 & _ & _ & Hr2);
      [by rewrite Hactive|].
    rewrite Hactive, Hu1 in Hrun2, Hr2.
    eexists w1, w2, _. split; [exact Hrun1|]. split; [exact Hrun2|].
    rewrite Hr2, Hr1. split; by apply turns_unique.
Qed.

Lemma synthesis_is_idempotent_witness :
  deterministic (answering (says fullDraft)) ∧
  (∃ w1 w2 r,
     @synthesize (answering (says fullDraft)) 7 sampleCatalog (Some sampleUser)
       morning sampleWorld = (w1, Ok true) ∧
     @synthesize (answering (says fullDraft)) 7 sampleCatalog (Some sampleUser)
       morning w1 = (w2, Ok true) ∧
     unique_ai 7 morning (routines w1) r ∧
     unique_ai 7 morning (routines w2) r) ∧
  (∃ w1 w2 r,
     (3 ≤ length (activeProducts 7 sampleWorld))%nat ∧
     (0 < length (steps r))%nat ∧
     @autoRegenerateRoutines (answering (says fullDraft)) 7 sampleWorld
       = (w1, Ok (Regenerated 2)) ∧
     @autoRegenerateRoutines (answering (says fullDraft)) 7 w1
       = (w2, Ok (Regenerated 2)) ∧
     unique_ai 7 morning (routines w1) r ∧
     unique_ai 7 morning (routines w2) r).
Proof.
  assert (deterministic (answering (says fullDraft))) as Hdet by done.
  destruct (@synthesis_is_idempotent (answering (says fullDraft)) 7 morning Hdet)
    as [Hturn Hbatch].
  split; [exact Hdet|]. split.
  - destruct (@synthesize (answering (says fullDraft)) 7 sampleCatalog
                (Some sampleUser) morning sampleWorld) as [w1 done] eqn:Hrun.
    assert (done = Ok true) as ->.
    { apply (f_equal snd) in Hrun. vm_compute in Hrun. by symmetry. }
    destruct (Hturn sampleCatalog (Some sampleUser) sampleWorld w1 Hrun)
      as (w2 & r & Hagain & Hone & Htwo).
    by exists w1, w2, r.
  - assert (3 ≤ length (activeProducts 7 sampleWorld))%nat as Henough
      by (vm_compute; lia).
    destruct (@draftFor (answering (says fullDraft)) 0 (activeProducts 7 sampleWorld)
                (users sampleWorld !! 7%nat) morning)
      as [[aiRoutineData bound]|e] eqn:Hdraft; [|by vm_compute in Hdraft].
    assert (length bound = 3%nat) as Hbound.
    { vm_compute in Hdraft. by injection Hdraft as _ <-. }
    destruct (Hbatch sampleWorld aiRoutineData bound Henough Hdraft)
      as (w1 & w2 & count & Hrun1 & Hrun2 & Hone & Htwo); [lia|].
    assert (count = 2%nat) as ->.
    { apply (f_equal snd) in Hrun1. vm_compute in Hrun1. by injection Hrun1. }
    exists w1, w2, (aiRoutine 7 morning aiRoutineData bound).
    split; [exact Henough|]. split; [simpl; lia|].
    split; [exact Hrun1|]. split; [exact Hrun2|]. split; [exact Hone|exact Htwo].
Defined.

(** ** The regeneration trigger *)

Lemma significantChange_spec (body : ProductBody) :
  significantChange body = true ↔
  (∃ c t, b_type body = Some (c :: t)) ∨ is_Some (b_usage body) ∨
  is_Some (b_isActive body).
Proof.
  unfold significantChange, significantChangeValue.
  destruct (b_type body) as [[|c t]|], (b_usage body) as [usage|],
    (b_isActive body) as [active|]; simpl;
    (split; [intros Htrue; try done; eauto 6|
             intros [(? & ? & ?)|[[? ?]|[? ?]]]; done]).
Qed.

Lemma updateProduct_run (reqUser id : nat) (body : ProductBody) (w : World) (p : Product) :
  List.find (λ q, bool_decide (p_id q = id)) (products w) = Some p →
  p_user p = reqUser →
  ∃ w', updateProduct reqUser id body w
        = (w', Ok {| response := Updated (applyBody p body) (significantChangeValue body);
                     scheduled := if significantChange body
                                  then Some reqUser else None |}).
Proof.
  intros Hfound Howner.
  unfold updateProduct, Db.Product_findById, Db.Product_replace, read, write, emit.
  rewrite bind_run, Hfound, decide_False by (intros Hne; by apply Hne).
  rewrite !bind_run. by eexists.
Qed.

Lemma deleteProduct_scheduled (reqUser id : nat) (w : World) (p : Product) :
  List.find (λ q, bool_decide (p_id q = id)) (products w) = Some p →
  p_user p = reqUser →
  ∃ w' n, deleteProduct reqUser id w
          = (w', Ok {| response := Deleted n true; scheduled := Some reqUser |}).
Proof.
  intros Hfound Howner.
  unfold deleteProduct, Db.Product_findById, Db.Routine_find_using,
    Db.Product_findByIdAndDelete, read, write, emit.
  rewrite bind_run, Hfound, decide_False by (intros Hne; by apply Hne).
  rewrite !bind_run, repairRoutines_run. by eexists _, _.
Qed.

(** C8, as amended. After an update of a product of the caller,
    regeneration is scheduled exactly when the request body carries a
    non-empty type, or carries [usage], or carries [isActive], whether or
    not the value differs from the stored one: a body with the name alone
    does not schedule it, a body with [isActive] does. After a create, and
    after a delete of a product of the caller, it is always scheduled. *)
Theorem regeneration_trigger_tests_presence :
  (∀ body, significantChange body = true ↔
           (∃ c t, b_type body = Some (c :: t)) ∨ is_Some (b_usage body) ∨
           is_Some (b_isActive body)) ∧
  (∀ reqUser id body (w : World) p,
     List.find (λ q, bool_decide (p_id q = id)) (products w) = Some p →
     p_user p = reqUser →
     ∃ w', updateProduct reqUser id body w
           = (w', Ok {| response := Updated (applyBody p body) (significantChangeValue body);
                        scheduled := if significantChange body
                                     then Some reqUser else None |})) ∧
  (∀ name, significantChange (nameOnly name) = false) ∧
  (∀ active, significantChange (activeOnly active) = true) ∧
  (∀ reqUser body (w : World),
     ∃ w' p, createProduct reqUser body w
             = (w', Ok {| response := Created p true; scheduled := Some reqUser |})) ∧
  (∀ reqUser id (w : World) p,
     List.find (λ q, bool_decide (p_id q = id)) (products w) = Some p →
     p_user p = reqUser →
     ∃ w' n, deleteProduct reqUser id w
             = (w', Ok {| response := Deleted n true; scheduled := Some reqUser |})).
Proof.
  split; [exact significantChange_spec|].
  split; [exact updateProduct_run|].
  split; [done|]. split; [done|].
  split; [|exact deleteProduct_scheduled].
  intros reqUser body w.
  unfold createProduct, Db.fresh_product_id, Db.Product_insert, read, write, emit.
  rewrite !bind_run. by eexists _, _.
Qed.

Lemma regeneration_trigger_tests_presence_witness :
  (∃ w', updateProduct 7 1 (nameOnly (str "Gentle Cleanser")) sampleWorld
         = (w', Ok {| response := Updated
                        (applyBody (sampleProduct 1 7 "CeraVe Foaming Cleanser" "cleanser")
                                   (nameOnly (str "Gentle Cleanser"))) (JBool false);
                      scheduled := None |})) ∧
  (∃ w', updateProduct 7 1 (activeOnly false) sampleWorld
         = (w', Ok {| response := Updated
                        (applyBody (sampleProduct 1 7 "CeraVe Foaming Cleanser" "cleanser")
                                   (activeOnly false)) (JBool true);
                      scheduled := Some 7%nat |})) ∧
  (∃ w' n, deleteProduct 7 1 sampleWorld
           = (w', Ok {| response := Deleted n true; scheduled := Some 7%nat |})).
Proof.
  destruct regeneration_trigger_tests_presence as (_ & Hupdate & _ & _ & _ & Hdelete).
  split; [|split].
  - apply (Hupdate 7%nat 1%nat (nameOnly (str "Gentle Cleanser")) sampleWorld); reflexivity.
  - apply (Hupdate 7%nat 1%nat (activeOnly false) sampleWorld); reflexivity.
  - apply (Hdelete 7%nat 1%nat sampleWorld
             (sampleProduct 1 7 "CeraVe Foaming Cleanser" "cleanser")); reflexivity.
Defined.

(** C8, as stated, fails: regeneration is scheduled although nothing
    changed. The product is active and the body carries [isActive: true];
    the update leaves the product, and the whole catalog, as they were, and
    [autoRegenerateRoutines] is started all the same. *)
Lemma resent_flag_schedules_regeneration :
  let p := sampleProduct 1 7 "CeraVe Foaming Cleanser" "cleanser" in
  let run := updateProduct 7 1 (activeOnly true) sampleWorld in
  p_isActive p = true ∧
  applyBody p (activeOnly true) = p ∧
  products run.1 = products sampleWorld ∧
  run.2 = Ok {| response := Updated p (JBool true); scheduled := Some 7%nat |}.
Proof. by vm_compute. Qed.

(** * Further properties of the code *)

(** ** The reply and its parser *)

(** Proves [lacks c s] for a text that is given. *)
Ltac lacking := repeat (constructor; [done|]); constructor.

Lemma trimStart_lacks c s : lacks c s → lacks c (trimStart s).
Proof.
  induction 1 as [|d s Hd Hs IH]; simpl; [constructor|].
  destruct (is_js_space d); [done|by constructor].
Qed.

Lemma trimEnd_lacks c s : lacks c s → lacks c (trimEnd s).
Proof.
  intros Hs. unfold trimEnd, lacks. rewrite Forall_reverse.
  apply trimStart_lacks. unfold lacks. by rewrite Forall_reverse.
Qed.

Lemma trimStart_before pre c rest :
  is_js_space c = false → trimStart (pre ++ c :: rest) = trimStart pre ++ c :: rest.
Proof.
  intros Hc. induction pre as [|d pre IH]; simpl; [by rewrite Hc|].
  by destruct (is_js_space d).
Qed.

Lemma trimEnd_after rest c post :
  is_js_space c = false → trimEnd (rest ++ c :: post) = rest ++ c :: trimEnd post.
Proof.
  intros Hc. unfold trimEnd.
  rewrite reverse_app, reverse_cons, <-(assoc (++)). simpl.
  rewrite trimStart_before by done.
  rewrite reverse_app, reverse_cons, reverse_involutive, <-(assoc (++)). done.
Qed.

Lemma dropUntil_lacks c pre rest :
  lacks c pre → dropUntil c (pre ++ c :: rest) = c :: rest.
Proof.
  induction 1 as [|d pre Hd _ IH]; simpl.
  - by rewrite decide_True.
  - by rewrite decide_False.
Qed.

(** The brace pattern finds the object between a text without an opening
    brace and a text without a closing one. *)
Lemma matchBraces_between pre mid post :
  lacks 123 pre → lacks 125 post →
  matchBraces (pre ++ 123 :: mid ++ 125 :: post) = Some (123 :: mid ++ [125]).
Proof.
  intros Hpre Hpost. unfold matchBraces.
  rewrite dropUntil_lacks by done.
  rewrite reverse_app, reverse_cons, <-(assoc (++)). simpl.
  rewrite dropUntil_lacks by (unfold lacks; by rewrite Forall_reverse).
  by rewrite reverse_cons, reverse_involutive.
Qed.

Lemma startsWith_fence_before s c r :
  lacks 96 s → c ≠ 96 → startsWith (s ++ c :: r) fence = false.
Proof.
  intros Hs Hc. destruct Hs as [|d s Hd _]; by apply startsWith_fence_other.
Qed.

Lemma endsWith_fence_after r c s :
  lacks 96 s → c ≠ 96 → endsWith (r ++ c :: s) fence = false.
Proof.
  intros Hs Hc. unfold endsWith.
  rewrite reverse_app, reverse_cons, <-(assoc (++)). simpl.
  apply startsWith_fence_before; [|done].
  unfold lacks. by rewrite Forall_reverse.
Qed.

Lemma decode_between pre mid post :
  lacks 123 pre → lacks 96 pre → lacks 125 post → lacks 96 post →
  decode (pre ++ 123 :: mid ++ 125 :: post) = JSON_parse (123 :: mid ++ [125]).
Proof.
  intros Hpre Hpre' Hpost Hpost'.
  assert (trim (pre ++ 123 :: mid ++ 125 :: post)
          = trimStart pre ++ 123 :: mid ++ 125 :: trimEnd post) as Htrim.
  { unfold trim. rewrite trimStart_before by done.
    rewrite (app_comm_cons mid), (assoc (++)), trimEnd_after by done.
    by rewrite <-(assoc (++)), <-app_comm_cons. }
  set (t := trimStart pre ++ 123 :: mid ++ 125 :: trimEnd post) in Htrim.
  assert (startsWith t fence = false) as Hstart
    by (apply startsWith_fence_before; [by apply trimStart_lacks|done]).
  assert (endsWith t fence = false) as Hend.
  { subst t. rewrite (app_comm_cons mid), (assoc (++)).
    apply endsWith_fence_after; [by apply trimEnd_lacks|done]. }
  assert (matchBraces t = Some (123 :: mid ++ [125])) as Hmatch
    by (apply matchBraces_between; [by apply trimStart_lacks|by apply trimEnd_lacks]).
  unfold decode, cleanResponse, stripFenceJson, stripFenceOpen, stripFenceClose.
  rewrite Htrim, Hstart. cbn [andb]. rewrite Hstart, Hend, Hmatch.
  rewrite (matchBraces_ends_with_brace t _ Hmatch). done.
Qed.

(** X1. Text around the JSON object is ignored: when the reply holds an
    object in braces after a text without an opening brace and before a text
    without a closing brace, neither with a backtick, the brace pattern
    extracts the object and the reply is parsed as the object alone is. *)
Theorem prose_around_the_object_is_ignored (pre mid post : text) :
  lacks 123 pre → lacks 96 pre → lacks 125 post → lacks 96 post →
  matchBraces (pre ++ 123 :: mid ++ 125 :: post) = Some (123 :: mid ++ [125]) ∧
  parseAIResponse (pre ++ 123 :: mid ++ 125 :: post)
  = parseAIResponse (123 :: mid ++ [125]).
Proof.
  intros Hpre Hpre' Hpost Hpost'. split; [by apply matchBraces_between|].
  unfold parseAIResponse, parseBody.
  rewrite decode_between by done.
  assert (decode (123 :: mid ++ [125]) = JSON_parse (123 :: mid ++ [125])) as ->
    by (apply (decode_between [] mid []); constructor).
  done.
Qed.

Lemma prose_around_the_object_is_ignored_witness :
  parseAIResponse (str "Here is your routine: " ++ 123 :: draftObject
                     ++ 125 :: str " Enjoy!")
  = parseAIResponse (123 :: draftObject ++ [125]).
Proof.
  apply (prose_around_the_object_is_ignored (str "Here is your routine: ")
           draftObject (str " Enjoy!")); lacking.
Defined.

Lemma parseBody_throws aiResponse e : parseBody aiResponse = Throw e → parseError e.
Proof.
  unfold parseBody, parseError.
  destruct (decode aiResponse) as [v|e'] eqn:Hdecode; cbn [mbind result_bind].
  - intros [-> | ->]%validateAndFill_throws; auto.
  - intros [= <-]. apply decode_throws in Hdecode as ->. auto.
Qed.

(** The check of line 176 never fires, so the parser writes nothing to the
    console before its [catch]. *)
Lemma parseLines_eq (aiResponse : text) :
  parseLines aiResponse
  = match parseBody aiResponse with
    | Ok _ => []
    | Throw parseError =>
        [FailedToParse (take 1000 aiResponse); ParseErrorMessage parseError]
    end.
Proof.
  unfold parseLines.
  destruct (matchBraces (cleanResponse aiResponse)) as [jsonString|] eqn:Hmatch;
    [|done].
  by rewrite (matchBraces_ends_with_brace _ _ Hmatch).
Qed.


(** ** The request to the endpoint *)

Lemma relay_endpointError status : endpointError (relay (AxiosError status)).
Proof.
  destruct status as [status|]; simpl; [|done].
  destruct (N.eqb_spec status 429) as [->|H1]; [done|].
  destruct (N.eqb_spec status 401) as [->|H2]; [done|].
  destruct (N.eqb_spec status 403) as [->|H3]; [done|].
  simpl. repeat split; congruence.
Qed.

Lemma relay_status status :
  relay (AxiosError status)
  = if decide (status = Some 429) then RateLimit
    else if decide (status = Some 401) then InvalidApiKey
    else if decide (status = Some 403) then Forbidden
    else AxiosError status.
Proof.
  destruct status as [status|]; simpl; [|by repeat case_decide].
  destruct (N.eqb_spec status 429) as [->|H1]; [done|].
  rewrite decide_False by congruence.
  destruct (N.eqb_spec status 401) as [->|H2]; [done|].
  rewrite decide_False by congruence.
  destruct (N.eqb_spec status 403) as [->|H3]; [done|].
  by rewrite decide_False by congruence.
Qed.

Lemma geminiReply_endpointError `{Env} n prompt e :
  geminiReply n prompt = Throw e → endpointError e.
Proof.
  unfold geminiReply.
  destruct GEMINI_API_KEY as [[|c key]|]; [by intros [= <-]| |by intros [= <-]].
  destruct (axios_post n prompt) as [finishReason content|status].
  - repeat case_bool_decide; try by intros [= <-].
    destruct content as [[|d content]|]; by intros [= <-].
  - intros [= <-]. apply relay_endpointError.
Qed.

Lemma posts_console (lines : list ConsoleLine) : posts (EvConsole <$> lines) = 0%nat.
Proof. unfold posts. by induction lines. Qed.

Lemma posts_sent `{Env} (prompt : Prompt) (lines : list ConsoleLine) :
  posts ((if keyConfigured then [EvPost prompt] else []) ++ (EvConsole <$> lines))
  = if keyConfigured then 1%nat else 0%nat.
Proof.
  unfold posts. rewrite filter_app, length_app. fold (posts (EvConsole <$> lines)).
  rewrite posts_console. by destruct keyConfigured.
Qed.

(** X2. [getGeminiResponse] returns a text exactly when a key is configured
    and the endpoint answers the request with a text that is not empty and a
    finish reason other than MAX_TOKENS and SAFETY. It has then made one
    request, written a warning to the console when the finish reason is a
    text other than STOP, and done nothing else. *)
Theorem getGeminiResponse_returns_text `{Env} (prompt : Prompt) (w w' : World) (t : text) :
  getGeminiResponse prompt w = (w', Ok t) ↔
  ∃ finishReason,
    keyConfigured = true ∧
    axios_post (posts (log w)) prompt = Responded finishReason (Some t) ∧
    t ≠ [] ∧
    finishReason ≠ Some (str "MAX_TOKENS") ∧ finishReason ≠ Some (str "SAFETY") ∧
    w' = add_logs w (EvPost prompt :: (EvConsole <$> finishWarning finishReason)).
Proof.
  unfold getGeminiResponse, keyConfigured, post, read.
  rewrite try_catch_run.
  destruct GEMINI_API_KEY as [[|c key]|].
  - split; [by logged|]. by intros (? & ? & _).
  - rewrite !bind_run. unfold emit at 1. cbn [mret M_ret]. rewrite add_log_logs.
    destruct (axios_post (posts (log w)) prompt) as [finishReason content|status].
    + case_bool_decide as Hmax.
      { split; [by logged|]. intros (fr & _ & [= <- _] & _ & ? & _). done. }
      case_bool_decide as Hsafety.
      { split; [by logged|]. intros (fr & _ & [= <- _] & _ & _ & ? & _). done. }
      rewrite bind_run, warnFinishReason_run, add_logs_app.
      destruct content as [[|d content]|].
      * split; [by logged|]. intros (fr & _ & [= _ <-] & ? & _). done.
      * split.
        -- intros [= <- <-]. by exists finishReason.
        -- intros (fr & _ & [= <- <-] & _ & _ & _ & ->). done.
      * split; [by logged|]. intros (fr & _ & [= _] & _).
    + split; [by logged|]. intros (fr & _ & [= ] & _).
  - split; [by logged|]. by intros (? & ? & _).
Qed.

(** X3. How [getGeminiResponse] fails. Without a key it warns, throws
    'Gemini API key not configured' and sends nothing. With a key: a reply
    cut by the token limit is refused as 'Response too long' and one stopped
    by the safety filters as blocked, whatever text they carry; a rejection
    with status 429, 401 or 403 becomes the error of that status, and any
    other rejection is thrown as it came. A failing call leaves the
    collections alone, has made at most one request, has the error it caught
    as its last line on the console, and ends with one of these errors. *)
Theorem getGeminiResponse_failures `{Env} (prompt : Prompt) (w : World) :
  (keyConfigured = false →
   getGeminiResponse prompt w
   = (add_logs w [EvConsole KeyNotFound; EvConsole (GeminiApiError ApiKeyMissing)],
      Throw ApiKeyMissing)) ∧
  (keyConfigured = true →
   ∀ content, axios_post (posts (log w)) prompt
              = Responded (Some (str "MAX_TOKENS")) content →
   getGeminiResponse prompt w
   = (add_logs w [EvPost prompt; EvConsole TruncatedByTokenLimit;
                  EvConsole (GeminiApiError ResponseTooLong)],
      Throw ResponseTooLong)) ∧
  (keyConfigured = true →
   ∀ content, axios_post (posts (log w)) prompt
              = Responded (Some (str "SAFETY")) content →
   getGeminiResponse prompt w
   = (add_logs w [EvPost prompt; EvConsole (GeminiApiError BlockedBySafety)],
      Throw BlockedBySafety)) ∧
  (keyConfigured = true →
   ∀ status, axios_post (posts (log w)) prompt = Rejected status →
   getGeminiResponse prompt w
   = (add_logs w [EvPost prompt; EvConsole (GeminiApiError (AxiosError status))],
      Throw (if decide (status = Some 429) then RateLimit
             else if decide (status = Some 401) then InvalidApiKey
             else if decide (status = Some 403) then Forbidden
             else AxiosError status))) ∧
  (∀ w' e, getGeminiResponse prompt w = (w', Throw e) →
           endpointError e ∧ same_data w' w ∧
           (posts (log w') ≤ posts (log w) + 1)%nat ∧
           ∃ evs cause, log w' = log w ++ evs ++ [EvConsole (GeminiApiError cause)] ∧
                        e = relay cause).
Proof.
  split; [|split; [|split; [|split]]].
  - unfold getGeminiResponse, keyConfigured. rewrite try_catch_run.
    destruct GEMINI_API_KEY as [[|c key]|]; intros Hkey; [by logged|done|by logged].
  - unfold getGeminiResponse, keyConfigured, post, read. rewrite try_catch_run.
    destruct GEMINI_API_KEY as [[|c key]|]; [done| |done].
    intros _ content Hreply. rewrite !bind_run. unfold emit at 1. cbn [mret M_ret].
    rewrite Hreply, bool_decide_eq_true_2 by done. by logged.
  - unfold getGeminiResponse, keyConfigured, post, read. rewrite try_catch_run.
    destruct GEMINI_API_KEY as [[|c key]|]; [done| |done].
    intros _ content Hreply. rewrite !bind_run. unfold emit at 1. cbn [mret M_ret].
    rewrite Hreply, bool_decide_eq_false_2, bool_decide_eq_true_2 by done.
    by logged.
  - unfold getGeminiResponse, keyConfigured, post, read. rewrite try_catch_run.
    destruct GEMINI_API_KEY as [[|c key]|]; [done| |done].
    intros _ status Hreply. rewrite !bind_run. unfold emit at 1. cbn [mret M_ret].
    rewrite Hreply, <-relay_status. by logged.
  - assert (∃ evs cause, ∀ w' e,
              getGeminiResponse prompt w = (w', Throw e) →
              log w' = log w ++ evs ++ [EvConsole (GeminiApiError cause)] ∧
              e = relay cause) as (evs & cause & Hlast).
    { unfold getGeminiResponse, post, read. rewrite try_catch_run.
      destruct GEMINI_API_KEY as [[|c key]|];
        [exists [EvConsole KeyNotFound], ApiKeyMissing; thrown|
        |exists [EvConsole KeyNotFound], ApiKeyMissing; thrown].
      rewrite !bind_run. unfold emit at 1. cbn [mret M_ret]. rewrite add_log_logs.
      destruct (axios_post (posts (log w)) prompt) as [finishReason content|status].
      - case_bool_decide.
        { exists [EvPost prompt; EvConsole TruncatedByTokenLimit], ResponseTooLong.
          thrown. }
        case_bool_decide.
        { exists [EvPost prompt], BlockedBySafety. thrown. }
        rewrite bind_run, warnFinishReason_run, add_logs_app.
        exists ([EvPost prompt] ++ (EvConsole <$> finishWarning finishReason)),
          UnexpectedFormat.
        destruct content as [[|d content]|]; thrown.
      - exists [EvPost prompt], (AxiosError status). thrown. }
    intros w' e Hrun. destruct (Hlast w' e Hrun) as [Hlog ->].
    destruct (getGeminiResponse_run prompt w) as (lines & Heq).
    rewrite Heq in Hrun. injection Hrun as <- Hthrow.
    split; [by eapply geminiReply_endpointError|]. split; [done|].
    split; [|by exists evs, cause].
    cbn [log add_logs]. unfold posts at 1.
    rewrite filter_app, length_app. fold (posts (log w)).
    fold (posts ((if keyConfigured then [EvPost prompt] else [])
                 ++ (EvConsole <$> lines))).
    rewrite posts_sent. destruct keyConfigured; lia.
Qed.

Lemma validateAndFill_ok v d :
  validateAndFill v = Ok d →
  ∃ (o : gmap text JSON) l,
    v = JObj o ∧ o !! str "steps" = Some (JArr l) ∧ d = JObj (backfilled o).
Proof.
  intros Hfill. destruct v as [| | | | |o]; try done.
  destruct (o !! str "steps") as [[|b|q|s|l|o']|] eqn:Hsteps;
    try (unfold validateAndFill in Hfill; cbn [get mbind result_bind] in Hfill;
         rewrite Hsteps in Hfill; cbn [isArray negb truthy_value] in Hfill;
         rewrite ?orb_true_r in Hfill; done).
  exists o, l. split; [done|]. split; [done|].
  rewrite (validateAndFill_backfilled o l Hsteps) in Hfill. congruence.
Qed.

Lemma backfilled_truthy (o : gmap text JSON) :
  truthy_value (backfilled o !! str "compatibilityWarnings") = true ∧
  truthy_value (backfilled o !! str "estimatedDuration") = true ∧
  truthy_value (backfilled o !! str "tips") = true ∧
  backfilled o !! str "steps" = o !! str "steps".
Proof.
  destruct (backfilled_lookup o) as (-> & -> & -> & Hother).
  split; [by destruct (truthy_value (o !! str "compatibilityWarnings")) eqn:?|].
  split; [by destruct (truthy_value (o !! str "estimatedDuration")) eqn:?|].
  split; [by destruct (truthy_value (o !! str "tips")) eqn:?|].
  by apply Hother.
Qed.

(** X4. Where an error of [generateSkincareRoutine] comes from: either a
    text was received and the parser refused it, and the error is 'AI
    generated invalid response format' around a syntax error, a type error
    or the missing [steps] array; or [getGeminiResponse] failed, and its error
    is passed on as it is, not wrapped. Either way the error is written to
    the console before it is thrown, after the start of the refused text and
    the cause in the first case. *)
Theorem generateSkincareRoutine_errors `{Env} products type skinType skinConcerns
    (w w' : World) (e : Exn) :
  generateSkincareRoutine products type skinType skinConcerns w = (w', Throw e) →
  (∃ w0 aiResponse cause,
     getGeminiResponse (buildPrompt products type skinType skinConcerns) w
       = (w0, Ok aiResponse) ∧
     parseBody aiResponse = Throw cause ∧ parseError cause ∧
     e = InvalidFormat cause ∧
     w' = add_logs w0 [EvConsole (FailedToParse (take 1000 aiResponse));
                       EvConsole (ParseErrorMessage cause);
                       EvConsole (ErrorGeneratingRoutine e)]) ∨
  (∃ w0,
     getGeminiResponse (buildPrompt products type skinType skinConcerns) w
       = (w0, Throw e) ∧
     endpointError e ∧
     w' = add_logs w0 [EvConsole (ErrorGeneratingRoutine e)]).
Proof.
  unfold generateSkincareRoutine. rewrite try_catch_run, bind_run.
  destruct (getGeminiResponse _ w) as [w0 [aiResponse|e0]] eqn:Hreply.
  - rewrite bind_run, consoleAll_run, parseLines_eq. unfold lift, parseAIResponse.
    destruct (parseBody aiResponse) as [d|cause] eqn:Hparse; simpl; [done|].
    intros [= <- <-]. left. exists w0, aiResponse, cause.
    split; [done|]. split; [done|]. split; [by eapply parseBody_throws|].
    split; [done|]. by logged.
  - intros [= <- <-]. right. exists w0. split; [done|]. split; [|done].
    destruct (getGeminiResponse_run (buildPrompt products type skinType skinConcerns) w)
      as (lines & Hrun).
    rewrite Hreply in Hrun. injection Hrun as _ Hthrow.
    by eapply geminiReply_endpointError.
Qed.

Lemma generateSkincareRoutine_errors_witness :
  ∃ w0 w',
    @generateSkincareRoutine (scripted [says "Sorry, I cannot help."])
      sampleCatalog morning None None sampleWorld
    = (w', Throw (InvalidFormat SyntaxError)) ∧
    @getGeminiResponse (scripted [says "Sorry, I cannot help."])
      (buildPrompt sampleCatalog morning None None) sampleWorld
    = (w0, Ok (str "Sorry, I cannot help.")) ∧
    w' = add_logs w0 [EvConsole (FailedToParse (str "Sorry, I cannot help."));
                      EvConsole (ParseErrorMessage SyntaxError);
                      EvConsole (ErrorGeneratingRoutine (InvalidFormat SyntaxError))].
Proof.
  destruct (@generateSkincareRoutine (scripted [says "Sorry, I cannot help."])
              sampleCatalog morning None None sampleWorld) as [w' r] eqn:Hrun.
  assert (r = Throw (InvalidFormat SyntaxError)) as ->
    by (apply (f_equal snd) in Hrun; vm_compute in Hrun; by symmetry).
  destruct (@generateSkincareRoutine_errors (scripted [says "Sorry, I cannot help."])
              sampleCatalog morning None None sampleWorld w' _ Hrun)
    as [(w0 & aiResponse & cause & Hreply & Hparse & _ & Hcause & Hlog)
       |(w0 & Hreply & _)].
  - assert (aiResponse = str "Sorry, I cannot help.") as ->.
    { apply (f_equal snd) in Hreply. vm_compute in Hreply. by injection Hreply. }
    injection Hcause as <-.
    exists w0, w'. split; [done|]. split; [done|]. exact Hlog.
  - apply (f_equal snd) in Hreply. by vm_compute in Hreply.
Defined.

(** X5. A draft [generateSkincareRoutine] returns is an object whose
    [steps] is an array and whose [compatibilityWarnings], [estimatedDuration]
    and [tips] are truthy. So the loop of [autoRegenerateRoutines] can walk
    [steps], and the routine it builds stores the warnings of the draft: the
    [|| []] of line 77 never applies. *)
Theorem returned_draft_is_complete `{Env} products type skinType skinConcerns
    (w w' : World) (aiRoutineData : JSON) :
  generateSkincareRoutine products type skinType skinConcerns w
    = (w', Ok aiRoutineData) →
  ∃ (o : gmap text JSON) l warnings,
    aiRoutineData = JObj o ∧
    o !! str "steps" = Some (JArr l) ∧ stepsOf aiRoutineData = Ok l ∧
    o !! str "compatibilityWarnings" = Some warnings ∧ truthy warnings = true ∧
    truthy_value (o !! str "estimatedDuration") = true ∧
    truthy_value (o !! str "tips") = true ∧
    ∀ userId steps,
      compatibilityWarnings (aiRoutine userId type aiRoutineData steps) = warnings.
Proof.
  destruct (generateSkincareRoutine_run products type skinType skinConcerns w)
    as (lines & ->).
  destruct (geminiReply _ _) as [aiResponse|e0]; cbn [mbind result_bind]; [|done].
  unfold parseAIResponse, parseBody.
  destruct (decode aiResponse) as [v|e0]; cbn [mbind result_bind]; [|done].
  destruct (validateAndFill v) as [d|e0] eqn:Hfill; simpl; [|done].
  intros [= _ <-].
  apply validateAndFill_ok in Hfill as (o & l & -> & Hsteps & ->).
  destruct (backfilled_truthy o) as (Hw & Hd & Ht & Hs).
  destruct (backfilled o !! str "compatibilityWarnings") as [warnings|] eqn:Hwarnings;
    [|done].
  exists (backfilled o), l, warnings.
  split; [done|]. split; [by rewrite Hs|].
  split; [unfold stepsOf; cbn [get mbind result_bind]; by rewrite Hs, Hsteps|].
  split; [done|]. split; [done|]. split; [done|]. split; [done|].
  intros userId steps. unfold aiRoutine. cbn [compatibilityWarnings get].
  rewrite Hwarnings. simpl in Hw. by rewrite Hw.
Qed.

Lemma returned_draft_is_complete_witness :
  ∃ (o : gmap text JSON) l,
    (@generateSkincareRoutine (answering (says fullDraft))
       sampleCatalog morning None None sampleWorld).2 = Ok (JObj o) ∧
    o !! str "steps" = Some (JArr l) ∧
    truthy_value (o !! str "tips") = true.
Proof.
  destruct (@generateSkincareRoutine (answering (says fullDraft))
              sampleCatalog morning None None sampleWorld) as [w' r] eqn:Hrun.
  destruct r as [d|e]; [|apply (f_equal snd) in Hrun; by vm_compute in Hrun].
  destruct (@returned_draft_is_complete (answering (says fullDraft))
              sampleCatalog morning None None sampleWorld w' d Hrun)
    as (o & l & warnings & -> & Hsteps & _ & _ & _ & _ & Htips & _).
  by exists o, l.
Defined.

(** ** Binding the steps of a draft *)

Lemma includes_nil (s : text) : includes s [] = true.
Proof. by destruct s. Qed.

(** X6. An empty name matches everything, since every string includes the
    empty one: a draft step with an empty name is bound to the first product
    of the catalog, and a first product with an empty name is bound to every
    step. *)
Theorem empty_name_matches_first_product `{Env} (p : Product)
    (products : list Product) (productName : text) :
  toLowerCase [] = [] →
  findMatch (p :: products) [] = Some p ∧
  (p_name p = [] → findMatch (p :: products) productName = Some p).
Proof.
  intros Hlower. unfold findMatch, matches. cbn [List.find]. split.
  - by rewrite Hlower, (includes_nil (toLowerCase (p_name p))), orb_true_r.
  - intros ->. by rewrite Hlower, includes_nil, orb_true_r.
Qed.

Lemma empty_name_matches_first_product_witness :
  @findMatch (scripted []) sampleCatalog []
  = Some (sampleProduct 1 7 "CeraVe Foaming Cleanser" "cleanser").
Proof.
  exact (proj1 (@empty_name_matches_first_product (scripted [])
                  (sampleProduct 1 7 "CeraVe Foaming Cleanser" "cleanser")
                  (tail sampleCatalog) [] eq_refl)).
Defined.

Lemma findMatch_elem `{Env} products productName p :
  findMatch products productName = Some p →
  p ∈ products ∧ matches productName p = true.
Proof.
  unfold findMatch. intros (before & after & -> & Hp & _)%find_first.
  split; [|done]. apply elem_of_app. right. by left.
Qed.

Lemma bindStep_some `{Env} products aiStep step :
  bindStep products aiStep = Ok (Some step) →
  ∃ productName p,
    get aiStep (str "productName") = Ok (Some (JStr productName)) ∧
    findMatch products productName = Some p ∧
    product step = p_id p ∧
    get aiStep (str "stepNumber") = Ok (stepNumber step) ∧
    get aiStep (str "instruction") = Ok (instruction step).
Proof.
  intros Hbind. unfold bindStep in Hbind.
  destruct products as [|q products], aiStep as [| | | | |o]; simplify_eq/=.
  destruct (o !! str "productName") as [[| | |productName| |]|]; simplify_eq/=.
  match type of Hbind with
  | match ?m with _ => _ end = _ => destruct m as [p|] eqn:Hfind; simplify_eq/=
  end.
  by exists productName, p.
Qed.

Lemma bindStep_named `{Env} products aiStep :
  products ≠ [] →
  if hasName aiStep then ∃ step, bindStep products aiStep = Ok step
  else bindStep products aiStep = Throw TypeError.
Proof.
  intros Hproducts. unfold hasName, bindStep.
  destruct products as [|q products]; [done|].
  destruct aiStep as [| | | | |o]; cbn [get mbind result_bind]; try done.
  destruct (o !! str "productName") as [[| | |productName| |]|];
    cbn [mbind result_bind]; try done.
  destruct (findMatch (q :: products) productName); cbn [mbind result_bind]; eauto.
Qed.

Lemma bindSteps_sound `{Env} products aiSteps steps :
  bindSteps products aiSteps = Ok steps →
  (length steps ≤ length aiSteps)%nat ∧
  Forall (λ step, ∃ aiStep productName p,
            aiStep ∈ aiSteps ∧
            get aiStep (str "productName") = Ok (Some (JStr productName)) ∧
            findMatch products productName = Some p ∧
            p ∈ products ∧ product step = p_id p ∧
            get aiStep (str "stepNumber") = Ok (stepNumber step) ∧
            get aiStep (str "instruction") = Ok (instruction step)) steps.
Proof.
  revert steps. induction aiSteps as [|aiStep rest IH]; intros steps; simpl.
  - intros [= <-]. split; [done|constructor].
  - destruct (bindStep products aiStep) as [step|e] eqn:Hstep;
      cbn [mbind result_bind]; [|done].
    destruct (bindSteps products rest) as [more|e] eqn:Hmore;
      cbn [mbind result_bind]; [|done].
    intros [= <-]. destruct (IH more eq_refl) as [Hlen Hall].
    split.
    + rewrite length_app. destruct step; simpl; lia.
    + apply Forall_app. split.
      * destruct step as [step|]; [|constructor]. constructor; [|constructor].
        destruct (bindStep_some _ _ _ Hstep) as (productName & p & ? & Hfind & ? & ? & ?).
        exists aiStep, productName, p. repeat split; try done; [by left|].
        by apply findMatch_elem in Hfind as [? _].
      * eapply Forall_impl; [exact Hall|].
        intros step' (a & n & p & Ha & ?). exists a, n, p. split; [by right|done].
Qed.

Lemma bindSteps_order `{Env} products aiSteps steps :
  bindSteps products aiSteps = Ok steps →
  stepNumber <$> steps `sublist_of` draftNumber <$> aiSteps.
Proof.
  revert steps. induction aiSteps as [|aiStep rest IH]; intros steps; simpl.
  - by intros [= <-].
  - destruct (bindStep products aiStep) as [step|e] eqn:Hstep;
      cbn [mbind result_bind]; [|done].
    destruct (bindSteps products rest) as [more|e] eqn:Hmore;
      cbn [mbind result_bind]; [|done].
    intros [= <-]. specialize (IH more eq_refl).
    destruct step as [step|]; simpl.
    + destruct (bindStep_some _ _ _ Hstep) as (? & ? & _ & _ & _ & Hnumber & _).
      unfold draftNumber. rewrite Hnumber. by apply sublist_skip.
    + by apply sublist_cons.
Qed.

(** X7. What [autoRegenerateRoutines] binds: no more steps than the draft
    has, in the order of the draft, and each bound step comes from a draft
    step with a string name that the matcher resolved to a product of the
    catalog; it holds the id of that product and the [stepNumber] and
    [instruction] of the draft step. *)
Theorem bound_steps_reference_the_catalog `{Env} (products : list Product)
    (aiSteps : list JSON) (steps : list Step) :
  bindSteps products aiSteps = Ok steps →
  (length steps ≤ length aiSteps)%nat ∧
  stepNumber <$> steps `sublist_of` draftNumber <$> aiSteps ∧
  Forall (λ step, ∃ aiStep productName p,
            aiStep ∈ aiSteps ∧
            get aiStep (str "productName") = Ok (Some (JStr productName)) ∧
            findMatch products productName = Some p ∧
            p ∈ products ∧ product step = p_id p ∧
            get aiStep (str "stepNumber") = Ok (stepNumber step) ∧
            get aiStep (str "instruction") = Ok (instruction step)) steps.
Proof.
  intros Hbound. destruct (bindSteps_sound _ _ _ Hbound) as [Hlength Hsteps].
  split; [done|]. split; [|done]. by eapply bindSteps_order.
Qed.

Lemma bound_steps_reference_the_catalog_witness :
  ∃ steps,
    @bindSteps (scripted []) sampleCatalog [stepWithoutWait] = Ok steps ∧
    (length steps ≤ 1)%nat.
Proof.
  destruct (@bindSteps (scripted []) sampleCatalog [stepWithoutWait])
    as [steps|e] eqn:Hbound; [|by vm_compute in Hbound].
  exists steps. split; [done|].
  apply (@bound_steps_reference_the_catalog (scripted []) _ _ _ Hbound).
Defined.

(** X8. With a product in the catalog, binding succeeds exactly when every
    draft step has a string under [productName]; one step without it makes
    the whole draft fail with a type error, where a name that matches nothing
    only drops its step. *)
Theorem step_without_name_voids_the_draft `{Env} (products : list Product)
    (aiSteps : list JSON) :
  products ≠ [] →
  if forallb hasName aiSteps
  then ∃ steps, bindSteps products aiSteps = Ok steps
  else bindSteps products aiSteps = Throw TypeError.
Proof.
  intros Hproducts. induction aiSteps as [|aiStep rest IH]; simpl; [eauto|].
  pose proof (bindStep_named products aiStep Hproducts) as Hstep.
  destruct (hasName aiStep); simpl.
  - destruct Hstep as [step ->]. cbn [mbind result_bind].
    destruct (forallb hasName rest).
    + destruct IH as [more ->]. cbn [mbind result_bind]. eauto.
    + by rewrite IH.
  - by rewrite Hstep.
Qed.

Lemma step_without_name_voids_the_draft_witness :
  @bindSteps (scripted []) sampleCatalog [stepWithoutWait; unnamedStep]
  = Throw TypeError.
Proof.
  apply (@step_without_name_voids_the_draft (scripted []) sampleCatalog
           [stepWithoutWait; unnamedStep]).
  done.
Defined.

(** ** What a regeneration does and leaves alone *)

Lemma synthesize_general `{Env} userId catalog user type (w : World) :
  ∃ w', synthesize userId catalog user type w
        = (w', Ok (turnDone (posts (log w)) catalog user type)) ∧
        products w' = products w ∧ users w' = users w ∧
        routines w' = turn (posts (log w)) userId catalog user type (routines w).
Proof.
  unfold synthesize, turn, turnDone. rewrite try_catch_run.
  pose proof (synthesizeBody_run userId catalog user type w) as Hrun.
  destruct (draftFor (posts (log w)) catalog user type) as [[aiRoutineData steps]|e].
  - destruct (decide (0 < length steps)%nat) as [Hsome|Hnone].
    + destruct Hrun as (w' & -> & Hframe). exists w'.
      by rewrite bool_decide_eq_true_2.
    + destruct Hrun as (w' & -> & Hp & Hu & Hr). exists w'.
      by rewrite bool_decide_eq_false_2.
  - destruct Hrun as (w' & -> & Hp & Hu & Hr).
    by exists (add_log w' (EvConsole (CouldNotRegenerate type e))).
Qed.

Lemma replaced_frame (userId : nat) (type : RoutineType) (r' r : Routine)
    (m : gmap nat Routine) (id : nat) :
  m !! id = Some r → ¬ ai_slot userId type r →
  replaced userId type r' m !! id = Some r.
Proof.
  intros Hlookup Hnot. unfold replaced.
  set (others := filter (λ kr, ¬ ai_slot userId type kr.2) m).
  assert (others !! id = Some r) as Hkept by by apply map_lookup_filter_Some.
  rewrite lookup_insert_ne; [done|].
  intros <-. apply (is_fresh (dom others)), elem_of_dom. by eexists.
Qed.

Lemma replaced_lookup (userId : nat) (type : RoutineType) (r' r : Routine)
    (m : gmap nat Routine) (id : nat) :
  replaced userId type r' m !! id = Some r →
  (id = fresh (dom (filter (λ kr, ¬ ai_slot userId type kr.2) m)) ∧ r = r') ∨
  (id ≠ fresh (dom (filter (λ kr, ¬ ai_slot userId type kr.2) m)) ∧
   m !! id = Some r ∧ ¬ ai_slot userId type r).
Proof.
  unfold replaced.
  set (others := filter (λ kr, ¬ ai_slot userId type kr.2) m).
  destruct (decide (id = fresh (dom others))) as [->|Hne].
  - rewrite lookup_insert_eq. intros [= <-]. by left.
  - rewrite lookup_insert_ne by done.
    intros [? ?]%map_lookup_filter_Some. by right.
Qed.

Lemma turn_frame `{Env} (n userId : nat) catalog user type (m : gmap nat Routine)
    (id : nat) (r : Routine) :
  m !! id = Some r → r_user r ≠ userId ∨ isAIGenerated r = false →
  turn n userId catalog user type m !! id = Some r.
Proof.
  intros Hlookup Hother. unfold turn.
  destruct (draftFor n catalog user type) as [[aiRoutineData steps]|e]; [|done].
  case_decide; [|done]. apply replaced_frame; [done|].
  intros (Hu & _ & Hai). destruct Hother; congruence.
Qed.

Lemma draftFor_steps `{Env} n catalog user type aiRoutineData steps :
  draftFor n catalog user type = Ok (aiRoutineData, steps) →
  ∃ aiSteps, bindSteps catalog aiSteps = Ok steps.
Proof.
  unfold draftFor. destruct user as [u|]; cbn [mbind result_bind]; [|done].
  destruct (geminiReply _ _) as [aiResponse|e]; cbn [mbind result_bind]; [|done].
  destruct (parseAIResponse aiResponse) as [d|e]; cbn [mbind result_bind]; [|done].
  destruct (stepsOf d) as [aiSteps|e]; cbn [mbind result_bind]; [|done].
  destruct (bindSteps catalog aiSteps) as [bound|e] eqn:Hbound;
    cbn [mbind result_bind]; [|done].
  intros [= _ <-]. by exists aiSteps.
Qed.

Lemma turn_inv `{Env} (n userId : nat) catalog user type (m : gmap nat Routine)
    (id : nat) (r : Routine) :
  turn n userId catalog user type m !! id = Some r →
  m !! id = Some r ∨
  (r_user r = userId ∧ r_type r = type ∧ isAIGenerated r = true ∧
   r_name r = routineName type ∧ steps r ≠ [] ∧
   Forall (λ step, ∃ p, p ∈ catalog ∧ product step = p_id p) (steps r)).
Proof.
  unfold turn.
  destruct (draftFor n catalog user type) as [[aiRoutineData bound]|e] eqn:Hdraft;
    [|by left].
  case_decide as Hsome; [|by left].
  intros [[_ ->]|(_ & Hold & _)]%replaced_lookup; [|by left]. right.
  repeat split; try done.
  - simpl. by destruct bound; [simpl in Hsome; lia|].
  - destruct (draftFor_steps _ _ _ _ _ _ Hdraft) as (aiSteps & Hbound).
    apply bindSteps_sound in Hbound as [_ Hall]. simpl.
    eapply Forall_impl; [exact Hall|].
    intros step (a & name & p & _ & _ & _ & Hp & Hid & _). by exists p.
Qed.

(** Every outcome of [autoRegenerateRoutines], as the turns of its loop. *)
Lemma autoRegenerateRoutines_general `{Env} userId (w : World) :
  (3 ≤ length (activeProducts userId w))%nat →
  ∃ w1 w',
    autoRegenerateRoutines userId w
    = (w', Ok (Regenerated
         (Nat.b2n (turnDone (posts (log w)) (activeProducts userId w)
                     (users w !! userId) morning)
          + Nat.b2n (turnDone (posts (log w1)) (activeProducts userId w)
                       (users w !! userId) night)))) ∧
    products w' = products w ∧ users w' = users w ∧
    routines w'
    = turn (posts (log w1)) userId (activeProducts userId w) (users w !! userId) night
        (turn (posts (log w)) userId (activeProducts userId w) (users w !! userId)
           morning (routines w)).
Proof.
  intros Henough.
  destruct (autoRegenerateRoutines_enough userId w Henough)
    as (w1 & w2 & b1 & b2 & H1 & H2 & ->).
  destruct (synthesize_general userId (activeProducts userId w) (users w !! userId)
              morning w) as (w1' & H1' & Hp1 & Hu1 & Hr1).
  destruct (synthesize_general userId (activeProducts userId w) (users w !! userId)
              night w1) as (w2' & H2' & Hp2 & Hu2 & Hr2).
  rewrite H1 in H1'. injection H1' as <- ->.
  rewrite H2 in H2'. injection H2' as <- ->.
  exists w1, w2. split; [done|]. split; [congruence|]. split; [congruence|].
  by rewrite Hr2, Hr1.
Qed.

(** X9. One turn of the loop never touches products or users. When it does
    not regenerate (the request failed, the reply was refused, or no step
    could be bound) the routines are as they were, so the routine of an
    earlier run survives; when it does, the new routine is the one AI routine
    of the user and type, and it has a step. *)
Theorem failed_synthesis_keeps_the_routines `{Env} (userId : nat)
    (catalog : list Product) (user : option User) (type : RoutineType)
    (w w' : World) (done : bool) :
  synthesize userId catalog user type w = (w', Ok done) →
  products w' = products w ∧ users w' = users w ∧
  (done = false → routines w' = routines w) ∧
  (done = true → ∃ r, unique_ai userId type (routines w') r ∧ steps r ≠ []).
Proof.
  intros Hrun.
  destruct (synthesize_general userId catalog user type w)
    as (w0 & Hrun' & Hp & Hu & Hr).
  rewrite Hrun in Hrun'. injection Hrun' as <- ->.
  split; [done|]. split; [done|]. rewrite Hr. unfold turn, turnDone.
  destruct (draftFor (posts (log w)) catalog user type)
    as [[aiRoutineData bound]|e]; [|by split].
  case_decide as Hsome.
  - rewrite bool_decide_eq_true_2 by done. split; [done|]. intros _.
    exists (aiRoutine userId type aiRoutineData bound).
    split; [by apply replaced_unique|].
    simpl. by destruct bound; [simpl in Hsome; lia|].
  - rewrite bool_decide_eq_false_2 by done. by split.
Qed.

Lemma failed_synthesis_keeps_the_routines_witness :
  ∃ w', @synthesize (scripted [Rejected (Some 429)]) 7 sampleCatalog
          (Some sampleUser) morning usedWorld = (w', Ok false) ∧
        routines w' = routines usedWorld.
Proof.
  destruct (@synthesize (scripted [Rejected (Some 429)]) 7 sampleCatalog
              (Some sampleUser) morning usedWorld) as [w' r] eqn:Hrun.
  assert (r = Ok false) as ->
    by (apply (f_equal snd) in Hrun; vm_compute in Hrun; by symmetry).
  exists w'. split; [done|].
  by apply (@failed_synthesis_keeps_the_routines (scripted [Rejected (Some 429)])
              7 sampleCatalog (Some sampleUser) morning usedWorld w' false Hrun).
Defined.

Lemma autoRegenerateRoutines_frame `{Env} (userId : nat) (w w' : World)
    (result : result RegenResult) :
  autoRegenerateRoutines userId w = (w', result) →
  products w' = products w ∧ users w' = users w ∧
  ∀ id r, routines w !! id = Some r →
          r_user r ≠ userId ∨ isAIGenerated r = false →
          routines w' !! id = Some r.
Proof.
  intros Hrun.
  destruct (decide (length (activeProducts userId w) < 3)%nat) as [Hfew|Henough].
  - rewrite (autoRegenerateRoutines_few userId w Hfew) in Hrun.
    injection Hrun as <- _. done.
  - destruct (autoRegenerateRoutines_general userId w) as (w1 & w2 & Hrun' & Hp & Hu & Hr);
      [lia|].
    rewrite Hrun in Hrun'. injection Hrun' as <- _.
    split; [done|]. split; [done|]. intros id r Hlookup Hother.
    rewrite Hr. by do 2 (apply turn_frame; [|done]).
Qed.

Lemma autoRegenerateRoutines_provenance `{Env} (userId : nat)
    (w w' : World) (result : result RegenResult) :
  autoRegenerateRoutines userId w = (w', result) →
  ∀ id r, routines w' !! id = Some r →
          routines w !! id = Some r ∨
          (r_user r = userId ∧ isAIGenerated r = true ∧
           r_name r = routineName (r_type r) ∧ steps r ≠ [] ∧
           Forall (usesActiveProduct userId w) (steps r)).
Proof.
  intros Hrun id r.
  destruct (decide (length (activeProducts userId w) < 3)%nat) as [Hfew|Henough].
  - rewrite (autoRegenerateRoutines_few userId w Hfew) in Hrun.
    injection Hrun as <- _. by left.
  - destruct (autoRegenerateRoutines_general userId w) as (w1 & w2 & Hrun' & Hp & Hu & Hr);
      [lia|].
    rewrite Hrun in Hrun'. injection Hrun' as <- _. rewrite Hr.
    assert (∀ type r,
      r_user r = userId ∧ r_type r = type ∧ isAIGenerated r = true ∧
      r_name r = routineName type ∧ steps r ≠ [] ∧
      Forall (λ step, ∃ p, p ∈ activeProducts userId w ∧ product step = p_id p) (steps r) →
      r_user r = userId ∧ isAIGenerated r = true ∧
      r_name r = routineName (r_type r) ∧ steps r ≠ [] ∧
      Forall (usesActiveProduct userId w) (steps r)) as Hnew.
    { intros type r' (? & <- & ? & ? & ? & Hall). repeat split; try done.
      eapply Forall_impl; [exact Hall|].
      intros step (p & (Hp' & Hin)%list_elem_of_filter & Hid).
      exists p. by destruct Hp'. }
    intros [Hold|Hnight]%turn_inv; [|right; by eapply Hnew].
    apply turn_inv in Hold as [Hold|Hmorning]; [by left|right; by eapply Hnew].
Qed.

(** X10. [autoRegenerateRoutines] changes no product and no user, and it
    leaves alone, under its id, every routine of another user and every
    routine that is not AI-generated. *)
Theorem regeneration_leaves_other_routines `{Env} (userId : nat) (w w' : World)
    (result : result RegenResult) :
  autoRegenerateRoutines userId w = (w', result) →
  products w' = products w ∧ users w' = users w ∧
  ∀ id r, routines w !! id = Some r →
          r_user r ≠ userId ∨ isAIGenerated r = false →
          routines w' !! id = Some r.
Proof. apply autoRegenerateRoutines_frame. Qed.

Lemma regeneration_leaves_other_routines_witness :
  routines (@autoRegenerateRoutines (answering (says fullDraft)) 7 usedWorld).1
    !! 10%nat
  = Some (routineOn [1%nat; 2%nat]).
Proof.
  destruct (@autoRegenerateRoutines (answering (says fullDraft)) 7 usedWorld)
    as [w' result] eqn:Hrun. cbn [fst].
  apply (@regeneration_leaves_other_routines (answering (says fullDraft))
           7 usedWorld w' result Hrun); [reflexivity|by right].
Defined.

(** X11. A routine found after [autoRegenerateRoutines] was there before,
    under the same id, or is an AI routine of the user with the name of its
    type, at least one step, and in every step an active product of that
    user. *)
Theorem regenerated_routines_use_active_products `{Env} (userId : nat)
    (w w' : World) (result : result RegenResult) :
  autoRegenerateRoutines userId w = (w', result) →
  ∀ id r, routines w' !! id = Some r →
          routines w !! id = Some r ∨
          (r_user r = userId ∧ isAIGenerated r = true ∧
           r_name r = routineName (r_type r) ∧ steps r ≠ [] ∧
           Forall (usesActiveProduct userId w) (steps r)).
Proof. apply autoRegenerateRoutines_provenance. Qed.

Lemma regenerated_routines_use_active_products_witness :
  ∃ id r,
    routines (@autoRegenerateRoutines (answering (says fullDraft)) 7 usedWorld).1
      !! id = Some r ∧
    r_type r = night ∧
    Forall (usesActiveProduct 7 usedWorld) (steps r).
Proof.
  destruct (@autoRegenerateRoutines (answering (says fullDraft)) 7 usedWorld)
    as [w' result] eqn:Hrun. cbn [fst].
  assert (∃ id r, routines w' !! id = Some r ∧ r_type r = night ∧
                  usedWorld.(routines) !! id = None) as (id & r & Hlookup & Htype & Hnew).
  { apply (f_equal fst) in Hrun. cbn [fst] in Hrun. subst w'.
    exists 12%nat. vm_compute. eexists. by repeat split. }
  exists id, r. split; [done|]. split; [done|].
  destruct (@regenerated_routines_use_active_products (answering (says fullDraft))
              7 usedWorld w' result Hrun id r Hlookup) as [Hold|(_ & _ & _ & _ & Hsteps)].
  - congruence.
  - done.
Defined.

Lemma posts_app (a b : list Event) : posts (a ++ b) = (posts a + posts b)%nat.
Proof. unfold posts. by rewrite filter_app, length_app. Qed.

Lemma creates_app (a b : list Event) : creates (a ++ b) = (creates a + creates b)%nat.
Proof. unfold creates. by rewrite filter_app, length_app. Qed.

Lemma count_writes userId type id :
  posts [EvRoutineDeleteMany userId type; EvRoutineCreate id] = 0%nat ∧
  creates [EvRoutineDeleteMany userId type; EvRoutineCreate id] = 1%nat.
Proof. done. Qed.

Lemma count_console line :
  posts [EvConsole line] = 0%nat ∧ creates [EvConsole line] = 0%nat.
Proof. done. Qed.

Lemma synthesize_no_user `{Env} userId catalog type (w : World) :
  synthesize userId catalog None type w
  = (add_log w (EvConsole (CouldNotRegenerate type TypeError)), Ok false).
Proof. reflexivity. Qed.

Lemma synthesize_no_key `{Env} userId catalog (u : User) type (w : World) :
  keyConfigured = false →
  synthesize userId catalog (Some u) type w
  = (add_logs w (EvConsole <$> [KeyNotFound; GeminiApiError ApiKeyMissing;
                                ErrorGeneratingRoutine ApiKeyMissing;
                                CouldNotRegenerate type ApiKeyMissing]),
     Ok false).
Proof.
  unfold keyConfigured. intros Hkey.
  unfold synthesize, synthesizeBody, generateSkincareRoutine, getGeminiResponse.
  destruct GEMINI_API_KEY as [[|c key]|]; [|done|];
    unfold try_catch; by logged.
Qed.

Lemma creates_console (lines : list ConsoleLine) : creates (EvConsole <$> lines) = 0%nat.
Proof. unfold creates. by induction lines. Qed.

Lemma creates_sent `{Env} (prompt : Prompt) (lines : list ConsoleLine) :
  creates ((if keyConfigured then [EvPost prompt] else []) ++ (EvConsole <$> lines))
  = 0%nat.
Proof. rewrite creates_app, creates_console. by destruct keyConfigured. Qed.

Lemma synthesize_log `{Env} userId catalog user type (w w' : World) (done : bool) :
  synthesize userId catalog user type w = (w', Ok done) →
  ∃ evs, log w' = log w ++ evs ∧ (posts evs ≤ 1)%nat ∧
         creates evs = Nat.b2n done ∧
         (keyConfigured = false ∨ user = None → posts evs = 0%nat).
Proof.
  destruct user as [u|].
  2:{ rewrite synthesize_no_user. intros [= <- <-].
      exists [EvConsole (CouldNotRegenerate type TypeError)].
      repeat split; try done; cbv; lia. }
  unfold synthesize. rewrite try_catch_run, synthesizeBody_eq.
  destruct (generateSkincareRoutine_run catalog type (skinType u) (skinConcerns u) w)
    as (lines & ->). cbn [fst].
  set (prompt := buildPrompt catalog type (skinType u) (skinConcerns u)).
  set (sent := (if keyConfigured then [EvPost prompt] else []) ++ (EvConsole <$> lines)).
  assert ((posts sent ≤ 1)%nat ∧ creates sent = 0%nat ∧
          (keyConfigured = false ∨ Some u = None → posts sent = 0%nat))
    as (Hsent & Hnone & Hkey).
  { subst sent. rewrite posts_sent, creates_sent.
    split; [destruct keyConfigured; lia|]. split; [done|].
    by intros [->|?]. }
  destruct (draftFor (posts (log w)) catalog (Some u) type)
    as [[aiRoutineData bound]|e].
  - destruct (decide (0 < length bound)%nat).
    + unfold Db.Routine_deleteMany_ai, Db.Routine_create, write, emit, read.
      rewrite !bind_run. intros [= <- <-].
      eexists (sent ++ [EvRoutineDeleteMany userId type; EvRoutineCreate _]).
      cbn [log add_log add_logs set_routines]. rewrite posts_app, creates_app, Hnone.
      match goal with
      | |- context [EvRoutineCreate ?id] =>
          destruct (count_writes userId type id) as [-> ->]
      end.
      split; [by rewrite <-!(assoc (++))|].
      split; [lia|]. split; [done|].
      intros Hor. rewrite (Hkey Hor). done.
    + intros [= <- <-]. exists sent. by rewrite Hnone.
  - intros [= <- <-]. exists (sent ++ [EvConsole (CouldNotRegenerate type e)]).
    cbn [log add_log add_logs]. rewrite posts_app, creates_app, Hnone.
    destruct (count_console (CouldNotRegenerate type e)) as [-> ->].
    split; [by rewrite <-(assoc (++))|].
    split; [lia|]. split; [done|].
    intros Hor. rewrite (Hkey Hor). done.
Qed.

(** X12. [autoRegenerateRoutines] always returns. It only adds to the log,
    sends at most two requests to the endpoint, none when it reports
    insufficient products, and the count it reports is the number of
    routines it created, at most two. *)
Theorem regeneration_makes_at_most_two_requests `{Env} (userId : nat) (w : World) :
  ∃ w' result evs,
    autoRegenerateRoutines userId w = (w', Ok result) ∧
    log w' = log w ++ evs ∧
    (posts evs ≤ 2)%nat ∧
    (result = Insufficient → posts evs = 0%nat ∧ creates evs = 0%nat) ∧
    (∀ count, result = Regenerated count → creates evs = count ∧ (count ≤ 2)%nat).
Proof.
  destruct (decide (length (activeProducts userId w) < 3)%nat) as [Hfew|Henough].
  - rewrite (autoRegenerateRoutines_few userId w Hfew).
    exists (add_log w (EvConsole NotEnoughProducts)), Insufficient,
      [EvConsole NotEnoughProducts].
    repeat split; try done; cbv; lia.
  - destruct (autoRegenerateRoutines_enough userId w) as (w1 & w2 & b1 & b2 & H1 & H2 & ->);
      [lia|].
    apply synthesize_log in H1 as (evs1 & Hlog1 & Hposts1 & Hcreates1 & _).
    apply synthesize_log in H2 as (evs2 & Hlog2 & Hposts2 & Hcreates2 & _).
    exists w2, (Regenerated (Nat.b2n b1 + Nat.b2n b2)), (evs1 ++ evs2).
    split; [done|]. split; [by rewrite Hlog2, Hlog1, <-(assoc (++))|].
    rewrite posts_app, creates_app. split; [lia|]. split; [done|].
    intros count [= <-]. split; [lia|]. destruct b1, b2; simpl; lia.
Qed.

(** X13. With three active products but no user record, or no API key,
    [autoRegenerateRoutines] sends no request and writes no routine, and
    the result still says [regenerated: true], with a count of 0. Without a
    user record each type fails with a type error before the service is
    called, and the loop writes one line for it to the console. Without a
    key each type fails with the missing-key error and leaves four lines on
    the console: the warning of line 13 and the errors of lines 78 and 211
    of the service, then the line of the loop. *)
Theorem regeneration_without_profile_or_key `{Env} (userId : nat) (w : World) :
  (3 ≤ length (activeProducts userId w))%nat →
  (users w !! userId = None →
   autoRegenerateRoutines userId w
   = (add_logs w (EvConsole <$> [CouldNotRegenerate morning TypeError;
                                 CouldNotRegenerate night TypeError]),
      Ok (Regenerated 0))) ∧
  (is_Some (users w !! userId) → keyConfigured = false →
   autoRegenerateRoutines userId w
   = (add_logs w (EvConsole <$> [KeyNotFound; GeminiApiError ApiKeyMissing;
                                 ErrorGeneratingRoutine ApiKeyMissing;
                                 CouldNotRegenerate morning ApiKeyMissing;
                                 KeyNotFound; GeminiApiError ApiKeyMissing;
                                 ErrorGeneratingRoutine ApiKeyMissing;
                                 CouldNotRegenerate night ApiKeyMissing]),
      Ok (Regenerated 0))).
Proof.
  intros Henough.
  destruct (autoRegenerateRoutines_enough userId w Henough)
    as (w1 & w2 & b1 & b2 & H1 & H2 & ->).
  split.
  - intros Hnone. rewrite Hnone in H1, H2.
    rewrite synthesize_no_user, add_log_logs in H1. injection H1 as <- <-.
    rewrite synthesize_no_user, add_log_logs in H2. injection H2 as <- <-.
    by rewrite add_logs_app.
  - intros [u Hu] Hkey. rewrite Hu in H1, H2.
    rewrite synthesize_no_key in H1 by done. injection H1 as <- <-.
    rewrite synthesize_no_key in H2 by done. injection H2 as <- <-.
    by rewrite add_logs_app.
Qed.

Lemma regeneration_without_profile_or_key_witness :
  @autoRegenerateRoutines (scripted []) 7 orphanWorld
  = (add_logs orphanWorld (EvConsole <$> [CouldNotRegenerate morning TypeError;
                                          CouldNotRegenerate night TypeError]),
     Ok (Regenerated 0)) ∧
  consoleLines (log (@autoRegenerateRoutines keyless 7 sampleWorld).1)
  = [KeyNotFound; GeminiApiError ApiKeyMissing; ErrorGeneratingRoutine ApiKeyMissing;
     CouldNotRegenerate morning ApiKeyMissing;
     KeyNotFound; GeminiApiError ApiKeyMissing; ErrorGeneratingRoutine ApiKeyMissing;
     CouldNotRegenerate night ApiKeyMissing] ∧
  (@autoRegenerateRoutines keyless 7 sampleWorld).2 = Ok (Regenerated 0).
Proof.
  split.
  - apply (@regeneration_without_profile_or_key (scripted []) 7 orphanWorld);
      [vm_compute; lia|reflexivity].
  - assert (3 ≤ length (activeProducts 7 sampleWorld))%nat as Henough
      by (vm_compute; lia).
    destruct (@regeneration_without_profile_or_key keyless 7 sampleWorld Henough)
      as [_ Hkeyless].
    rewrite Hkeyless; [by split|by eexists|reflexivity].
Defined.

(** ** The handlers of the product controller *)

Lemma background_run `{Env} (userId : nat) (w : World) :
  ∃ w', background userId w = (w', Ok tt) ∧
        products w' = products (autoRegenerateRoutines userId w).1 ∧
        users w' = users (autoRegenerateRoutines userId w).1 ∧
        routines w' = routines (autoRegenerateRoutines userId w).1.
Proof.
  unfold background. rewrite try_catch_run, bind_run.
  assert (∃ w1 r, autoRegenerateRoutines userId w = (w1, Ok r)) as (w1 & r & ->).
  { destruct (decide (length (activeProducts userId w) < 3)%nat) as [Hfew|Henough].
    - rewrite (autoRegenerateRoutines_few userId w Hfew). eauto.
    - destruct (autoRegenerateRoutines_enough userId w)
        as (? & ? & ? & ? & _ & _ & ->); [lia|eauto]. }
  destruct r; by eexists.
Qed.

Lemma serve_unscheduled `{Env} (h : M Reply) (w w' : World) (r : Response) :
  h w = (w', Ok {| response := r; scheduled := None |}) →
  serve h w = (w', Ok {| response := r; scheduled := None |}).
Proof.
  intros Hh. unfold serve, handle. by rewrite bind_run, try_catch_run, Hh.
Qed.

Lemma serve_scheduled `{Env} (h : M Reply) (w w1 : World) (r : Response) (userId : nat) :
  h w = (w1, Ok {| response := r; scheduled := Some userId |}) →
  ∃ w', serve h w = (w', Ok {| response := r; scheduled := Some userId |}) ∧
        products w' = products (autoRegenerateRoutines userId w1).1 ∧
        users w' = users (autoRegenerateRoutines userId w1).1 ∧
        routines w' = routines (autoRegenerateRoutines userId w1).1.
Proof.
  intros Hh. unfold serve, handle. rewrite bind_run, try_catch_run, Hh.
  cbn [scheduled]. rewrite bind_run.
  destruct (background_run userId w1) as (w' & -> & Hframe). by exists w'.
Qed.

Lemma serve_routines `{Env} (h : M Reply) (w w1 : World) (reply : Reply) :
  h w = (w1, Ok reply) →
  (serve h w).1
  = match scheduled reply with
    | Some userId => (background userId w1).1
    | None => w1
    end.
Proof.
  intros Hh. unfold serve, handle. rewrite bind_run, try_catch_run, Hh.
  rewrite bind_run. destruct (scheduled reply) as [userId|]; [|done].
  by destruct (background_run userId w1) as (w' & -> & _).
Qed.

Lemma background_data `{Env} (userId : nat) (w : World) :
  same_data (background userId w).1 (autoRegenerateRoutines userId w).1.
Proof. by destruct (background_run userId w) as (w' & -> & ? & ? & ?). Qed.

Lemma handlers_unknown (reqUser id : nat) (body : ProductBody) (w : World) :
  List.find (λ q, bool_decide (p_id q = id)) (products w) = None →
  getProduct reqUser id w = (w, Ok FetchedNotFound) ∧
  updateProduct reqUser id body w
    = (w, Ok {| response := NotFound; scheduled := None |}) ∧
  deleteProduct reqUser id w
    = (w, Ok {| response := NotFound; scheduled := None |}).
Proof.
  intros Hnone.
  unfold getProduct, updateProduct, deleteProduct, Db.Product_findById, read.
  by rewrite !bind_run, Hnone.
Qed.

Lemma handlers_foreign (reqUser id : nat) (body : ProductBody) (w : World)
    (p : Product) :
  List.find (λ q, bool_decide (p_id q = id)) (products w) = Some p →
  p_user p ≠ reqUser →
  getProduct reqUser id w = (w, Ok FetchedNotAuthorized) ∧
  updateProduct reqUser id body w
    = (w, Ok {| response := NotAuthorized; scheduled := None |}) ∧
  deleteProduct reqUser id w
    = (w, Ok {| response := NotAuthorized; scheduled := None |}).
Proof.
  intros Hfound Hother.
  unfold getProduct, updateProduct, deleteProduct, Db.Product_findById, read.
  by rewrite !bind_run, Hfound, !decide_True.
Qed.

(** X14. A request for a product that does not exist is answered with 404,
    and one for a product of another user with 403, by [getProduct],
    [updateProduct] and [deleteProduct] alike; nothing is written, nothing is
    logged and no regeneration is started. *)
Theorem foreign_or_unknown_product_is_left_alone `{Env} (reqUser id : nat)
    (body : ProductBody) (w : World) :
  (List.find (λ q, bool_decide (p_id q = id)) (products w) = None →
   getProduct reqUser id w = (w, Ok FetchedNotFound) ∧
   serve (updateProduct reqUser id body) w
     = (w, Ok {| response := NotFound; scheduled := None |}) ∧
   serve (deleteProduct reqUser id) w
     = (w, Ok {| response := NotFound; scheduled := None |})) ∧
  (∀ p, List.find (λ q, bool_decide (p_id q = id)) (products w) = Some p →
        p_user p ≠ reqUser →
        getProduct reqUser id w = (w, Ok FetchedNotAuthorized) ∧
        serve (updateProduct reqUser id body) w
          = (w, Ok {| response := NotAuthorized; scheduled := None |}) ∧
        serve (deleteProduct reqUser id) w
          = (w, Ok {| response := NotAuthorized; scheduled := None |})).
Proof.
  split.
  - intros (? & ? & ?)%(handlers_unknown reqUser id body w).
    split; [done|]. split; by apply serve_unscheduled.
  - intros p Hfound Hother.
    destruct (handlers_foreign reqUser id body w p Hfound Hother) as (? & ? & ?).
    split; [done|]. split; by apply serve_unscheduled.
Qed.

Lemma deleteProduct_run (reqUser id : nat) (w : World) (p : Product) :
  List.find (λ q, bool_decide (p_id q = id)) (products w) = Some p →
  p_user p = reqUser →
  ∃ w' n,
    deleteProduct reqUser id w
      = (w', Ok {| response := Deleted n true; scheduled := Some reqUser |}) ∧
    products w' = filter (λ q, p_id q ≠ id) (products w) ∧
    users w' = users w ∧
    ∀ rid, routines w' !! rid
           = match routines w !! rid with
             | Some r => if decide (r_user r = reqUser ∧ Db.references id r)
                         then repaired id r else Some r
             | None => None
             end.
Proof.
  intros Hfound Howner.
  unfold deleteProduct, Db.Product_findById, Db.Routine_find_using,
    Db.Product_findByIdAndDelete, read, write, emit.
  rewrite bind_run, Hfound, decide_False by (intros Hne; by apply Hne).
  rewrite !bind_run, repairRoutines_run. eexists _, _.
  split; [reflexivity|]. split; [done|]. split; [done|].
  intros rid. cbn [routines add_log set_products]. apply repair_lookup.
Qed.

Lemma find_filtered_out (id : nat) (l : list Product) :
  List.find (λ q, bool_decide (p_id q = id)) (filter (λ q, p_id q ≠ id) l) = None.
Proof.
  apply find_none, Forall_forall. intros q [Hne _]%list_elem_of_filter.
  by apply bool_decide_eq_false_2.
Qed.

Lemma repaired_user (id : nat) (r r' : Routine) :
  repaired id r = Some r' → r_user r' = r_user r ∧ steps r' ≠ [] ∧ ¬ Db.references id r'.
Proof.
  intros Hrep.
  destruct (decide (kept id r = [])) as [Hnone|Hsome].
  - by rewrite (repaired_none id r Hnone) in Hrep.
  - destruct (repaired_some id r Hsome) as (r0 & Hrep' & Hdense & Hcontent & Hrest & Hnot).
    rewrite Hrep in Hrep'. injection Hrep' as <-.
    split; [by rewrite <-Hrest|]. split; [|done].
    intros Hnil. rewrite Hnil in Hcontent. by destruct (kept id r).
Qed.

(** X15. After [deleteProduct] was served for a product of the caller, the
    regeneration it starts included: no product has the id any more, no
    routine of the caller uses it in a step, a routine without steps is one
    that was already there, and the same request again is answered with 404
    and changes nothing. *)
Theorem deleted_product_leaves_no_reference `{Env} (reqUser id : nat) (w : World)
    (p : Product) :
  List.find (λ q, bool_decide (p_id q = id)) (products w) = Some p →
  p_user p = reqUser →
  ∃ w' n,
    serve (deleteProduct reqUser id) w
      = (w', Ok {| response := Deleted n true; scheduled := Some reqUser |}) ∧
    (∀ q, q ∈ products w' → p_id q ≠ id) ∧
    (∀ rid r, routines w' !! rid = Some r → r_user r = reqUser →
              ¬ Db.references id r) ∧
    (∀ rid r, routines w' !! rid = Some r → steps r = [] →
              routines w !! rid = Some r) ∧
    serve (deleteProduct reqUser id) w'
      = (w', Ok {| response := NotFound; scheduled := None |}).
Proof.
  intros Hfound Howner.
  destruct (deleteProduct_run reqUser id w p Hfound Howner)
    as (w1 & n & Hrun & Hproducts & Husers & Hroutines).
  destruct (serve_scheduled _ _ _ _ _ Hrun) as (w' & Hserve & Hp & Hu & Hr).
  destruct (autoRegenerateRoutines reqUser w1) as [w2 result] eqn:Hregen.
  cbn [fst] in Hp, Hu, Hr.
  destruct (autoRegenerateRoutines_frame reqUser w1 w2 result Hregen)
    as (Hp2 & Hu2 & _).
  pose proof (autoRegenerateRoutines_provenance reqUser w1 w2 result Hregen)
    as Hnew.
  assert (∀ q, q ∈ products w' → p_id q ≠ id) as Hgone.
  { intros q. rewrite Hp, Hp2, Hproducts. by intros [? _]%list_elem_of_filter. }
  exists w', n. split; [done|]. split; [done|]. split; [|split].
  - intros rid r. rewrite Hr. intros Hlookup Huser.
    destruct (Hnew rid r Hlookup) as [Hold|(_ & _ & _ & _ & Hsteps)].
    + rewrite Hroutines in Hold.
      destruct (routines w !! rid) as [r0|]; [|done].
      case_decide as Haffected.
      * by apply repaired_user in Hold as (_ & _ & ?).
      * injection Hold as ->. intros Href. apply Haffected. by split.
    + unfold Db.references. rewrite Exists_exists.
      intros (step & Hin & Hid).
      rewrite Forall_forall in Hsteps.
      destruct (Hsteps step Hin) as (q & Hq & _ & _ & Hstep).
      rewrite Hproducts in Hq. apply list_elem_of_filter in Hq as [Hne _].
      congruence.
  - intros rid r. rewrite Hr. intros Hlookup Hempty.
    destruct (Hnew rid r Hlookup) as [Hold|(_ & _ & _ & ? & _)]; [|done].
    rewrite Hroutines in Hold.
    destruct (routines w !! rid) as [r0|]; [|done].
    case_decide as Haffected; [|done].
    by apply repaired_user in Hold as (_ & ? & _).
  - apply serve_unscheduled.
    unfold deleteProduct, Db.Product_findById, read.
    rewrite bind_run, Hp, Hp2, Hproducts, find_filtered_out. done.
Qed.

Lemma deleted_product_leaves_no_reference_witness :
  ∃ w' n,
    @serve (scripted []) (deleteProduct 7 2) routineWorld
      = (w', Ok {| response := Deleted n true; scheduled := Some 7%nat |}) ∧
    ∀ rid r, routines w' !! rid = Some r → r_user r = 7%nat → ¬ Db.references 2 r.
Proof.
  destruct (@deleted_product_leaves_no_reference (scripted []) 7 2 routineWorld
              (sampleProduct 2 7 "The Ordinary Niacinamide" "serum")
              eq_refl eq_refl) as (w' & n & Hrun & _ & Hclean & _).
  by exists w', n.
Defined.

Lemma createProduct_run (reqUser : nat) (body : ProductBody) (w : World) :
  let id := fresh (list_to_set (p_id <$> products w) : gset nat) in
  createProduct reqUser body w
  = (add_log (set_products w (products w ++ [newProduct id reqUser body]))
       (EvProductCreate id),
     Ok {| response := Created (newProduct id reqUser body) true;
           scheduled := Some reqUser |}).
Proof. reflexivity. Qed.

Lemma updateProduct_total (reqUser id : nat) (body : ProductBody) (w : World) :
  ∃ w1 r s,
    updateProduct reqUser id body w = (w1, Ok {| response := r; scheduled := s |}) ∧
    routines w1 = routines w ∧ users w1 = users w ∧
    posts (log w1) = posts (log w) ∧
    (s = None ∨ s = Some reqUser) ∧
    (significantChange body = false → s = None).
Proof.
  unfold updateProduct, Db.Product_findById, Db.Product_replace, read, write, emit.
  rewrite bind_run.
  destruct (List.find _ (products w)) as [p|];
    [|eexists _, _, _; split; [reflexivity|]; by auto 10].
  case_decide; [eexists _, _, _; split; [reflexivity|]; by auto 10|].
  rewrite !bind_run. eexists _, _, _. split; [reflexivity|].
  cbn [routines users log add_log set_products].
  split; [done|]. split; [done|].
  split; [rewrite posts_app; cbv [posts]; simpl; lia|].
  destruct (significantChange body); split; auto; done.
Qed.

(** X16. Serving [createProduct] or [updateProduct], regeneration
    included, leaves every routine the user made by hand, and every routine
    of another user, as it was. *)
Theorem manual_routines_survive_create_and_update `{Env} (reqUser id : nat)
    (body : ProductBody) (w : World) (rid : nat) (r : Routine) :
  routines w !! rid = Some r →
  isAIGenerated r = false ∨ r_user r ≠ reqUser →
  routines (serve (createProduct reqUser body) w).1 !! rid = Some r ∧
  routines (serve (updateProduct reqUser id body) w).1 !! rid = Some r.
Proof.
  intros Hlookup Hmanual.
  assert (r_user r ≠ reqUser ∨ isAIGenerated r = false) as Hother by tauto.
  split.
  - destruct (serve_scheduled _ _ _ _ _ (createProduct_run reqUser body w))
      as (w' & Hserve & _ & _ & Hr). rewrite Hserve. cbn [fst]. rewrite Hr.
    destruct (autoRegenerateRoutines reqUser _) as [w2 result] eqn:Hregen.
    by apply (autoRegenerateRoutines_frame _ _ _ _ Hregen).
  - destruct (updateProduct_total reqUser id body w)
      as (w1 & resp & s & Hrun & Hr & _ & _ & [->| ->] & _).
    + rewrite (serve_unscheduled _ _ _ _ Hrun). cbn [fst]. by rewrite Hr.
    + destruct (serve_scheduled _ _ _ _ _ Hrun) as (w' & Hserve & _ & _ & Hr').
      rewrite Hserve. cbn [fst]. rewrite Hr'.
      destruct (autoRegenerateRoutines reqUser w1) as [w2 result] eqn:Hregen.
      apply (autoRegenerateRoutines_frame _ _ _ _ Hregen); [|done]. by rewrite Hr.
Qed.

Lemma manual_routines_survive_create_and_update_witness :
  routines (@serve (answering (says fullDraft))
              (updateProduct 7 1 (activeOnly true)) usedWorld).1 !! 10%nat
  = Some (routineOn [1%nat; 2%nat]).
Proof.
  apply (@manual_routines_survive_create_and_update (answering (says fullDraft))
           7 1 (activeOnly true) usedWorld 10 (routineOn [1%nat; 2%nat]));
    [reflexivity|by left].
Defined.

(** X17. An update whose body carries no type, no usage and no active
    flag is served by the handler alone: no regeneration runs, no request
    goes to the endpoint and no routine changes. *)
Theorem insignificant_update_starts_no_regeneration `{Env} (reqUser id : nat)
    (body : ProductBody) (w : World) :
  significantChange body = false →
  serve (updateProduct reqUser id body) w = updateProduct reqUser id body w ∧
  posts (log (serve (updateProduct reqUser id body) w).1) = posts (log w) ∧
  routines (serve (updateProduct reqUser id body) w).1 = routines w.
Proof.
  intros Hplain.
  destruct (updateProduct_total reqUser id body w)
    as (w1 & resp & s & Hrun & Hr & _ & Hposts & _ & Hnone).
  rewrite (Hnone Hplain) in Hrun.
  by rewrite (serve_unscheduled _ _ _ _ Hrun), Hrun.
Qed.

Lemma insignificant_update_starts_no_regeneration_witness :
  posts (log (@serve (answering (says fullDraft))
                (updateProduct 7 1 (nameOnly (str "Gentle Cleanser"))) usedWorld).1)
  = posts (log usedWorld).
Proof.
  apply (@insignificant_update_starts_no_regeneration (answering (says fullDraft))
           7 1 (nameOnly (str "Gentle Cleanser")) usedWorld).
  reflexivity.
Defined.

Lemma find_last {A} (f : A → bool) (l : list A) (x : A) :
  Forall (λ y, f y = false) l → f x = true → List.find f (l ++ [x]) = Some x.
Proof. intros Hl Hx. apply find_first. by exists l, []. Qed.

(** X18. [createProduct] stores one product more, owned by the caller,
    under an id no other product has, and touches no routine; [getProduct]
    then returns that product to the caller and answers 403 to anyone
    else. *)
Theorem created_product_can_be_fetched (reqUser : nat) (body : ProductBody)
    (w : World) :
  ∃ w' p,
    createProduct reqUser body w
      = (w', Ok {| response := Created p true; scheduled := Some reqUser |}) ∧
    p_user p = reqUser ∧
    (p_id p ∉ (p_id <$> products w)) ∧
    products w' = products w ++ [p] ∧ routines w' = routines w ∧
    getProduct reqUser (p_id p) w' = (w', Ok (FetchedProduct p)) ∧
    (∀ other, other ≠ reqUser →
              getProduct other (p_id p) w' = (w', Ok FetchedNotAuthorized)).
Proof.
  rewrite createProduct_run.
  set (id := fresh (list_to_set (p_id <$> products w) : gset nat)).
  assert (id ∉ p_id <$> products w) as Hfresh.
  { intros Hin. apply (is_fresh (list_to_set (p_id <$> products w) : gset nat)).
    by apply elem_of_list_to_set. }
  eexists _, (newProduct id reqUser body). split; [reflexivity|].
  split; [done|]. split; [done|]. split; [done|]. split; [done|].
  assert (List.find (λ q, bool_decide (p_id q = id))
            (products w ++ [newProduct id reqUser body])
          = Some (newProduct id reqUser body)) as Hfind.
  { apply find_last; [|by apply bool_decide_eq_true_2].
    apply Forall_forall. intros q Hq. apply bool_decide_eq_false_2.
    intros Hid. apply Hfresh. rewrite <-Hid. apply list_elem_of_fmap. by exists q. }
  split.
  - unfold getProduct, Db.Product_findById, read. rewrite bind_run.
    cbn [products add_log set_products p_id newProduct]. rewrite Hfind.
    by rewrite decide_False by (intros Hne; by apply Hne).
  - intros other Hother.
    unfold getProduct, Db.Product_findById, read. rewrite bind_run.
    cbn [products add_log set_products p_id newProduct]. rewrite Hfind.
    by rewrite decide_True by (simpl; congruence).
Qed.

Lemma renumber_from_dense (n : nat) (l : list Step) :
  stepNumber <$> l = (λ i, Some (num (Z.of_nat i))) <$> seq (S n) (length l) →
  imap (λ i step, with_stepNumber step (Some (num (Z.of_nat (n + i) + 1)))) l = l.
Proof.
  revert n. induction l as [|step l IH]; intros n; [done|].
  cbn [fmap list_fmap length seq]. intros [= Hhead Htail].
  rewrite imap_cons. f_equal.
  - destruct step as [number ? ? ?]. simpl in Hhead. subst number.
    unfold with_stepNumber. simpl. do 3 f_equal. lia.
  - rewrite <-(IH (S n) Htail) at 2. apply imap_ext. intros i x _. simpl.
    do 3 f_equal. lia.
Qed.

(** X19. The renumbering of [deleteProduct] changes a list of steps
    exactly when its numbers are not 1, 2, ..., N already; applied twice it
    does what it does once, and it keeps the number of steps. *)
Theorem renumber_fixes_dense_steps (l : list Step) :
  (renumber l = l ↔ dense l) ∧ renumber (renumber l) = renumber l ∧
  length (renumber l) = length l.
Proof.
  assert (∀ l, dense l → renumber l = l) as Hfix
    by (intros l' Hdense; apply (renumber_from_dense 0 l' Hdense)).
  split; [|split].
  - split; [|apply Hfix]. intros <-. apply dense_renumber.
  - apply Hfix, dense_renumber.
  - unfold renumber. apply length_imap.
Qed.

Lemma posts_repairs (id : nat) (l : list (nat * Routine)) :
  posts (repairEvent id <$> l) = 0%nat.
Proof.
  induction l as [|kr l IH]; [done|].
  rewrite fmap_cons.
  change (repairEvent id kr :: (repairEvent id <$> l))
    with ([repairEvent id kr] ++ (repairEvent id <$> l)).
  rewrite posts_app, IH. unfold repairEvent. by case_decide.
Qed.

Lemma deleteProduct_posts (reqUser id : nat) (w : World) :
  posts (log (deleteProduct reqUser id w).1) = posts (log w).
Proof.
  unfold deleteProduct, Db.Product_findById, Db.Routine_find_using,
    Db.Product_findByIdAndDelete, read, write, emit.
  rewrite bind_run.
  destruct (List.find _ (products w)) as [p|]; [|done].
  case_decide; [done|].
  rewrite !bind_run, repairRoutines_run. unfold mbind, M_bind.
  cbn [mret M_ret fst log add_log set_products].
  rewrite !posts_app, posts_repairs. cbv [posts]. simpl. lia.
Qed.

Lemma deleteProduct_total (reqUser id : nat) (w : World) :
  ∃ w1 reply, deleteProduct reqUser id w = (w1, Ok reply) ∧
              (scheduled reply = None ∨ scheduled reply = Some reqUser).
Proof.
  unfold deleteProduct, Db.Product_findById, Db.Routine_find_using,
    Db.Product_findByIdAndDelete, read, write, emit.
  rewrite bind_run.
  destruct (List.find _ (products w)) as [p|]; [|eexists _, _; by eauto].
  case_decide; [eexists _, _; by eauto|].
  rewrite !bind_run, repairRoutines_run. eexists _, _. split; [reflexivity|]. by right.
Qed.

Lemma serve_few `{Env} (h : M Reply) (reqUser : nat) (w w1 : World) (reply : Reply) :
  h w = (w1, Ok reply) →
  scheduled reply = None ∨ scheduled reply = Some reqUser →
  (length (activeProducts reqUser w1) < 3)%nat →
  posts (log (serve h w).1) = posts (log w1) ∧
  routines (serve h w).1 = routines w1 ∧
  products (serve h w).1 = products w1.
Proof.
  intros Hh Hscheduled Hfew. rewrite (serve_routines _ _ _ _ Hh).
  destruct Hscheduled as [-> | ->]; [done|].
  unfold background. rewrite try_catch_run, bind_run.
  rewrite (autoRegenerateRoutines_few reqUser w1 Hfew).
  cbn [mret M_ret fst log add_log routines products].
  rewrite posts_app. split; [|done]. cbv [posts]. simpl. lia.
Qed.

(** X27. When fewer than three active products of the caller are left
    after the write, serving [createProduct], [updateProduct] or
    [deleteProduct] sends nothing to the endpoint, and the routines stay as
    the handler left them; after a create or an update, as they were. *)
Theorem below_three_products_no_request_is_sent `{Env} (reqUser id : nat)
    (body : ProductBody) (w : World) :
  ((length (activeProducts reqUser (createProduct reqUser body w).1) < 3)%nat →
   posts (log (serve (createProduct reqUser body) w).1) = posts (log w) ∧
   routines (serve (createProduct reqUser body) w).1 = routines w) ∧
  ((length (activeProducts reqUser (updateProduct reqUser id body w).1) < 3)%nat →
   posts (log (serve (updateProduct reqUser id body) w).1) = posts (log w) ∧
   routines (serve (updateProduct reqUser id body) w).1 = routines w) ∧
  ((length (activeProducts reqUser (deleteProduct reqUser id w).1) < 3)%nat →
   posts (log (serve (deleteProduct reqUser id) w).1) = posts (log w) ∧
   routines (serve (deleteProduct reqUser id) w).1
   = routines (deleteProduct reqUser id w).1).
Proof.
  split; [|split].
  - rewrite createProduct_run. cbn [fst]. intros Hfew.
    destruct (serve_few _ reqUser _ _ _ (createProduct_run reqUser body w))
      as (-> & -> & _); [by right|done|].
    cbn [log routines add_log set_products]. split; [|done].
    rewrite posts_app. cbv [posts]. simpl. lia.
  - destruct (updateProduct_total reqUser id body w)
      as (w1 & r & s & Hrun & Hr & _ & Hposts & Hs & _).
    rewrite Hrun. cbn [fst]. intros Hfew.
    destruct (serve_few _ reqUser _ _ _ Hrun) as (-> & -> & _); done.
  - pose proof (deleteProduct_posts reqUser id w) as Hposts.
    destruct (deleteProduct_total reqUser id w) as (w1 & reply & Hrun & Hs).
    rewrite Hrun in *. cbn [fst] in *. intros Hfew.
    destruct (serve_few _ reqUser _ _ _ Hrun) as (-> & -> & _); done.
Qed.

Lemma below_three_products_no_request_is_sent_witness :
  posts (log (@serve (answering (says fullDraft))
                (updateProduct 7 1 (activeOnly true)) smallWorld).1) = 0%nat.
Proof.
  destruct (@below_three_products_no_request_is_sent (answering (says fullDraft))
              7 1 (activeOnly true) smallWorld) as (_ & Hupdate & _).
  destruct Hupdate as [-> _]; [vm_compute; lia|reflexivity].
Defined.

(** ** Invariants of the served requests *)

Lemma replaced_aiUnique (userId : nat) (type : RoutineType) (r : Routine)
    (m : gmap nat Routine) :
  ai_slot userId type r → aiUnique m → aiUnique (replaced userId type r m).
Proof.
  intros (Hu & Ht & Hai) Hm id id' r1 r2 H1 H2 Hai1 Hai2 Huser Htype.
  apply replaced_lookup in H1 as [[-> ->]|(Hne1 & H1 & Hnot1)];
    apply replaced_lookup in H2 as [[-> ->]|(Hne2 & H2 & Hnot2)].
  - done.
  - destruct Hnot2. repeat split; congruence.
  - destruct Hnot1. repeat split; congruence.
  - by eapply Hm.
Qed.

Lemma turn_aiUnique `{Env} (n userId : nat) catalog user type (m : gmap nat Routine) :
  aiUnique m → aiUnique (turn n userId catalog user type m).
Proof.
  intros Hm. unfold turn.
  destruct (draftFor n catalog user type) as [[aiRoutineData steps]|e]; [|done].
  case_decide; [|done]. by apply replaced_aiUnique.
Qed.

Lemma autoRegenerateRoutines_aiUnique `{Env} (userId : nat) (w : World) :
  aiUnique (routines w) → aiUnique (routines (autoRegenerateRoutines userId w).1).
Proof.
  intros Hm.
  destruct (decide (length (activeProducts userId w) < 3)%nat) as [Hfew|Henough].
  - by rewrite (autoRegenerateRoutines_few userId w Hfew).
  - destruct (autoRegenerateRoutines_general userId w) as (w1 & w2 & Hrun & _ & _ & Hr);
      [lia|].
    rewrite Hrun. cbn [fst]. rewrite Hr. by do 2 apply turn_aiUnique.
Qed.

Lemma repaired_same (id : nat) (r r' : Routine) :
  repaired id r = Some r' →
  r_user r' = r_user r ∧ r_type r' = r_type r ∧ isAIGenerated r' = isAIGenerated r ∧
  steps r' = renumber (kept id r).
Proof. unfold repaired. case_decide; [done|]. by intros [= <-]. Qed.

Lemma repair_aiUnique (reqUser id : nat) (m m' : gmap nat Routine) :
  (∀ rid, m' !! rid
          = match m !! rid with
            | Some r => if decide (r_user r = reqUser ∧ Db.references id r)
                        then repaired id r else Some r
            | None => None
            end) →
  aiUnique m → aiUnique m'.
Proof.
  intros Hlookup Hm.
  assert (∀ rid r', m' !! rid = Some r' →
            ∃ r, m !! rid = Some r ∧ r_user r' = r_user r ∧ r_type r' = r_type r ∧
                 isAIGenerated r' = isAIGenerated r) as Hback.
  { intros rid r'. rewrite Hlookup.
    destruct (m !! rid) as [r|]; [|done].
    case_decide.
    - intros (? & ? & ? & _)%repaired_same. by exists r.
    - intros [= <-]. by exists r. }
  intros id1 id2 r1 r2 H1 H2 Hai1 Hai2 Huser Htype.
  apply Hback in H1 as (x1 & H1 & Hu1 & Ht1 & Ha1).
  apply Hback in H2 as (x2 & H2 & Hu2 & Ht2 & Ha2).
  eapply (Hm id1 id2 x1 x2); congruence.
Qed.

(** X20. If no user has two AI-generated routines of one type, this is
    still so after [autoRegenerateRoutines], and after [createProduct],
    [updateProduct] or [deleteProduct] was served, regeneration included. *)
Theorem served_requests_keep_one_ai_routine_per_type `{Env} (reqUser id : nat)
    (body : ProductBody) (w : World) :
  aiUnique (routines w) →
  aiUnique (routines (autoRegenerateRoutines reqUser w).1) ∧
  aiUnique (routines (serve (createProduct reqUser body) w).1) ∧
  aiUnique (routines (serve (updateProduct reqUser id body) w).1) ∧
  aiUnique (routines (serve (deleteProduct reqUser id) w).1).
Proof.
  intros Hm.
  assert (∀ userId w1, aiUnique (routines w1) →
            aiUnique (routines (background userId w1).1)) as Hbackground.
  { intros userId w1 Hw1. destruct (background_data userId w1) as (_ & _ & ->).
    by apply autoRegenerateRoutines_aiUnique. }
  split; [by apply autoRegenerateRoutines_aiUnique|]. split; [|split].
  - rewrite (serve_routines _ _ _ _ (createProduct_run reqUser body w)).
    by apply Hbackground.
  - destruct (updateProduct_total reqUser id body w)
      as (w1 & r & s & Hrun & Hr & _ & _ & _ & _).
    rewrite (serve_routines _ _ _ _ Hrun). cbn [scheduled].
    destruct s; [apply Hbackground|]; by rewrite Hr.
  - destruct (List.find (λ q, bool_decide (p_id q = id)) (products w)) as [p|] eqn:Hfound.
    + destruct (decide (p_user p = reqUser)) as [Howner|Hother].
      * destruct (deleteProduct_run reqUser id w p Hfound Howner)
          as (w1 & n & Hrun & _ & _ & Hroutines).
        rewrite (serve_routines _ _ _ _ Hrun). cbn [scheduled].
        apply Hbackground. by eapply repair_aiUnique.
      * destruct (handlers_foreign reqUser id body w p Hfound Hother) as (_ & _ & Hrun).
        by rewrite (serve_unscheduled _ _ _ _ Hrun).
    + destruct (handlers_unknown reqUser id body w Hfound) as (_ & _ & Hrun).
      by rewrite (serve_unscheduled _ _ _ _ Hrun).
Qed.

Lemma served_requests_keep_one_ai_routine_per_type_witness :
  aiUnique (routines usedWorld) ∧
  aiUnique (routines (@serve (answering (says fullDraft)) (deleteProduct 7 3)
                        usedWorld).1).
Proof.
  assert (aiUnique (routines usedWorld)) as Hunique.
  { intros id id' r r' Hr Hr' Hai Hai' _ _.
    assert (∀ i x, routines usedWorld !! i = Some x → isAIGenerated x = true →
                   i = 11%nat) as Honly.
    { intros i x Hx Hx'.
      destruct (decide (i = 10%nat)) as [->|]; [vm_compute in Hx; by simplify_eq|].
      destruct (decide (i = 11%nat)) as [->|]; [done|].
      unfold usedWorld in Hx. cbn [routines] in Hx.
      rewrite lookup_insert_ne, lookup_singleton_ne in Hx by done. done. }
    by rewrite (Honly id r), (Honly id' r'). }
  split; [done|].
  apply (@served_requests_keep_one_ai_routine_per_type (answering (says fullDraft))
           7 3 (activeOnly true) usedWorld Hunique).
Defined.

Lemma find_elem {A} (f : A → bool) (l : list A) (x : A) :
  List.find f l = Some x → x ∈ l ∧ f x = true.
Proof.
  intros (before & after & -> & Hx & _)%find_first. split; [|done].
  apply elem_of_app. right. by left.
Qed.

Lemma ids_inj (l : list Product) (p q : Product) :
  NoDup (p_id <$> l) → p ∈ l → q ∈ l → p_id p = p_id q → p = q.
Proof.
  induction l as [|x l IH]; [by intros _ ?%elem_of_nil|].
  rewrite fmap_cons. intros [Hx Hl]%NoDup_cons.
  intros [->|Hp]%elem_of_cons [->|Hq]%elem_of_cons Hid; [done|..].
  - destruct Hx. rewrite Hid. apply list_elem_of_fmap. by exists q.
  - destruct Hx. rewrite <-Hid. apply list_elem_of_fmap. by exists p.
  - by apply IH.
Qed.

Lemma ids_filter (P : Product → Prop) `{∀ q, Decision (P q)} (l : list Product) :
  NoDup (p_id <$> l) → NoDup (p_id <$> filter P l).
Proof.
  induction l as [|x l IH]; [done|].
  rewrite fmap_cons. intros [Hx Hl]%NoDup_cons.
  rewrite filter_cons. case_decide; [|by apply IH].
  rewrite fmap_cons. apply NoDup_cons. split; [|by apply IH].
  intros (q & Hid & [_ Hq]%list_elem_of_filter)%list_elem_of_fmap.
  apply Hx. apply list_elem_of_fmap. by exists q.
Qed.

Lemma product_renumber (l : list Step) : product <$> renumber l = product <$> l.
Proof.
  pose proof (content_renumber l) as Hcontent.
  apply (f_equal (fmap (λ c : nat * JSValue * JSON, c.1.1))) in Hcontent.
  by rewrite <-!list_fmap_compose in Hcontent.
Qed.

Lemma ownsSteps_carried (w w' : World) (r r' : Routine) :
  (∀ step, step ∈ steps r' → ∃ step0, step0 ∈ steps r ∧ product step0 = product step ∧
      ∀ p, p ∈ products w → p_id p = product step0 →
           ∃ p', p' ∈ products w' ∧ p_id p' = p_id p ∧ p_user p' = p_user p) →
  r_user r' = r_user r →
  ownsSteps w r → ownsSteps w' r'.
Proof.
  intros Hsteps Huser Howns. unfold ownsSteps in *. rewrite Forall_forall in *.
  intros step Hstep. destruct (Hsteps step Hstep) as (step0 & Hin & Hproduct & Hkeep).
  destruct (Howns step0 Hin) as (p & Hp & Hid & Hu).
  destruct (Hkeep p Hp Hid) as (p' & Hp' & Hid' & Hu').
  exists p'. split; [done|]. split; congruence.
Qed.

Lemma integrity_same_data (w w' : World) :
  same_data w' w → integrity w → integrity w'.
Proof. intros (Hp & _ & Hr) [Hids Howns]. unfold integrity, ownsSteps. by rewrite Hp, Hr. Qed.

Lemma autoRegenerateRoutines_integrity `{Env} (userId : nat) (w : World) :
  integrity w → integrity (autoRegenerateRoutines userId w).1.
Proof.
  intros [Hids Howns].
  destruct (autoRegenerateRoutines userId w) as [w' result] eqn:Hrun. cbn [fst].
  destruct (autoRegenerateRoutines_frame userId w w' result Hrun) as (Hp & _ & _).
  pose proof (autoRegenerateRoutines_provenance userId w w' result Hrun) as Hnew.
  split; [by rewrite Hp|].
  intros rid r Hlookup. unfold ownsSteps. rewrite Hp.
  destruct (Hnew rid r Hlookup) as [Hold|(Hu & _ & _ & _ & Hsteps)].
  - by apply (Howns rid r).
  - eapply Forall_impl; [exact Hsteps|].
    intros step (p & Hin & Huser & _ & Hid). exists p. split; [done|]. split; congruence.
Qed.

Lemma createProduct_integrity (reqUser : nat) (body : ProductBody) (w : World) :
  integrity w → integrity (createProduct reqUser body w).1.
Proof.
  intros [Hids Howns]. rewrite createProduct_run. cbn [fst].
  set (id := fresh (list_to_set (p_id <$> products w) : gset nat)).
  assert (id ∉ p_id <$> products w) as Hfresh.
  { intros Hin. apply (is_fresh (list_to_set (p_id <$> products w) : gset nat)).
    by apply elem_of_list_to_set. }
  split.
  - cbn [products add_log set_products]. rewrite fmap_app. apply NoDup_app.
    split; [done|]. split; [|apply NoDup_singleton].
    intros x Hx [->|[]%elem_of_nil]%elem_of_cons. done.
  - cbn [routines add_log set_products]. intros rid r Hlookup.
    apply (ownsSteps_carried w _ r r); [|done|by eapply Howns].
    intros step Hstep. exists step. split; [done|]. split; [done|].
    intros p Hp _. exists p. split; [|done].
    cbn [products add_log set_products]. apply elem_of_app. by left.
Qed.

Lemma updateProduct_own (reqUser id : nat) (body : ProductBody) (w : World)
    (p : Product) :
  List.find (λ q, bool_decide (p_id q = id)) (products w) = Some p →
  p_user p = reqUser →
  updateProduct reqUser id body w
  = (add_log (set_products w
                ((λ q, if decide (p_id q = id) then applyBody p body else q)
                   <$> products w))
       (EvProductUpdate id),
     Ok {| response := Updated (applyBody p body) (significantChangeValue body);
           scheduled := if significantChange body then Some reqUser else None |}).
Proof.
  intros Hfound Howner.
  unfold updateProduct, Db.Product_findById, Db.Product_replace, read, write, emit.
  rewrite bind_run, Hfound, decide_False by (intros Hne; by apply Hne).
  by rewrite !bind_run.
Qed.

Lemma updateProduct_integrity (reqUser id : nat) (body : ProductBody) (w : World) :
  b_user body = None ∨ b_user body = Some reqUser →
  integrity w → integrity (updateProduct reqUser id body w).1.
Proof.
  intros Hbody [Hids Howns].
  destruct (List.find (λ q, bool_decide (p_id q = id)) (products w)) as [p|] eqn:Hfound.
  2:{ by destruct (handlers_unknown reqUser id body w Hfound) as (_ & -> & _). }
  destruct (decide (p_user p = reqUser)) as [Howner|Hother].
  2:{ by destruct (handlers_foreign reqUser id body w p Hfound Hother) as (_ & -> & _). }
  rewrite (updateProduct_own reqUser id body w p Hfound Howner). cbn [fst].
  apply find_elem in Hfound as [Hp Hid%bool_decide_eq_true_1].
  set (f := λ q, if decide (p_id q = id) then applyBody p body else q).
  assert (∀ q, p_id (f q) = p_id q) as Hsame.
  { intros q. unfold f. case_decide; [simpl; congruence|done]. }
  split.
  - cbn [products add_log set_products]. rewrite <-list_fmap_compose.
    rewrite (list_fmap_ext (p_id ∘ f) p_id (products w)); [done|].
    intros i q _. apply Hsame.
  - cbn [routines add_log set_products]. intros rid r Hlookup.
    apply (ownsSteps_carried w _ r r); [|done|by eapply Howns].
    intros step Hstep. exists step. split; [done|]. split; [done|].
    intros q Hq _. exists (f q).
    split; [cbn [products add_log set_products]; apply list_elem_of_fmap; by exists q|].
    split; [apply Hsame|].
    unfold f. case_decide as Hqid; [|done].
    assert (q = p) as -> by (apply (ids_inj (products w)); congruence).
    cbn [p_user applyBody]. by destruct Hbody as [-> | ->].
Qed.

(** What is left of the collections when a request was served. *)
Lemma serve_data `{Env} (h : M Reply) (w w1 : World) (reply : Reply) :
  h w = (w1, Ok reply) →
  products (serve h w).1 = products w1 ∧
  ∀ rid r, routines w1 !! rid = Some r → isAIGenerated r = false →
           routines (serve h w).1 !! rid = Some r.
Proof.
  intros Hrun. rewrite (serve_routines _ _ _ _ Hrun).
  destruct (scheduled reply) as [userId|]; [|done].
  destruct (background_data userId w1) as (-> & _ & ->).
  destruct (autoRegenerateRoutines userId w1) as [w' result] eqn:Hregen. cbn [fst].
  destruct (autoRegenerateRoutines_frame userId w1 w' result Hregen) as (Hp & _ & Hr).
  split; [done|]. intros rid r Hlookup Hmanual. apply Hr; [done|by right].
Qed.

Lemma deleteProduct_integrity (reqUser id : nat) (w : World) :
  integrity w → integrity (deleteProduct reqUser id w).1.
Proof.
  intros [Hids Howns].
  destruct (List.find (λ q, bool_decide (p_id q = id)) (products w)) as [p|] eqn:Hfound.
  2:{ destruct (handlers_unknown reqUser id
                  {| b_user := None; b_name := None; b_brand := None; b_type := None;
                     b_keyIngredients := None; b_usage := None; b_isActive := None |}
                  w Hfound) as (_ & _ & ->). done. }
  destruct (decide (p_user p = reqUser)) as [Howner|Hother].
  2:{ destruct (handlers_foreign reqUser id
                  {| b_user := None; b_name := None; b_brand := None; b_type := None;
                     b_keyIngredients := None; b_usage := None; b_isActive := None |}
                  w p Hfound Hother) as (_ & _ & ->). done. }
  destruct (deleteProduct_run reqUser id w p Hfound Howner)
    as (w1 & n & -> & Hproducts & _ & Hroutines). cbn [fst].
  apply find_elem in Hfound as [Hp Hid%bool_decide_eq_true_1].
  split; [rewrite Hproducts; by apply ids_filter|].
  intros rid r'. rewrite Hroutines.
  destruct (routines w !! rid) as [r|] eqn:Hlookup; [|done].
  assert (∀ step0 q, step0 ∈ steps r → product step0 ≠ id →
            q ∈ products w → p_id q = product step0 →
            ∃ q', q' ∈ products w1 ∧ p_id q' = p_id q ∧ p_user q' = p_user q) as Hstays.
  { intros step0 q _ Hne Hq Hqid. exists q. split; [|done].
    rewrite Hproducts. apply list_elem_of_filter. split; [congruence|done]. }
  case_decide as Haffected.
  - intros (Hu & _ & _ & Hsteps)%repaired_same.
    apply (ownsSteps_carried w _ r r'); [|done|by eapply Howns].
    intros step Hstep. rewrite Hsteps in Hstep.
    assert (product step ∈ product <$> kept id r) as Hkept.
    { rewrite <-product_renumber. apply list_elem_of_fmap. by exists step. }
    apply list_elem_of_fmap in Hkept as (step0 & Hproduct & [Hne Hin]%list_elem_of_filter).
    exists step0. split; [done|]. split; [done|].
    intros q Hq Hqid. by eapply Hstays.
  - intros [= <-].
    apply (ownsSteps_carried w _ r r); [|done|by eapply Howns].
    intros step Hstep. exists step. split; [done|]. split; [done|].
    intros q Hq Hqid. eapply Hstays; try done.
    intros Hdeleted. apply Haffected.
    assert (q = p) as -> by (apply (ids_inj (products w)); congruence).
    assert (ownsSteps w r) as Hr by by eapply Howns.
    unfold ownsSteps in Hr. rewrite Forall_forall in Hr.
    destruct (Hr step Hstep) as (q' & Hq' & Hq'id & Hq'user).
    assert (q' = p) as -> by (apply (ids_inj (products w)); congruence).
    split; [congruence|]. unfold Db.references. apply Exists_exists. by exists step.
Qed.

(** X21. Referential integrity: products have distinct ids and every step
    of every routine uses a product of the routine's owner. A request served
    to the end, with no other request in between, keeps it: so do
    [autoRegenerateRoutines], and [createProduct] and [deleteProduct] with
    the regeneration they start, and so does [updateProduct] when the body
    has no [user] or that of the caller. *)
Theorem served_requests_keep_referential_integrity `{Env} (reqUser id : nat)
    (body : ProductBody) (w : World) :
  integrity w →
  integrity (autoRegenerateRoutines reqUser w).1 ∧
  integrity (serve (createProduct reqUser body) w).1 ∧
  (b_user body = None ∨ b_user body = Some reqUser →
   integrity (serve (updateProduct reqUser id body) w).1) ∧
  integrity (serve (deleteProduct reqUser id) w).1.
Proof.
  intros Hw.
  assert (∀ (h : M Reply) w1 reply,
            h w = (w1, Ok reply) → integrity w1 → integrity (serve h w).1) as Hserve.
  { intros h w1 reply Hrun Hw1. rewrite (serve_routines _ _ _ _ Hrun).
    destruct (scheduled reply) as [userId|]; [|done].
    eapply integrity_same_data; [apply background_data|].
    by apply autoRegenerateRoutines_integrity. }
  split; [by apply autoRegenerateRoutines_integrity|].
  split; [|split].
  - eapply Hserve; [apply createProduct_run|].
    pose proof (createProduct_integrity reqUser body w Hw) as Hw1.
    by rewrite createProduct_run in Hw1.
  - intros Hbody.
    destruct (updateProduct_total reqUser id body w)
      as (w1 & r & s & Hrun & _).
    eapply Hserve; [exact Hrun|].
    pose proof (updateProduct_integrity reqUser id body w Hbody Hw) as Hw1.
    by rewrite Hrun in Hw1.
  - pose proof (deleteProduct_integrity reqUser id w Hw) as Hw1.
    destruct (deleteProduct reqUser id w) as [w1 [reply|e]] eqn:Hrun.
    + by eapply Hserve.
    + unfold serve, handle. by rewrite bind_run, try_catch_run, Hrun.
Qed.

Lemma sample_integrity : integrity usedWorld.
Proof.
  split; [apply (bool_decide_unpack _); by vm_compute|].
  assert (map_Forall (λ _ r,
            Forall (λ step, Exists (λ p, p_id p = product step ∧ p_user p = r_user r)
                              (products usedWorld)) (steps r))
            (routines usedWorld)) as Hall
    by (apply (bool_decide_unpack _); by vm_compute).
  intros rid r Hr. specialize (Hall rid r Hr). unfold ownsSteps.
  eapply Forall_impl; [exact Hall|].
  intros step (p & Hp & ? & ?)%Exists_exists. by exists p.
Defined.

Lemma served_requests_keep_referential_integrity_witness :
  integrity usedWorld ∧
  integrity (@serve (answering (says fullDraft)) (deleteProduct 7 3) usedWorld).1 ∧
  integrity (@serve (answering (says fullDraft))
               (updateProduct 7 1 (activeOnly true)) usedWorld).1.
Proof.
  split; [exact sample_integrity|]. split.
  - apply (@served_requests_keep_referential_integrity (answering (says fullDraft))
             7 3 (activeOnly true) usedWorld sample_integrity).
  - apply (@served_requests_keep_referential_integrity (answering (says fullDraft))
             7 1 (activeOnly true) usedWorld sample_integrity). by left.
Defined.

Lemma find_fmap_id (f : Product → Product) (id : nat) (l : list Product) :
  (∀ q, p_id (f q) = p_id q) →
  List.find (λ q, bool_decide (p_id q = id)) (f <$> l)
  = f <$> List.find (λ q, bool_decide (p_id q = id)) l.
Proof.
  intros Hsame. induction l as [|q l IH]; [done|].
  rewrite fmap_cons. cbn [List.find]. rewrite Hsame.
  by destruct (bool_decide (p_id q = id)).
Qed.

(** X29. [updateProduct] stores the body as it came, [user] included. When
    the body of an update of a product of the caller names another user, the
    product is handed over: after the request [getProduct] answers 403 to the
    caller and returns the product to the other user. A routine the caller
    made by hand that uses the product then has a step on a product of
    someone else, so that referential integrity, when it held, is lost. *)
Theorem update_naming_another_user_hands_the_product_over `{Env}
    (reqUser id other : nat) (body : ProductBody) (w : World) (p : Product) :
  b_user body = Some other → other ≠ reqUser →
  List.find (λ q, bool_decide (p_id q = id)) (products w) = Some p →
  p_user p = reqUser →
  let w' := (serve (updateProduct reqUser id body) w).1 in
  getProduct reqUser id w' = (w', Ok FetchedNotAuthorized) ∧
  getProduct other id w' = (w', Ok (FetchedProduct (applyBody p body))) ∧
  (integrity w →
   ∀ rid r, routines w !! rid = Some r → isAIGenerated r = false →
            Db.references id r → ¬ integrity w').
Proof.
  intros Hbody Hother Hfound Howner w'.
  destruct (serve_data _ w _ _ (updateProduct_own reqUser id body w p Hfound Howner))
    as [Hproducts Hroutines].
  fold w' in Hproducts, Hroutines.
  cbn [products routines add_log set_products] in Hproducts, Hroutines.
  set (f := λ q, if decide (p_id q = id) then applyBody p body else q) in Hproducts.
  assert (p_id p = id) as Hid.
  { by apply find_elem in Hfound as [_ ?%bool_decide_eq_true_1]. }
  assert (∀ q, p_id (f q) = p_id q) as Hsame.
  { intros q. unfold f. case_decide; [simpl; congruence|done]. }
  assert (List.find (λ q, bool_decide (p_id q = id)) (products w')
          = Some (applyBody p body)) as Hfound'.
  { rewrite Hproducts, (find_fmap_id f id _ Hsame), Hfound. simpl.
    unfold f. by rewrite decide_True. }
  assert (p_user (applyBody p body) = other) as Huser
    by (cbn [p_user applyBody]; by rewrite Hbody).
  split; [|split].
  - apply (handlers_foreign reqUser id body w' _ Hfound'). congruence.
  - unfold getProduct, Db.Product_findById, read.
    by rewrite bind_run, Hfound', decide_False by (intros Hne; by apply Hne).
  - intros [Hids Howns] rid r Hlookup Hmanual Huses [_ Hafter].
    apply find_elem in Hfound as [Hp _].
    apply Exists_exists in Huses as (step & Hstep & Hproduct).
    specialize (Howns rid r Hlookup).
    specialize (Hafter rid r (Hroutines rid r Hlookup Hmanual)).
    unfold ownsSteps in Howns, Hafter. rewrite Forall_forall in Howns, Hafter.
    destruct (Howns step Hstep) as (q & Hq & Hqid & Hquser).
    assert (q = p) as -> by (apply (ids_inj (products w)); congruence).
    destruct (Hafter step Hstep) as (q' & Hq' & Hq'id & Hq'user).
    rewrite Hproducts in Hq'.
    apply list_elem_of_fmap in Hq' as (q & -> & Hq').
    rewrite Hsame in Hq'id.
    assert (q = p) as -> by (apply (ids_inj (products w)); congruence).
    unfold f in Hq'user. rewrite decide_True in Hq'user by done. congruence.
Qed.

Lemma update_naming_another_user_hands_the_product_over_witness :
  let w' := (@serve (answering (says fullDraft))
               (updateProduct 7 1 (handOver 8)) usedWorld).1 in
  getProduct 7 1 w' = (w', Ok FetchedNotAuthorized) ∧
  (∃ p, getProduct 8 1 w' = (w', Ok (FetchedProduct p)) ∧ p_user p = 8%nat) ∧
  integrity usedWorld ∧ ¬ integrity w'.
Proof.
  intros w'.
  destruct (@update_naming_another_user_hands_the_product_over
              (answering (says fullDraft)) 7 1 8 (handOver 8) usedWorld
              (sampleProduct 1 7 "CeraVe Foaming Cleanser" "cleanser"))
    as (Hcaller & Hother & Hlost); [reflexivity|lia|reflexivity|reflexivity|].
  split; [exact Hcaller|]. split; [by eexists|].
  split; [exact sample_integrity|].
  apply (Hlost sample_integrity 10%nat (routineOn [1%nat; 2%nat])); [done|done|].
  apply (bool_decide_unpack _). by vm_compute.
Defined.

(** ** The streak controller *)

Local Open Scope Z_scope.

Section StreakProperties.
Context `{Clock} `{StreakModel}.

Lemma completeFirst_dates test h :
  date <$> completeFirst test h = date <$> h ∧
  length (completeFirst test h) = length h.
Proof.
  induction h as [|e h [IH1 IH2]]; [done|].
  cbn [completeFirst]. destruct (test e).
  - by rewrite !fmap_cons.
  - rewrite !fmap_cons, IH1. cbn [length]. by rewrite IH2.
Qed.

Lemma completeFirst_again today h :
  completeFirst (isToday today) (completeFirst (isToday today) h)
  = completeFirst (isToday today) h.
Proof.
  induction h as [|e h IH]; simpl; [done|].
  destruct (isToday today e) eqn:He; simpl.
  - unfold isToday in *. simpl. by rewrite He.
  - by rewrite He, IH.
Qed.

Lemma find_completeFirst today h e :
  List.find (isToday today) h = Some e →
  List.find (isToday today) (completeFirst (isToday today) h) = Some (completed e).
Proof.
  induction h as [|e' h IH]; simpl; [done|].
  destruct (isToday today e') eqn:He.
  - intros [= ->]. simpl. unfold isToday in *. simpl. by rewrite He.
  - intros Hfind. simpl. rewrite He. by apply IH.
Qed.

Lemma completeFirst_split test h e :
  List.find test h = Some e →
  ∃ before after,
    h = before ++ e :: after ∧ Forall (λ x, test x = false) before ∧
    completeFirst test h = before ++ completed e :: after.
Proof.
  induction h as [|x h IH]; simpl; [done|].
  destruct (test x) eqn:Hx.
  - intros [= ->]. by exists [], h.
  - intros (before & after & -> & Hbefore & ->)%IH.
    exists (x :: before), after. split; [done|]. split; [by constructor|done].
Qed.

Lemma lastNinety_spec {A} (l : list A) (x : A) :
  let h := l ++ [x] in
  let h' := if decide (90 < length h)%nat then lastNinety h else h in
  length h' = (S (length l) `min` 90)%nat ∧ h' `suffix_of` h ∧ last h' = Some x.
Proof.
  intros h h'. subst h'. assert (length h = S (length l)) as Hlen
    by (subst h; rewrite length_app; simpl; lia).
  case_decide as Hlong.
  - unfold lastNinety. split; [rewrite length_drop; lia|].
    split; [apply suffix_drop|].
    subst h. rewrite drop_app_le by (rewrite length_app in Hlong; simpl in Hlong; lia).
    by rewrite last_snoc.
  - split; [lia|]. split; [done|]. subst h. by rewrite last_snoc.
Qed.

(** X22. [getStreak] answers with the streak of the user, creates it (one
    day, one login, the day not yet completed) when there is none, leaves the
    streaks of other users alone, and never changes a streak that exists:
    asked again, at any time, it gives the same document. *)
Theorem getStreak_creates_once (reqUser : nat) (now now' : Z)
    (db : gmap nat (Streak Achievements)) :
  ∃ streak,
    (getStreak reqUser now now' db).2 = StreakSent streak ∧
    (getStreak reqUser now now' db).1 !! reqUser = Some streak ∧
    (∀ other, other ≠ reqUser →
              (getStreak reqUser now now' db).1 !! other = db !! other) ∧
    (is_Some (db !! reqUser) → (getStreak reqUser now now' db).1 = db) ∧
    (db !! reqUser = None →
     streak = {| currentStreak := 1; longestStreak := 1; lastLoginDate := now;
                 totalLogins := 1;
                 loginHistory := [{| date := now'; routineCompleted := false |}];
                 achievements := noAchievements |}) ∧
    (∀ later later',
       getStreak reqUser later later' (getStreak reqUser now now' db).1
       = ((getStreak reqUser now now' db).1, StreakSent streak)).
Proof.
  destruct (db !! reqUser) as [streak|] eqn:Hdb.
  - assert (getStreak reqUser now now' db = (db, StreakSent streak)) as ->
      by (unfold getStreak; by rewrite Hdb).
    exists streak. cbn [fst snd].
    split; [done|]. split; [done|]. split; [done|]. split; [done|].
    split; [done|].
    intros later later'. unfold getStreak. by rewrite Hdb.
  - set (streak := {| currentStreak := 1; longestStreak := 1; lastLoginDate := now;
                      totalLogins := 1;
                      loginHistory := [{| date := now'; routineCompleted := false |}];
                      achievements := noAchievements |}).
    assert (getStreak reqUser now now' db = (<[reqUser:=streak]> db, StreakSent streak))
      as -> by (unfold getStreak; by rewrite Hdb).
    exists streak. cbn [fst snd]. split; [done|].
    split; [by rewrite lookup_insert_eq|].
    split; [intros other Hne; by rewrite lookup_insert_ne|].
    split; [by intros [? ?]|]. split; [done|].
    intros later later'. unfold getStreak. by rewrite lookup_insert_eq.
Qed.

(** X23. [updateStreak] on a day the history already has an entry for
    marks the first entry of that day completed and changes nothing else:
    the counters, the last login, the achievements and every other entry of
    the history stay, and [checkAchievements] is not consulted. Another
    update on the same day changes nothing at all. *)
Theorem same_day_update_only_completes_the_entry (reqUser : nat) (now : Z)
    (db : gmap nat (Streak Achievements)) (streak : Streak Achievements)
    (entry : LoginEntry) :
  db !! reqUser = Some streak →
  List.find (isToday (setHoursZero now)) (loginHistory streak) = Some entry →
  ∃ streak',
    updateStreak reqUser now db = (<[reqUser:=streak']> db, StreakSent streak') ∧
    currentStreak streak' = currentStreak streak ∧
    longestStreak streak' = longestStreak streak ∧
    lastLoginDate streak' = lastLoginDate streak ∧
    totalLogins streak' = totalLogins streak ∧
    achievements streak' = achievements streak ∧
    date <$> loginHistory streak' = date <$> loginHistory streak ∧
    (∃ before after,
       loginHistory streak = before ++ entry :: after ∧
       Forall (λ e, isToday (setHoursZero now) e = false) before ∧
       loginHistory streak' = before ++ completed entry :: after) ∧
    (∀ later, setHoursZero later = setHoursZero now →
       updateStreak reqUser later (<[reqUser:=streak']> db)
       = (<[reqUser:=streak']> db, StreakSent streak')).
Proof.
  intros Hdb Hfind.
  set (today := setHoursZero now) in *.
  exists (with_history streak (completeFirst (isToday today) (loginHistory streak))).
  split; [unfold updateStreak; fold today; by rewrite Hdb, Hfind|].
  do 5 (split; [done|]).
  split; [apply completeFirst_dates|].
  split; [by apply completeFirst_split|].
  intros later Hsame. unfold updateStreak. rewrite Hsame. fold today.
  rewrite lookup_insert_eq. cbn [loginHistory with_history].
  rewrite (find_completeFirst today _ entry Hfind), completeFirst_again.
  by rewrite insert_insert_eq.
Qed.

(** X24. A login on a day without an entry counts one login more, moves the
    last login to today, never lowers the longest streak, keeps the current
    streak between 1 and the longest one when it was, and appends the entry
    of today to the history, of which the last 90 entries are kept; the
    document is then handed to [checkAchievements] and what it returns is
    saved, or its error is passed to [next] and nothing is saved. *)
Theorem advance_keeps_the_counters_in_range (today : Z)
    (streak : Streak Achievements) :
  let entry := {| date := today; routineCompleted := true |} in
  let streak' := advance today streak in
  totalLogins streak' = totalLogins streak + 1 ∧
  lastLoginDate streak' = today ∧
  achievements streak' = achievements streak ∧
  longestStreak streak ≤ longestStreak streak' ∧
  (1 ≤ currentStreak streak ≤ longestStreak streak →
   1 ≤ currentStreak streak' ≤ longestStreak streak') ∧
  length (loginHistory streak') = (S (length (loginHistory streak)) `min` 90)%nat ∧
  loginHistory streak' `suffix_of` loginHistory streak ++ [entry] ∧
  last (loginHistory streak') = Some entry ∧
  (∀ reqUser now db,
     setHoursZero now = today → db !! reqUser = Some streak →
     List.find (isToday today) (loginHistory streak) = None →
     updateStreak reqUser now db
     = match checkAchievements streak' with
       | Ok saved => (<[reqUser:=saved]> db, StreakSent saved)
       | Throw error => (db, StreakNext error)
       end).
Proof.
  intros entry streak'. subst streak'. unfold advance.
  cbn [totalLogins lastLoginDate achievements longestStreak currentStreak loginHistory].
  set (diffDays := (today - setHoursZero (lastLoginDate streak)) `div` msPerDay).
  split; [done|]. split; [done|]. split; [done|].
  split; [|split].
  - destruct (diffDays =? 1); simpl; [|lia].
    destruct (Z.gtb_spec (currentStreak streak + 1) (longestStreak streak)); lia.
  - intros Hrange. destruct (diffDays =? 1); simpl.
    + destruct (Z.gtb_spec (currentStreak streak + 1) (longestStreak streak)); lia.
    + destruct (diffDays >? 1); lia.
  - destruct (lastNinety_spec (loginHistory streak) entry) as (Hlen & Hsuffix & Hlast).
    split; [done|]. split; [done|]. split; [done|].
    intros reqUser now db Hnow Hdb Hfind. unfold updateStreak.
    by rewrite Hnow, Hdb, Hfind.
Qed.

(** X25. When [getStreak] created the streak and [updateStreak] is called
    on the same day, the day is counted once: the entry [getStreak] made is
    completed, and the streak and the logins stay at 1. *)
Theorem first_update_on_the_day_of_getStreak (reqUser : nat) (now now' later : Z)
    (db : gmap nat (Streak Achievements)) :
  db !! reqUser = None →
  setHoursZero now' = setHoursZero later →
  let streak :=
    {| currentStreak := 1; longestStreak := 1; lastLoginDate := now;
       totalLogins := 1;
       loginHistory := [{| date := now'; routineCompleted := true |}];
       achievements := noAchievements |} in
  updateStreak reqUser later (getStreak reqUser now now' db).1
  = (<[reqUser:=streak]> db, StreakSent streak).
Proof.
  intros Hdb Hsame streak.
  assert (isToday (setHoursZero later) {| date := now'; routineCompleted := false |}
          = true) as Htoday
    by (unfold isToday; cbn [date]; rewrite Hsame; apply Z.eqb_refl).
  unfold getStreak. rewrite Hdb. cbn [fst].
  unfold updateStreak. rewrite lookup_insert_eq.
  cbn [loginHistory List.find completeFirst]. rewrite !Htoday.
  by rewrite insert_insert_eq.
Qed.

End StreakProperties.

Lemma same_day_update_only_completes_the_entry_witness :
  ∃ streak',
    @updateStreak (fixedOffset 0) plainModel 7 1704160000000 {[ 7%nat := sampleStreak ]}
      = (<[7%nat:=streak']> {[ 7%nat := sampleStreak ]}, StreakSent streak') ∧
    totalLogins streak' = 9 ∧
    routineCompleted <$> loginHistory streak' = [true; true].
Proof.
  destruct (@same_day_update_only_completes_the_entry (fixedOffset 0) plainModel
              7 1704160000000 {[ 7%nat := sampleStreak ]} sampleStreak
              {| date := 1704153600000; routineCompleted := false |})
    as (streak' & Hrun & _ & _ & _ & Htotal & _).
  - reflexivity.
  - reflexivity.
  - exists streak'. split; [done|]. split; [done|].
    apply (f_equal snd) in Hrun. vm_compute in Hrun. by injection Hrun as <-.
Defined.

Lemma first_update_on_the_day_of_getStreak_witness :
  totalLogins <$>
    (@updateStreak (fixedOffset 0) plainModel 7 1704160000000
       (@getStreak plainModel 7 1704153600123 1704153600124 ∅).1).1 !! 7%nat
  = Some 1.
Proof.
  rewrite (@first_update_on_the_day_of_getStreak (fixedOffset 0) plainModel
             7 1704153600123 1704153600124 1704160000000 ∅);
    [|reflexivity|reflexivity].
  cbn [fst]. by rewrite lookup_insert_eq.
Defined.

Lemma setHoursZero_fixedOffset (offset t : Z) :
  @setHoursZero (fixedOffset offset) t = msPerDay * localDay offset t - offset.
Proof.
  unfold fixedOffset, localDay. cbn [setHoursZero].
  pose proof (Z.div_mod (t + offset) msPerDay). unfold msPerDay in *. lia.
Qed.

(** X26. On a server whose time zone has a fixed offset from UTC, an entry
    counts as one of today exactly when it falls on the same local day; and
    a login extends the streak by one when the last login was on the day
    before, starts it again at 1 when it was earlier, and leaves it when it
    was not before today. The longest streak is raised with it. *)
Theorem fixed_offset_streak_follows_the_calendar (offset now : Z)
    (entry : LoginEntry) (A : Type) (streak : Streak A) :
  let clock := fixedOffset offset in
  let gap := localDay offset now - localDay offset (lastLoginDate streak) in
  (@isToday clock (@setHoursZero clock now) entry = true
   ↔ localDay offset (date entry) = localDay offset now) ∧
  currentStreak (@advance clock A (@setHoursZero clock now) streak)
  = (if gap =? 1 then currentStreak streak + 1
     else if gap >? 1 then 1 else currentStreak streak) ∧
  longestStreak (@advance clock A (@setHoursZero clock now) streak)
  = (if gap =? 1 then longestStreak streak `max` (currentStreak streak + 1)
     else longestStreak streak).
Proof.
  intros clock gap. subst clock.
  split; [|split].
  - unfold isToday. rewrite !setHoursZero_fixedOffset, Z.eqb_eq.
    unfold msPerDay. lia.
  - unfold advance. cbn [currentStreak].
    rewrite !setHoursZero_fixedOffset.
    replace (msPerDay * localDay offset now - offset
             - (msPerDay * localDay offset (lastLoginDate streak) - offset))
      with (gap * msPerDay) by (subst gap; lia).
    by rewrite Z.div_mul by done.
  - unfold advance. cbn [longestStreak].
    rewrite !setHoursZero_fixedOffset.
    replace (msPerDay * localDay offset now - offset
             - (msPerDay * localDay offset (lastLoginDate streak) - offset))
      with (gap * msPerDay) by (subst gap; lia).
    rewrite Z.div_mul by done.
    destruct (gap =? 1); simpl; [|done].
    destruct (Z.gtb_spec (currentStreak streak + 1) (longestStreak streak)); lia.
Qed.

Local Close Scope Z_scope.
